(** * tqdm.h: a shallow embedding of the terminal progress bar

    The header defines two classes, [Chronometer] (a stopwatch over
    [std::chrono::steady_clock]) and [ProgressBar] (step counting, refresh
    throttling and the rendering of one progress line).

    - [unsigned int] is a 32-bit integer: a [Z] in [0, 2^32) with the
      wrap-around written out ([wrap]).
    - [double] is IEEE-754 binary64: Rocq's primitive [float], so every
      floating-point operation of the source is evaluated bit for bit.
    - [static_cast<int>] of a [double] is undefined when the truncated value
      does not fit an [int]; operations that reach it return [None].
    - the steady clock is an oracle: the i-th call of
      [steady_clock::now()] returns [clock i], counted in nanosecond ticks.
    - an [std::ostream] is its [fmtflags] word and the log of what was
      written to it and when it was flushed. *)

From Stdlib Require Import ZArith List String Ascii Bool Lia Floats Uint63 DecimalString.
Import ListNotations.
Open Scope string_scope.
Open Scope Z_scope.

(** ** Machine integers *)

Definition UINT_MODULUS : Z := 2 ^ 32.
Definition INT_MIN : Z := - 2 ^ 31.
Definition INT_MAX : Z := 2 ^ 31 - 1.

(** Reduction of a mathematical integer to [unsigned int]. *)
Definition wrap (z : Z) : Z := z mod UINT_MODULUS.
Definition uadd (a b : Z) : Z := wrap (a + b).
Definition usub (a b : Z) : Z := wrap (a - b).

Definition is_uint (z : Z) : Prop := 0 <= z < UINT_MODULUS.
Definition in_int_range (z : Z) : bool := (INT_MIN <=? z) && (z <=? INT_MAX).

(** A value of type [int], or [None] when it does not fit (signed overflow
    and out-of-range conversions are undefined). *)
Definition checked_int (z : Z) : option Z :=
  if in_int_range z then Some z else None.

(** ** Doubles *)

(** [static_cast<double>(n)] for an [unsigned int] (or any value below
    [2^63]). *)
Definition double_of_uint (n : Z) : float := PrimFloat.of_uint63 (Uint63.of_Z n).

(** [static_cast<double>(d)] for a signed tick count. *)
Definition double_of_ticks (d : Z) : float :=
  if d <? 0 then (- double_of_uint (- d))%float else double_of_uint d.

(** Truncation toward zero of a finite value. *)
Definition SFtrunc (x : spec_float) : option Z :=
  match x with
  | S754_zero _ => Some 0
  | S754_finite s m e => Some (cond_Zopp s (Z.shiftl (Zpos m) e))
  | S754_infinity _ | S754_nan => None
  end.

(** [static_cast<int>(x)]. *)
Definition double_to_int (x : float) : option Z :=
  match SFtrunc (Prim2SF x) with
  | Some z => checked_int z
  | None => None
  end.

(** [std::round]: to the nearest integer, halfway cases away from zero. *)
Definition d_round (x : float) : float :=
  match Prim2SF x with
  | S754_finite s m e =>
      if 0 <=? e then x
      else
        let q := Z.shiftl (Zpos m) e in
        let n := if Z.testbit (Zpos m) (- e - 1) then q + 1 else q in
        if s then (- double_of_uint n)%float else double_of_uint n
  | _ => x
  end.

(** [std::floor]: the largest integer not above [x]. *)
Definition d_floor (x : float) : float :=
  match Prim2SF x with
  | S754_finite s m e =>
      if 0 <=? e then x
      else
        let q := Z.shiftl (Zpos m) e in
        if s then
          let exact := Z.land (Zpos m) (Z.ones (- e)) =? 0 in
          (- double_of_uint (if exact then q else q + 1))%float
        else double_of_uint q
  | _ => x
  end.

(** ** Text *)

Definition utf8_3 (a b c : nat) : string :=
  String (ascii_of_nat a) (String (ascii_of_nat b) (String (ascii_of_nat c) EmptyString)).

(** The block characters of the bar, as the UTF-8 byte strings of the
    source's literals. *)
Definition FULL_BLOCK : string := utf8_3 226 150 136.           (* U+2588 *)
Definition LEFT_ONE_EIGHTH : string := utf8_3 226 150 143.      (* U+258F *)
Definition LEFT_ONE_QUARTER : string := utf8_3 226 150 142.     (* U+258E *)
Definition LEFT_THREE_EIGHTHS : string := utf8_3 226 150 141.   (* U+258D *)
Definition LEFT_HALF : string := utf8_3 226 150 140.            (* U+258C *)
Definition LEFT_FIVE_EIGHTHS : string := utf8_3 226 150 139.    (* U+258B *)
Definition LEFT_THREE_QUARTERS : string := utf8_3 226 150 138.  (* U+258A *)
Definition LEFT_SEVEN_EIGHTHS : string := utf8_3 226 150 137.   (* U+2589 *)

Definition CR : string := String (ascii_of_nat 13) EmptyString.

(** [std::string(n, ' ')]. *)
Fixpoint spaces (n : nat) : string :=
  match n with
  | O => EmptyString
  | S k => String " "%char (spaces k)
  end.

(** Number of characters of a UTF-8 text: the bytes that are not
    continuation bytes (10xxxxxx). *)
Fixpoint glyphs (s : string) : nat :=
  match s with
  | EmptyString => O
  | String c r =>
      let b := Z.of_nat (nat_of_ascii c) in
      if (128 <=? b) && (b <? 192) then glyphs r else S (glyphs r)
  end.

Definition decimal (z : Z) : string := NilZero.string_of_uint (N.to_uint (Z.to_N z)).

(** The text of a NaN.  The only NaNs the program can write are those its
    own divisions produce ([0.0 / 0.0], at step 0 with no tick elapsed): the
    default NaN of an invalid operation, which on x86-64 has its sign bit
    set and which the C library writes with a sign. *)
Definition NAN_TEXT : string := "-nan".

(** [operator<<(double)] on a stream in [std::fixed] notation with
    precision 1: the exact binary value, rounded to one decimal (ties to
    even). *)
Definition fixed1 (x : float) : string :=
  match Prim2SF x with
  | S754_nan => NAN_TEXT
  | S754_infinity s => if s then "-inf" else "inf"
  | S754_zero s => if s then "-0.0" else "0.0"
  | S754_finite s m e =>
      let N := Zpos m * 10 in
      let n :=
        if 0 <=? e then Z.shiftl N e
        else
          let q := Z.shiftl N e in
          let r := Z.land N (Z.ones (- e)) in
          let half := Z.shiftl 1 (- e - 1) in
          if (half <? r) || ((half =? r) && Z.odd q) then q + 1 else q in
      (if s then "-" else "") ++ decimal (n / 10) ++ "." ++ decimal (n mod 10)
  end.

(** [std::setw(w)] applied to the next insertion: right-aligned, padded
    with spaces. *)
Definition setw (w : nat) (s : string) : string :=
  spaces (w - String.length s)%nat ++ s.

Example fixed1_100 : setw 5 (fixed1 100%float) = "100.0".
Proof. vm_compute. reflexivity. Qed.

Example fixed1_quarter : setw 5 (fixed1 (double_of_uint 1 / double_of_uint 4 * 100)%float) = " 25.0".
Proof. vm_compute. reflexivity. Qed.

Example fixed1_tie : fixed1 0.25%float = "0.2" /\ fixed1 0.75%float = "0.8" /\ fixed1 (-2.5)%float = "-2.5".
Proof. vm_compute. auto. Qed.

Example round_half : d_round 2.5%float = 3%float /\ d_round (-2.5)%float = (-3)%float
  /\ d_round 0.25%float = 0%float /\ d_floor (-0.5)%float = (-1)%float /\ d_floor 9.75%float = 9%float.
Proof. vm_compute. auto 6. Qed.

(** ** The environment: the steady clock and the output streams *)

(** A [time_point] of [std::chrono::steady_clock]: ticks since the clock's
    epoch.  The tick period is the implementation's; it is taken to be the
    nanosecond of the common standard libraries. *)
Definition time_point_t : Type := Z.
Definition TICKS_PER_SECOND : float := 1000000000%float.

Inductive os_event : Type :=
  | Wrote (s : string)
  | Flushed.

Record ostream : Type := mk_ostream
  { os_flags : Z;               (* the [fmtflags] word *)
    os_log : list os_event }.   (* oldest event first *)

Definition stream_ref : Type := nat.
Definition cerr : stream_ref := 0%nat.

Record World : Type := mk_World
  { clock : nat -> time_point_t;   (* the i-th reading of the steady clock *)
    reads : nat;                   (* readings taken so far *)
    streams : stream_ref -> ostream }.

(** The clock never goes backward. *)
Definition steady (w : World) : Prop :=
  forall i, clock w i <= clock w (S i).

(** Computations on the environment that may be undefined. *)
Definition M (A : Type) : Type := World -> option (A * World).

Definition ret {A} (a : A) : M A := fun w => Some (a, w).
Definition bind {A B} (m : M A) (k : A -> M B) : M B :=
  fun w => match m w with
           | Some (a, w') => k a w'
           | None => None
           end.
Definition lift {A} (o : option A) : M A :=
  fun w => match o with
           | Some a => Some (a, w)
           | None => None
           end.

Declare Scope m_scope.
Delimit Scope m_scope with M.
Notation "x <- m ;; k" := (bind m (fun x => k))
  (at level 61, m at next level, right associativity) : m_scope.
Notation "m ;;; k" := (bind m (fun _ => k))
  (at level 61, right associativity) : m_scope.
Open Scope m_scope.

(** [std::chrono::steady_clock::now()]. *)
Definition now : M time_point_t :=
  fun w => Some (clock w (reads w), mk_World (clock w) (S (reads w)) (streams w)).

Definition upd_stream (r : stream_ref) (o : ostream) (f : stream_ref -> ostream)
  : stream_ref -> ostream :=
  fun r' => if Nat.eqb r' r then o else f r'.

Definition modify_stream (r : stream_ref) (g : ostream -> ostream) : M unit :=
  fun w => Some (tt, mk_World (clock w) (reads w) (upd_stream r (g (streams w r)) (streams w))).

(** [os.flags()], [os.flags(f)], [os << s] and [os << std::flush]. *)
Definition os_get_flags (r : stream_ref) : M Z :=
  fun w => Some (os_flags (streams w r), w).
Definition os_set_flags (r : stream_ref) (f : Z) : M unit :=
  modify_stream r (fun o => mk_ostream f (os_log o)).
Definition os_write (r : stream_ref) (s : string) : M unit :=
  modify_stream r (fun o => mk_ostream (os_flags o) (os_log o ++ [Wrote s])).
Definition os_flush (r : stream_ref) : M unit :=
  modify_stream r (fun o => mk_ostream (os_flags o) (os_log o ++ [Flushed])).

(** ** elapsed_seconds and Chronometer *)

Definition elapsed_seconds (from to : time_point_t) : float :=
  (double_of_ticks (to - from) / TICKS_PER_SECOND)%float.

Record Chronometer : Type := mk_Chronometer { start_ : time_point_t }.

Module Chrono.

Definition new : M Chronometer :=
  t <- now ;; ret (mk_Chronometer t).

Definition reset (c : Chronometer) : M (float * Chronometer) :=
  let previous := start_ c in
  t <- now ;;
  ret (elapsed_seconds previous t, mk_Chronometer t).

Definition peek (c : Chronometer) : M float :=
  t <- now ;; ret (elapsed_seconds (start_ c) t).

Definition get_start (c : Chronometer) : time_point_t := start_ c.

End Chrono.

(** ** ProgressBar *)

Record ProgressBar : Type := mk_ProgressBar
  { chronometer_ : Chronometer;
    refresh_ : Chronometer;
    min_time_per_update_ : float;
    os_ : stream_ref;
    prefix_ : string;
    bar_size_ : Z;
    current_step_ : Z;
    total_steps_ : Z }.

(** The literal [0.1] of the constructor: the nearest double. *)
Definition DEFAULT_MIN_TIME : float := 0x1.999999999999ap-4%float.

Definition with_current_step (pb : ProgressBar) (n : Z) : ProgressBar :=
  mk_ProgressBar (chronometer_ pb) (refresh_ pb) (min_time_per_update_ pb)
    (os_ pb) (prefix_ pb) (bar_size_ pb) n (total_steps_ pb).

Definition with_refresh (pb : ProgressBar) (r : Chronometer) : ProgressBar :=
  mk_ProgressBar (chronometer_ pb) r (min_time_per_update_ pb)
    (os_ pb) (prefix_ pb) (bar_size_ pb) (current_step_ pb) (total_steps_ pb).

Definition with_chronometer (pb : ProgressBar) (c : Chronometer) : ProgressBar :=
  mk_ProgressBar c (refresh_ pb) (min_time_per_update_ pb)
    (os_ pb) (prefix_ pb) (bar_size_ pb) (current_step_ pb) (total_steps_ pb).

(** [get_fill_value]: the switch over the gradation index. *)
Definition get_fill_value (idx : Z) : string :=
  match idx with
  | 0 => LEFT_ONE_EIGHTH
  | 1 => LEFT_ONE_QUARTER
  | 2 => LEFT_THREE_EIGHTHS
  | 3 => LEFT_HALF
  | 4 => LEFT_FIVE_EIGHTHS
  | 5 => LEFT_THREE_QUARTERS
  | 6 => LEFT_SEVEN_EIGHTHS
  | _ => FULL_BLOCK
  end.

(** The first statement of [print_bar]:
    [unsigned num_filled = static_cast<int>(std::round(fill_percentage * bar_size_))]. *)
Definition num_filled_of (fill_percentage : float) (bar_size : Z) : option Z :=
  match double_to_int (d_round (fill_percentage * double_of_uint bar_size)%float) with
  | Some z => Some (wrap z)
  | None => None
  end.

(** [last_fill_idx] of [print_bar], after the [std::min]. *)
Definition last_fill_idx (fill_percentage : float) : option Z :=
  match double_to_int (fill_percentage * 100)%float,
        double_to_int (d_floor (fill_percentage * 10)%float * 10)%float with
  | Some a, Some b =>
      match checked_int (a - b) with
      | Some d => Some (Z.min d 6)
      | None => None
      end
  | _, _ => None
  end.

(** The loop [for (i = 0; i < num_filled; ++i) ss << "█"]. *)
Fixpoint put_blocks (n : nat) (ss : string) : string :=
  match n with
  | O => ss
  | S k => put_blocks k (ss ++ FULL_BLOCK)
  end.

Definition print_bar (pb : ProgressBar) (ss : string) (fill_percentage : float)
  : option string :=
  match num_filled_of fill_percentage (bar_size_ pb) with
  | None => None
  | Some num_filled =>
      let ss := ss ++ "|" in
      let ss := put_blocks (Z.to_nat num_filled) ss in
      match last_fill_idx fill_percentage with
      | None => None
      | Some idx =>
          let ss := ss ++ get_fill_value idx in
          let num_filled := uadd num_filled 1 in
          let ss :=
            if num_filled <? bar_size_ pb
            then ss ++ spaces (Z.to_nat (bar_size_ pb - num_filled))
            else ss in
          Some (ss ++ "|")
      end
  end.

Definition progress_of (pb : ProgressBar) : float :=
  (double_of_uint (current_step_ pb) / double_of_uint (total_steps_ pb))%float.

Definition update_display (pb : ProgressBar) : M unit :=
  let progress := progress_of pb in
  flags <- os_get_flags (os_ pb) ;;
  t <- Chrono.peek (chronometer_ pb) ;;
  let eta := (t / progress - t)%float in
  let bar := CR ++ prefix_ pb ++ " " ++ setw 5 (fixed1 (progress * 100)%float) ++ "%" in
  bar <- lift (print_bar pb bar progress) ;;
  let bar := bar ++ " [" ++ fixed1 t ++ "s<" ++ fixed1 eta ++ "s]" in
  os_write (os_ pb) bar ;;;
  os_flush (os_ pb) ;;;
  os_set_flags (os_ pb) flags.

Definition time_since_refresh (pb : ProgressBar) : M float :=
  Chrono.peek (refresh_ pb).

Definition reset_refresh_timer (pb : ProgressBar) : M ProgressBar :=
  r <- Chrono.reset (refresh_ pb) ;;
  ret (with_refresh pb (snd r)).

(** The constructor: the two chronometers are started first, in the order of
    their declaration. *)
Definition new (total_steps : Z) : M ProgressBar :=
  c <- Chrono.new ;;
  r <- Chrono.new ;;
  ret (mk_ProgressBar c r DEFAULT_MIN_TIME cerr "" 40 0 total_steps).

Definition restart (pb : ProgressBar) : M ProgressBar :=
  c <- Chrono.reset (chronometer_ pb) ;;
  let pb := with_chronometer pb (snd c) in
  r <- Chrono.reset (refresh_ pb) ;;
  ret (with_refresh pb (snd r)).

Definition update (elapsed_steps : Z) (force : bool) (pb : ProgressBar) : M ProgressBar :=
  let pb :=
    if uadd (current_step_ pb) elapsed_steps >? total_steps_ pb
    then with_current_step pb (total_steps_ pb)
    else with_current_step pb (uadd (current_step_ pb) elapsed_steps) in
  t <- time_since_refresh pb ;;
  if (min_time_per_update_ pb <? t)%float || force then
    pb <- reset_refresh_timer pb ;;
    update_display pb ;;;
    ret pb
  else ret pb.

(** [update()] with no argument. *)
Definition update_one (pb : ProgressBar) : M ProgressBar := update 1 false pb.

Definition fill (pb : ProgressBar) : M ProgressBar :=
  update (usub (total_steps_ pb) (current_step_ pb)) true pb.

Definition set_ostream (os : stream_ref) (pb : ProgressBar) : ProgressBar :=
  mk_ProgressBar (chronometer_ pb) (refresh_ pb) (min_time_per_update_ pb)
    os (prefix_ pb) (bar_size_ pb) (current_step_ pb) (total_steps_ pb).

Definition set_prefix (s : string) (pb : ProgressBar) : ProgressBar :=
  mk_ProgressBar (chronometer_ pb) (refresh_ pb) (min_time_per_update_ pb)
    (os_ pb) s (bar_size_ pb) (current_step_ pb) (total_steps_ pb).

Definition set_bar_size (size : Z) (pb : ProgressBar) : ProgressBar :=
  mk_ProgressBar (chronometer_ pb) (refresh_ pb) (min_time_per_update_ pb)
    (os_ pb) (prefix_ pb) size (current_step_ pb) (total_steps_ pb).

Definition set_min_update_time (time : float) (pb : ProgressBar) : ProgressBar :=
  mk_ProgressBar (chronometer_ pb) (refresh_ pb) time
    (os_ pb) (prefix_ pb) (bar_size_ pb) (current_step_ pb) (total_steps_ pb).

Definition elapsed_time (pb : ProgressBar) : M float :=
  Chrono.peek (chronometer_ pb).

(** ** Running the spec's example *)

Definition silent : stream_ref -> ostream := fun _ => mk_ostream 0 [].
Definition world0 (clk : nat -> Z) : World := mk_World clk 0 silent.

(** A clock that advances by [step] ticks between two readings. *)
Definition ticking (step : Z) : nat -> time_point_t := fun i => Z.of_nat i * step.

(** A bar of 4 steps built at tick 0, and an environment whose clock
    advances by a quarter of a second per reading. *)
Definition pb4 : ProgressBar :=
  mk_ProgressBar (mk_Chronometer 0) (mk_Chronometer 0) DEFAULT_MIN_TIME cerr "" 40 0 4.
Definition w_slow : World := mk_World (ticking 250000000) 2 silent.
(** The same with a clock that advances by a microsecond per reading. *)
Definition w_fast : World := mk_World (ticking 1000) 2 silent.

(** A clock given by its first readings. *)
Definition readings (l : list time_point_t) (later : time_point_t)
  : nat -> time_point_t :=
  fun i => nth i l later.

(** An environment read half a second after tick 0, whose clock then
    advances by a microsecond per reading. *)
Definition w_pause : World :=
  mk_World
    (readings [0; 0; 500000000; 500001000; 500002000; 500003000; 500004000]
       500005000)
    2 silent.

Definition ex4 : M ProgressBar :=
  pb <- new 4 ;;
  let pb := set_bar_size 10 pb in
  pb <- update 1 true pb ;;
  pb <- update 1 true pb ;;
  pb <- update 1 true pb ;;
  update 1 true pb.

(** A sequence of [update] calls, each with its own arguments. *)
Fixpoint update_all (calls : list (Z * bool)) (pb : ProgressBar) : M ProgressBar :=
  match calls with
  | [] => ret pb
  | (steps, force) :: rest => pb <- update steps force pb ;; update_all rest pb
  end.

(** ** Notions used by the statements *)

(** The step count [update] stores. *)
Definition clamp_step (pb : ProgressBar) (elapsed_steps : Z) : Z :=
  if uadd (current_step_ pb) elapsed_steps >? total_steps_ pb
  then total_steps_ pb
  else uadd (current_step_ pb) elapsed_steps.

(** The test of [update]: is a repaint due at the next clock reading? *)
Definition repaint_due (pb : ProgressBar) (force : bool) (w : World) : bool :=
  (min_time_per_update_ pb
     <? elapsed_seconds (start_ (refresh_ pb)) (clock w (reads w)))%float
  || force.

(** The text [update_display] builds, for the elapsed time [t]. *)
Definition header (pb : ProgressBar) : string :=
  CR ++ prefix_ pb ++ " " ++ setw 5 (fixed1 (progress_of pb * 100)%float) ++ "%".

Definition line_of (pb : ProgressBar) (t : float) : option string :=
  match print_bar pb (header pb) (progress_of pb) with
  | Some bar =>
      Some (bar ++ " [" ++ fixed1 t ++ "s<"
                ++ fixed1 (t / progress_of pb - t)%float ++ "s]")
  | None => None
  end.

(** One repaint of stream [r] between two environments: the line is
    written, the stream is flushed right after, and nothing else changes but
    the number of clock readings. *)
Definition painted (r : stream_ref) (line : string) (w w' : World) : Prop :=
  clock w' = clock w /\
  reads w' = S (reads w) /\
  forall r', streams w' r' =
    if Nat.eqb r' r
    then mk_ostream (os_flags (streams w r))
                    (os_log (streams w r) ++ [Wrote line; Flushed])
    else streams w r'.

(** Number of lines written to a stream so far. *)
Definition is_write (ev : os_event) : bool :=
  match ev with Wrote _ => true | Flushed => false end.

Definition repaints (w : World) (r : stream_ref) : nat :=
  List.length (List.filter is_write (os_log (streams w r))).

(** The last line written to a stream. *)
Definition last_line (w : World) (r : stream_ref) : option string :=
  match List.filter is_write (rev (os_log (streams w r))) with
  | Wrote s :: _ => Some s
  | _ => None
  end.

(** [n] full blocks, and the interior of a bar: the full blocks, the
    gradation glyph and the padding. *)
Definition blocks (n : nat) : string := put_blocks n "".

Definition bar_interior (filled : nat) (idx : Z) (padding : nat) : string :=
  blocks filled ++ get_fill_value idx ++ spaces padding.

(** A repaint happened on stream [r] between two environments. *)
Definition repainted (r : stream_ref) (w w' : World) : Prop :=
  exists line,
    os_log (streams w' r) = (os_log (streams w r) ++ [Wrote line; Flushed])%list.

(** [current_step <= total_steps], the fields being [unsigned]. *)
Definition invariant (pb : ProgressBar) : Prop :=
  current_step_ pb <= total_steps_ pb.

Definition well_formed (pb : ProgressBar) : Prop :=
  is_uint (current_step_ pb) /\ is_uint (total_steps_ pb) /\ is_uint (bar_size_ pb).

(** The text starts with the 100 percent field. *)
Definition shows_100 (pb : ProgressBar) (line : string) : Prop :=
  exists rest, line = CR ++ prefix_ pb ++ " 100.0%" ++ rest.

(** A bar that can be drawn: the invariant holds, the total is a positive
    [unsigned] and the width fits an [int]. *)
Definition drawable (pb : ProgressBar) : Prop :=
  0 <= current_step_ pb <= total_steps_ pb /\
  0 < total_steps_ pb < UINT_MODULUS /\
  0 <= bar_size_ pb <= INT_MAX.

(** A bar standing at 29 of 100 steps. *)
Definition pb29 : ProgressBar :=
  mk_ProgressBar (mk_Chronometer 0) (mk_Chronometer 0) DEFAULT_MIN_TIME cerr "" 40 29 100.

(** ** Notions for the rounding of binary64 *)

(** Where the quotient N/D lies between two integers. *)
Definition loc_of (N D : Z) : location :=
  if N mod D =? 0 then loc_Exact else loc_Inexact (2 * (N mod D) ?= D).

(** Rounding to nearest, ties to even, of the quotient N/D. *)
Definition rne (N D : Z) : Z := round_nearest_even (N / D) (loc_of N D).

(** * Facts about binary64 arithmetic *)

Section Binary64.

Lemma digits2_pos_log2 (p : positive) :
  Zpos (digits2_pos p) = Z.log2 (Zpos p) + 1.
Proof.
  induction p as [p IH | p IH | ]; cbn [digits2_pos].
  - rewrite Pos2Z.inj_succ, IH.
    change (Zpos p~1) with (2 * Zpos p + 1).
    rewrite Z.log2_succ_double by lia. lia.
  - rewrite Pos2Z.inj_succ, IH.
    change (Zpos p~0) with (2 * Zpos p).
    rewrite Z.log2_double by lia. lia.
  - reflexivity.
Qed.

Lemma digits2_pos_bounds (p : positive) :
  2 ^ (Zpos (digits2_pos p) - 1) <= Zpos p < 2 ^ Zpos (digits2_pos p).
Proof.
  rewrite digits2_pos_log2.
  replace (Z.log2 (Zpos p) + 1 - 1) with (Z.log2 (Zpos p)) by lia.
  pose proof (Z.log2_spec (Zpos p) ltac:(lia)) as H.
  unfold Z.succ in H. exact H.
Qed.

Lemma iter_xO_mul (p : positive) (k : positive) :
  Zpos (Pos.iter xO p k) = Zpos p * 2 ^ Zpos k.
Proof.
  induction k as [ | k IH] using Pos.peano_ind.
  - cbn [Pos.iter]. lia.
  - rewrite Pos.iter_succ, Pos2Z.inj_succ, Z.pow_succ_r by lia.
    change (Zpos (Pos.iter xO p k)~0) with (2 * Zpos (Pos.iter xO p k)).
    rewrite IH. lia.
Qed.

Lemma bounded_inv (m : positive) (e : Z) :
  bounded prec emax m e = true ->
  fexp prec emax (Zpos (digits2_pos m) + e) = e /\ e <= emax - prec.
Proof.
  unfold bounded, canonical_mantissa. intros H.
  apply andb_true_iff in H. destruct H as [H1 H2].
  apply Z.eqb_eq in H1. apply Z.leb_le in H2. auto.
Qed.

(** Rounding a value that is already representable gives it back. *)
Lemma round_canonical (s : bool) (m : positive) (e : Z) :
  bounded prec emax m e = true ->
  binary_round_aux prec emax s (Zpos m) e loc_Exact = S754_finite s m e.
Proof.
  intros Hb. destruct (bounded_inv _ _ Hb) as [Hc He].
  unfold binary_round_aux, shr_fexp.
  cbn [Zdigits2 shr_record_of_loc].
  rewrite Hc, Z.sub_diag.
  cbn [shr shr_m shr_r shr_s loc_of_shr_record round_nearest_even Zdigits2 shr_record_of_loc].
  rewrite Hc, Z.sub_diag.
  cbn [shr shr_m].
  apply Z.leb_le in He. rewrite He. reflexivity.
Qed.

Lemma fexp_eq (x : Z) : fexp prec emax x = Z.max (x - 53) (- 1074).
Proof. reflexivity. Qed.

Lemma bounded_intro (m : positive) (e : Z) :
  Z.max (Zpos (digits2_pos m) + e - 53) (- 1074) = e -> e <= 971 ->
  bounded prec emax m e = true.
Proof.
  intros H1 H2. unfold bounded, canonical_mantissa.
  rewrite fexp_eq, H1, Z.eqb_refl. apply Z.leb_le. exact H2.
Qed.

(** The conversion of a positive integer below [2^53] is exact. *)
Lemma Prim2SF_double_of_uint (n : Z) :
  0 < n < 2 ^ 53 ->
  exists m e,
    Prim2SF (double_of_uint n) = S754_finite false m e /\
    bounded prec emax m e = true /\
    e <= 0 /\ Zpos m = n * 2 ^ (- e).
Proof.
  intros Hn. unfold double_of_uint.
  rewrite of_uint63_spec, of_Z_spec.
  rewrite Z.mod_small by (change wB with (2 ^ 63); lia).
  destruct n as [ | p | p]; try lia.
  cbn [binary_normalize]. unfold binary_round.
  pose proof (digits2_pos_bounds p) as Hd.
  set (d := Zpos (digits2_pos p)) in *.
  assert (Hd53 : 1 <= d <= 53).
  { split; [subst d; lia | ].
    destruct (Z_le_gt_dec d 53) as [ | Hgt]; [assumption | exfalso].
    assert (2 ^ 53 <= 2 ^ (d - 1)) by (apply Z.pow_le_mono_r; lia). lia. }
  rewrite fexp_eq. unfold shl_align.
  replace (Z.max (d + 0 - 53) (- 1074) - 0) with (d - 53) by lia.
  destruct (d - 53) as [ | k | k] eqn:Hk; try lia.
  - exists p, 0. repeat split; try lia.
    + apply round_canonical, bounded_intro; fold d; lia.
    + apply bounded_intro; fold d; lia.
  - exists (Pos.iter xO p k), (Zneg k).
    assert (Hb : bounded prec emax (Pos.iter xO p k) (Zneg k) = true).
    { apply bounded_intro; [ | lia].
      rewrite digits2_pos_log2, iter_xO_mul, Z.log2_mul_pow2 by lia.
      pose proof (digits2_pos_log2 p). fold d in H. lia. }
    repeat split; try lia.
    + replace (Z.max (d + 0 - 53) (- 1074)) with (Zneg k) by lia.
      apply round_canonical, Hb.
    + exact Hb.
    + rewrite iter_xO_mul. reflexivity.
Qed.

Lemma shiftl_scaled (n e : Z) :
  e <= 0 -> Z.shiftl (n * 2 ^ (- e)) e = n.
Proof.
  intros He. replace e with (- (- e)) at 2 by lia.
  rewrite <- Z.shiftr_opp_r, Z.opp_involutive, Z.shiftr_div_pow2 by lia.
  apply Z.div_mul. apply Z.pow_nonzero; lia.
Qed.

Lemma double_to_int_of_uint (n : Z) :
  0 <= n <= INT_MAX -> double_to_int (double_of_uint n) = Some n.
Proof.
  intros Hn. unfold INT_MAX in Hn.
  destruct (Z.eq_dec n 0) as [-> | Hnz]; [vm_compute; reflexivity | ].
  destruct (Prim2SF_double_of_uint n ltac:(lia)) as (m & e & HP & _ & He & Hm).
  unfold double_to_int. rewrite HP. cbn [SFtrunc cond_Zopp].
  rewrite Hm, shiftl_scaled by assumption.
  unfold checked_int, in_int_range, INT_MIN, INT_MAX.
  replace ((- 2 ^ 31 <=? n) && (n <=? 2 ^ 31 - 1)) with true; [reflexivity | ].
  symmetry. apply andb_true_iff. split; apply Z.leb_le; lia.
Qed.

Lemma d_round_of_uint (n : Z) :
  0 <= n < 2 ^ 53 -> d_round (double_of_uint n) = double_of_uint n.
Proof.
  intros Hn.
  destruct (Z.eq_dec n 0) as [-> | Hnz]; [vm_compute; reflexivity | ].
  destruct (Prim2SF_double_of_uint n ltac:(lia)) as (m & e & HP & _ & He & Hm).
  unfold d_round. rewrite HP.
  destruct (0 <=? e) eqn:H0; [reflexivity | ].
  apply Z.leb_gt in H0.
  rewrite Hm, shiftl_scaled by assumption.
  rewrite Z.mul_pow2_bits_low by lia. reflexivity.
Qed.

Lemma d_floor_of_uint (n : Z) :
  0 <= n < 2 ^ 53 -> d_floor (double_of_uint n) = double_of_uint n.
Proof.
  intros Hn.
  destruct (Z.eq_dec n 0) as [-> | Hnz]; [vm_compute; reflexivity | ].
  destruct (Prim2SF_double_of_uint n ltac:(lia)) as (m & e & HP & _ & He & Hm).
  unfold d_floor. rewrite HP.
  destruct (0 <=? e) eqn:H0; [reflexivity | ].
  rewrite Hm, shiftl_scaled by assumption. reflexivity.
Qed.

(** Multiplying by [1.0] is exact. *)
Lemma mul_one_l (x : float) : (1 * x)%float = x.
Proof.
  apply Prim2SF_inj. rewrite FloatAxioms.mul_spec.
  pose proof (Prim2SF_valid x) as Hv.
  change (Prim2SF 1) with (S754_finite false 4503599627370496 (-52)).
  destruct (Prim2SF x) as [s | s | | s m e]; try reflexivity.
  cbn [valid_binary] in Hv. destruct (bounded_inv _ _ Hv) as [Hc He].
  unfold SF64mul, SFmul. cbn [xorb].
  unfold binary_round_aux, shr_fexp.
  assert (Hdig : Zdigits2 (Zpos (4503599627370496 * m)) = Zpos (digits2_pos m) + 52).
  { cbn [Zdigits2]. rewrite !digits2_pos_log2.
    replace (Zpos (4503599627370496 * m)) with (Zpos m * 2 ^ 52) by lia.
    rewrite Z.log2_mul_pow2 by lia. lia. }
  rewrite Hdig.
  replace (Zpos (digits2_pos m) + 52 + (-52 + e)) with (Zpos (digits2_pos m) + e) by lia.
  rewrite Hc.
  replace (e - (-52 + e)) with 52 by lia.
  cbn [Pos.mul shr_record_of_loc shr iter_pos shr_1 orb shr_m shr_r shr_s
       loc_of_shr_record round_nearest_even Zdigits2].
  replace (-52 + e + 52) with e by lia.
  rewrite Hc, Z.sub_diag. cbn [shr shr_m].
  apply Z.leb_le in He. rewrite He. reflexivity.
Qed.

(** A finite non-zero value divided by itself is [1.0]. *)
Lemma div_self (x : float) (s : bool) (m : positive) (e : Z) :
  Prim2SF x = S754_finite s m e -> (x / x)%float = 1%float.
Proof.
  intros HP. apply Prim2SF_inj. rewrite FloatAxioms.div_spec, HP.
  unfold SF64div, SFdiv, SFdiv_core_binary.
  rewrite (Z.sub_diag (Zdigits2 (Zpos m) + e)), (Z.sub_diag e), xorb_nilpotent.
  change (Z.min (fexp prec emax 0) 0) with (-53). change (0 - -53) with 53.
  cbv beta iota.
  rewrite Z.shiftl_mul_pow2 by lia.
  assert (Hq : Z.div_eucl (Zpos m * 2 ^ 53) (Zpos m) = (2 ^ 53, 0)).
  { pose proof (Z.div_eucl_eq (Zpos m * 2 ^ 53) (Zpos m) ltac:(lia)) as Heq.
    pose proof (Z.mod_pos_bound (Zpos m * 2 ^ 53) (Zpos m) ltac:(lia)) as Hr.
    unfold Z.modulo in Hr.
    destruct (Z.div_eucl (Zpos m * 2 ^ 53) (Zpos m)) as [q r].
    assert (q = 2 ^ 53) by nia. subst q.
    f_equal. lia. }
  rewrite Hq.
  replace (new_location (Zpos m) 0) with loc_Exact.
  - vm_compute. reflexivity.
  - unfold new_location. destruct (Z.even (Zpos m)); reflexivity.
Qed.

Lemma div_self_of_uint (n : Z) :
  0 < n < 2 ^ 53 -> (double_of_uint n / double_of_uint n)%float = 1%float.
Proof.
  intros Hn.
  destruct (Prim2SF_double_of_uint n Hn) as (m & e & HP & _).
  exact (div_self _ _ _ _ HP).
Qed.

End Binary64.

(** * The operations, step by step *)

Section Operations.

Lemma upd_stream_same (r : stream_ref) (o : ostream) (f : stream_ref -> ostream) :
  upd_stream r o f r = o.
Proof. unfold upd_stream. rewrite Nat.eqb_refl. reflexivity. Qed.

Lemma upd_stream_other (r r' : stream_ref) (o : ostream) (f : stream_ref -> ostream) :
  r' <> r -> upd_stream r o f r' = f r'.
Proof.
  intros H. unfold upd_stream. apply Nat.eqb_neq in H. rewrite H. reflexivity.
Qed.

(** [update_display] writes exactly the line [line_of] computes, when the
    bar can be drawn. *)
Lemma update_display_inv (pb : ProgressBar) (w w' : World) (u : unit) :
  update_display pb w = Some (u, w') ->
  exists line,
    line_of pb (elapsed_seconds (start_ (chronometer_ pb)) (clock w (reads w))) = Some line /\
    painted (os_ pb) line w w'.
Proof.
  unfold update_display, line_of, header, bind, lift, os_get_flags, Chrono.peek,
    now, ret, os_write, os_flush, os_set_flags, modify_stream.
  cbn [clock reads streams].
  destruct (print_bar pb _ (progress_of pb)) as [bar | ]; [ | discriminate].
  intros H. injection H as _ <-.
  eexists. split; [reflexivity | ].
  unfold painted. cbn [clock reads streams]. repeat split.
  intros r'. unfold upd_stream.
  destruct (Nat.eqb r' (os_ pb)) eqn:E.
  - rewrite !Nat.eqb_refl. cbn [os_flags os_log].
    rewrite <- app_assoc. reflexivity.
  - reflexivity.
Qed.

Lemma update_display_defined (pb : ProgressBar) (w : World) (line : string) :
  line_of pb (elapsed_seconds (start_ (chronometer_ pb)) (clock w (reads w))) = Some line ->
  exists w', update_display pb w = Some (tt, w') /\ painted (os_ pb) line w w'.
Proof.
  intros Hl.
  destruct (update_display pb w) as [[[] w'] | ] eqn:E.
  - exists w'. split; [reflexivity | ].
    destruct (update_display_inv _ _ _ _ E) as (line' & Hl' & Hp).
    rewrite Hl in Hl'. injection Hl' as <-. exact Hp.
  - exfalso. revert E Hl.
    unfold update_display, line_of, header, bind, lift, os_get_flags, Chrono.peek,
      now, ret, os_write, os_flush, os_set_flags, modify_stream.
    cbn [clock reads streams].
    destruct (print_bar pb _ (progress_of pb)); discriminate.
Qed.

(** The two branches of [update]. *)
Lemma update_skip (steps : Z) (force : bool) (pb : ProgressBar) (w : World) :
  repaint_due pb force w = false ->
  update steps force pb w =
    Some (with_current_step pb (clamp_step pb steps),
          mk_World (clock w) (S (reads w)) (streams w)).
Proof.
  unfold repaint_due, update, clamp_step, time_since_refresh, Chrono.peek, bind, now, ret.
  intros H.
  destruct (uadd (current_step_ pb) steps >? total_steps_ pb);
    cbn [refresh_ min_time_per_update_ with_current_step clock reads streams];
    rewrite H; reflexivity.
Qed.

Lemma update_paint (steps : Z) (force : bool) (pb : ProgressBar) (w : World) :
  repaint_due pb force w = true ->
  update steps force pb w =
    let pb' := with_refresh (with_current_step pb (clamp_step pb steps))
                 (mk_Chronometer (clock w (S (reads w)))) in
    match update_display pb' (mk_World (clock w) (S (S (reads w))) (streams w)) with
    | Some (_, w') => Some (pb', w')
    | None => None
    end.
Proof.
  unfold repaint_due, update, clamp_step, time_since_refresh, reset_refresh_timer,
    Chrono.peek, Chrono.reset, bind, now, ret.
  intros H.
  destruct (uadd (current_step_ pb) steps >? total_steps_ pb);
    cbn [refresh_ min_time_per_update_ with_current_step clock reads streams snd];
    rewrite H;
    cbn [snd with_refresh with_current_step clock reads streams chronometer_ refresh_
         min_time_per_update_ os_ prefix_ bar_size_ current_step_ total_steps_];
    match goal with |- context [update_display ?p ?v] =>
      destruct (update_display p v) as [[[] ?] | ] end; reflexivity.
Qed.

(** What every defined call of [update] does to the object. *)
Lemma update_inv (steps : Z) (force : bool) (pb pb' : ProgressBar) (w w' : World) :
  update steps force pb w = Some (pb', w') ->
  (repaint_due pb force w = false /\
   pb' = with_current_step pb (clamp_step pb steps) /\
   w' = mk_World (clock w) (S (reads w)) (streams w))
  \/
  (repaint_due pb force w = true /\
   pb' = with_refresh (with_current_step pb (clamp_step pb steps))
           (mk_Chronometer (clock w (S (reads w)))) /\
   exists line,
     line_of pb' (elapsed_seconds (start_ (chronometer_ pb))
                    (clock w (S (S (reads w))))) = Some line /\
     painted (os_ pb) line (mk_World (clock w) (S (S (reads w))) (streams w)) w').
Proof.
  intros H. destruct (repaint_due pb force w) eqn:Hd.
  - right. rewrite update_paint in H by assumption. cbv zeta in H.
    destruct (update_display _ _) as [[u w1] | ] eqn:E; [ | discriminate].
    injection H as <- <-.
    destruct (update_display_inv _ _ _ _ E) as (line & Hl & Hp).
    split; [reflexivity | ]. split; [reflexivity | ].
    exists line. split; assumption.
  - left. rewrite update_skip in H by assumption.
    injection H as <- <-. auto.
Qed.

End Operations.

(** * The text of the bar *)

Section Text.

Lemma append_assoc (s1 s2 s3 : string) : (s1 ++ s2) ++ s3 = s1 ++ (s2 ++ s3).
Proof. induction s1 as [ | c s1 IH]; cbn; [reflexivity | now rewrite IH]. Qed.

Lemma append_nil_r (s : string) : s ++ "" = s.
Proof. induction s as [ | c s IH]; cbn; [reflexivity | now rewrite IH]. Qed.

Lemma glyphs_app (s1 s2 : string) : glyphs (s1 ++ s2) = (glyphs s1 + glyphs s2)%nat.
Proof.
  induction s1 as [ | c s1 IH]; cbn [append glyphs]; [reflexivity | ].
  destruct ((128 <=? Z.of_nat (nat_of_ascii c)) && (Z.of_nat (nat_of_ascii c) <? 192));
    rewrite IH; reflexivity.
Qed.

Lemma put_blocks_app (n : nat) (ss : string) : put_blocks n ss = ss ++ blocks n.
Proof.
  unfold blocks. revert ss.
  induction n as [ | n IH]; intros ss; cbn [put_blocks].
  - now rewrite append_nil_r.
  - rewrite IH, (IH ("" ++ FULL_BLOCK)), append_assoc. reflexivity.
Qed.

Lemma blocks_S (n : nat) : blocks (S n) = FULL_BLOCK ++ blocks n.
Proof. unfold blocks at 1. cbn [put_blocks]. now rewrite put_blocks_app. Qed.

Lemma glyphs_blocks (n : nat) : glyphs (blocks n) = n.
Proof.
  induction n as [ | n IH]; [reflexivity | ].
  rewrite blocks_S, glyphs_app, IH. reflexivity.
Qed.

Lemma glyphs_spaces (n : nat) : glyphs (spaces n) = n.
Proof. induction n as [ | n IH]; cbn; [reflexivity | now rewrite IH]. Qed.

Lemma glyphs_get_fill_value (idx : Z) : glyphs (get_fill_value idx) = 1%nat.
Proof.
  destruct idx as [ | p | p]; try reflexivity.
  do 3 (destruct p as [p | p | ]; try reflexivity).
Qed.

Lemma glyphs_bar_interior (filled : nat) (idx : Z) (padding : nat) :
  glyphs (bar_interior filled idx padding) = (filled + 1 + padding)%nat.
Proof.
  unfold bar_interior.
  rewrite !glyphs_app, glyphs_blocks, glyphs_get_fill_value, glyphs_spaces. lia.
Qed.

(** The shape of what [print_bar] appends. *)
Lemma print_bar_shape (pb : ProgressBar) (ss out : string) (p : float) :
  print_bar pb ss p = Some out ->
  exists nf idx,
    num_filled_of p (bar_size_ pb) = Some nf /\
    last_fill_idx p = Some idx /\
    out = ss ++ "|"
          ++ bar_interior (Z.to_nat nf) idx
               (if uadd nf 1 <? bar_size_ pb
                then Z.to_nat (bar_size_ pb - uadd nf 1) else 0)
          ++ "|".
Proof.
  unfold print_bar.
  destruct (num_filled_of p (bar_size_ pb)) as [nf | ]; [ | discriminate].
  destruct (last_fill_idx p) as [idx | ]; [ | discriminate].
  intros H. injection H as <-. exists nf, idx.
  split; [reflexivity | ]. split; [reflexivity | ].
  unfold bar_interior. rewrite put_blocks_app.
  destruct (uadd nf 1 <? bar_size_ pb); cbn [spaces];
    rewrite ?append_nil_r, ?append_assoc; reflexivity.
Qed.

Lemma print_bar_defined (pb : ProgressBar) (ss : string) (p : float) (nf idx : Z) :
  num_filled_of p (bar_size_ pb) = Some nf ->
  last_fill_idx p = Some idx ->
  print_bar pb ss p =
    Some (ss ++ "|"
          ++ bar_interior (Z.to_nat nf) idx
               (if uadd nf 1 <? bar_size_ pb
                then Z.to_nat (bar_size_ pb - uadd nf 1) else 0)
          ++ "|").
Proof.
  intros H1 H2.
  destruct (print_bar pb ss p) as [out | ] eqn:E.
  - destruct (print_bar_shape _ _ _ _ E) as (nf' & idx' & H1' & H2' & ->).
    rewrite H1 in H1'. rewrite H2 in H2'.
    injection H1' as <-. injection H2' as <-. reflexivity.
  - unfold print_bar in E. rewrite H1, H2 in E. discriminate.
Qed.

End Text.

(** * The bar at 100 percent *)

Section Full.

Lemma wrap_small (z : Z) : is_uint z -> wrap z = z.
Proof. unfold is_uint, wrap. intros H. apply Z.mod_small. exact H. Qed.

Lemma progress_full (pb : ProgressBar) :
  0 < total_steps_ pb < UINT_MODULUS ->
  current_step_ pb = total_steps_ pb ->
  progress_of pb = 1%float.
Proof.
  intros Ht Hc. unfold progress_of. rewrite Hc.
  apply div_self_of_uint. unfold UINT_MODULUS in Ht. lia.
Qed.

Lemma num_filled_full (bar_size : Z) :
  0 <= bar_size <= INT_MAX -> num_filled_of 1 bar_size = Some bar_size.
Proof.
  intros Hb. unfold num_filled_of.
  rewrite mul_one_l, d_round_of_uint, double_to_int_of_uint;
    unfold INT_MAX in *; try lia.
  rewrite wrap_small; [reflexivity | unfold is_uint, UINT_MODULUS; lia].
Qed.

Lemma last_fill_idx_full : last_fill_idx 1 = Some 0.
Proof. vm_compute. reflexivity. Qed.

(** At progress 1 the bar is [bar_size_] full blocks followed by the
    gradation glyph of index 0, without padding. *)
Lemma print_bar_full (pb : ProgressBar) (ss : string) :
  0 <= bar_size_ pb <= INT_MAX ->
  print_bar pb ss 1 =
    Some (ss ++ "|" ++ bar_interior (Z.to_nat (bar_size_ pb)) 0 0 ++ "|").
Proof.
  intros Hb.
  rewrite (print_bar_defined pb ss 1 (bar_size_ pb) 0
             (num_filled_full _ Hb) last_fill_idx_full).
  unfold uadd. rewrite wrap_small
    by (unfold is_uint, UINT_MODULUS; unfold INT_MAX in Hb; lia).
  replace (bar_size_ pb + 1 <? bar_size_ pb) with false
    by (symmetry; apply Z.ltb_ge; lia).
  reflexivity.
Qed.

Lemma line_of_full (pb : ProgressBar) (t : float) :
  0 < total_steps_ pb < UINT_MODULUS ->
  current_step_ pb = total_steps_ pb ->
  0 <= bar_size_ pb <= INT_MAX ->
  exists line, line_of pb t = Some line /\ shows_100 pb line.
Proof.
  intros Ht Hc Hb. unfold line_of, header.
  rewrite (progress_full pb Ht Hc).
  change (setw 5 (fixed1 (1 * 100)%float)) with "100.0".
  rewrite print_bar_full by assumption.
  eexists. split; [reflexivity | ].
  unfold shows_100. eexists.
  rewrite !append_assoc. reflexivity.
Qed.

Lemma clamp_step_fill (pb : ProgressBar) :
  is_uint (total_steps_ pb) ->
  clamp_step pb (usub (total_steps_ pb) (current_step_ pb)) = total_steps_ pb.
Proof.
  intros Ht. unfold clamp_step, uadd, usub, wrap.
  rewrite Zplus_mod_idemp_r.
  replace (current_step_ pb + (total_steps_ pb - current_step_ pb))
    with (total_steps_ pb) by lia.
  rewrite Z.mod_small by exact Ht.
  destruct (total_steps_ pb >? total_steps_ pb); reflexivity.
Qed.

(** [fill] always succeeds in repainting a drawable bar. *)
Lemma fill_spec (pb : ProgressBar) (w : World) :
  0 < total_steps_ pb < UINT_MODULUS ->
  0 <= bar_size_ pb <= INT_MAX ->
  exists pb' w' line,
    fill pb w = Some (pb', w') /\
    pb' = with_refresh (with_current_step pb (total_steps_ pb))
            (mk_Chronometer (clock w (S (reads w)))) /\
    shows_100 pb line /\
    painted (os_ pb) line (mk_World (clock w) (S (S (reads w))) (streams w)) w'.
Proof.
  intros Ht Hb. unfold fill.
  rewrite update_paint by (unfold repaint_due; apply orb_true_r).
  rewrite clamp_step_fill by (unfold is_uint; lia).
  cbv zeta.
  set (pb' := with_refresh (with_current_step pb (total_steps_ pb)) _).
  set (w2 := mk_World _ _ _).
  destruct (line_of_full pb'
              (elapsed_seconds (start_ (chronometer_ pb')) (clock w2 (reads w2))))
    as (line & Hl & Hs); try assumption; try reflexivity.
  destruct (update_display_defined pb' w2 line Hl) as (w' & Hu & Hp).
  rewrite Hu. exists pb', w', line. repeat split; try assumption; apply Hp.
Qed.

End Full.

(** * Repaints and the environment *)

Section Repaints.

Lemma painted_log (r : stream_ref) (line : string) (w0 w' : World) :
  painted r line w0 w' ->
  os_log (streams w' r) = (os_log (streams w0 r) ++ [Wrote line; Flushed])%list.
Proof.
  intros (_ & _ & H). rewrite (H r), Nat.eqb_refl. reflexivity.
Qed.

Lemma painted_flags (r : stream_ref) (line : string) (w0 w' : World) :
  painted r line w0 w' ->
  forall r', os_flags (streams w' r') = os_flags (streams w0 r').
Proof.
  intros (_ & _ & H) r'. rewrite (H r').
  destruct (Nat.eqb r' r) eqn:E; [ | reflexivity].
  apply Nat.eqb_eq in E. subst r'. reflexivity.
Qed.

Lemma painted_other (r : stream_ref) (line : string) (w0 w' : World) :
  painted r line w0 w' ->
  forall r', r' <> r -> streams w' r' = streams w0 r'.
Proof.
  intros (_ & _ & H) r' Hne. rewrite (H r').
  apply Nat.eqb_neq in Hne. rewrite Hne. reflexivity.
Qed.

Lemma painted_repaints (r : stream_ref) (line : string) (w0 w' : World) :
  painted r line w0 w' -> repaints w' r = S (repaints w0 r).
Proof.
  intros H. unfold repaints. rewrite (painted_log _ _ _ _ H).
  rewrite filter_app, length_app. cbn. lia.
Qed.

(** Number of repaints one defined call of [update] makes. *)
Lemma update_repaints (steps : Z) (force : bool) (pb pb' : ProgressBar) (w w' : World) :
  update steps force pb w = Some (pb', w') ->
  repaints w' (os_ pb) =
    (repaints w (os_ pb) + (if repaint_due pb force w then 1 else 0))%nat
  /\ os_ pb' = os_ pb.
Proof.
  intros H.
  destruct (update_inv _ _ _ _ _ _ H)
    as [(Hd & -> & ->) | (Hd & -> & line & _ & Hp)]; rewrite Hd.
  - split; [ | reflexivity]. unfold repaints. cbn [streams]. lia.
  - split; [ | reflexivity]. rewrite (painted_repaints _ _ _ _ Hp).
    unfold repaints. cbn [streams]. lia.
Qed.

(** No time on the refresh stopwatch: no repaint is due, with the default
    interval. *)
Lemma not_due_at_once (pb : ProgressBar) (w : World) :
  min_time_per_update_ pb = DEFAULT_MIN_TIME ->
  clock w (reads w) = start_ (refresh_ pb) ->
  repaint_due pb false w = false.
Proof.
  intros Hm Hc. unfold repaint_due, elapsed_seconds.
  rewrite Hm, Hc, Z.sub_diag. vm_compute. reflexivity.
Qed.

End Repaints.

(** * Step counting *)

Section Steps.

Lemma clamp_step_le (pb : ProgressBar) (steps : Z) :
  clamp_step pb steps <= total_steps_ pb.
Proof.
  unfold clamp_step.
  destruct (uadd (current_step_ pb) steps >? total_steps_ pb) eqn:E; [lia | ].
  rewrite Z.gtb_ltb in E. apply Z.ltb_ge in E. exact E.
Qed.

Lemma clamp_step_uint (pb : ProgressBar) (steps : Z) :
  is_uint (total_steps_ pb) -> is_uint (clamp_step pb steps).
Proof.
  intros Ht. unfold clamp_step.
  destruct (uadd (current_step_ pb) steps >? total_steps_ pb); [exact Ht | ].
  unfold is_uint, uadd, wrap. apply Z.mod_pos_bound. reflexivity.
Qed.

(** Without wrap-around the stored count is the clamped sum. *)
Lemma clamp_step_no_overflow (pb : ProgressBar) (steps : Z) :
  0 <= current_step_ pb -> 0 <= steps ->
  current_step_ pb + steps < UINT_MODULUS ->
  clamp_step pb steps = Z.min (current_step_ pb + steps) (total_steps_ pb).
Proof.
  intros Hc Hs Hlt. unfold clamp_step, uadd.
  rewrite wrap_small by (unfold is_uint; lia).
  destruct (current_step_ pb + steps >? total_steps_ pb) eqn:E.
  - rewrite Z.gtb_ltb in E. apply Z.ltb_lt in E. lia.
  - rewrite Z.gtb_ltb in E. apply Z.ltb_ge in E. lia.
Qed.

Lemma update_current_step (steps : Z) (force : bool) (pb pb' : ProgressBar) (w w' : World) :
  update steps force pb w = Some (pb', w') ->
  current_step_ pb' = clamp_step pb steps /\ total_steps_ pb' = total_steps_ pb.
Proof.
  intros H.
  destruct (update_inv _ _ _ _ _ _ H) as [(_ & -> & _) | (_ & -> & _)];
    split; reflexivity.
Qed.

(** Every defined [update] establishes the invariant, whatever the state
    before and whatever the step count. *)
Lemma update_invariant (steps : Z) (force : bool) (pb pb' : ProgressBar) (w w' : World) :
  update steps force pb w = Some (pb', w') -> invariant pb'.
Proof.
  intros H. destruct (update_current_step _ _ _ _ _ _ H) as [Hc Ht].
  unfold invariant. rewrite Hc, Ht. apply clamp_step_le.
Qed.

Lemma new_invariant (total_steps : Z) (pb : ProgressBar) (w w' : World) :
  0 <= total_steps -> new total_steps w = Some (pb, w') -> invariant pb.
Proof.
  intros Ht H. unfold new, Chrono.new, bind, now, ret in H.
  injection H as <- _. unfold invariant. cbn. exact Ht.
Qed.

Lemma restart_invariant (pb pb' : ProgressBar) (w w' : World) :
  invariant pb -> restart pb w = Some (pb', w') -> invariant pb'.
Proof.
  intros Hi H. unfold restart, Chrono.reset, bind, now, ret in H.
  injection H as <- _. exact Hi.
Qed.

(** The operations of the public interface. *)
Inductive operation : Type :=
  | OpUpdate (steps : Z) (force : bool)
  | OpUpdateOne
  | OpFill
  | OpRestart
  | OpSetOstream (os : stream_ref)
  | OpSetPrefix (s : string)
  | OpSetBarSize (size : Z)
  | OpSetMinUpdateTime (time : float).

Definition run (o : operation) (pb : ProgressBar) : M ProgressBar :=
  match o with
  | OpUpdate steps force => update steps force pb
  | OpUpdateOne => update_one pb
  | OpFill => fill pb
  | OpRestart => restart pb
  | OpSetOstream os => ret (set_ostream os pb)
  | OpSetPrefix s => ret (set_prefix s pb)
  | OpSetBarSize size => ret (set_bar_size size pb)
  | OpSetMinUpdateTime time => ret (set_min_update_time time pb)
  end.

(** The invariant holds after every operation. *)
Lemma run_invariant (o : operation) (pb pb' : ProgressBar) (w w' : World) :
  invariant pb -> run o pb w = Some (pb', w') -> invariant pb'.
Proof.
  intros Hi H. destruct o; cbn [run] in H.
  - exact (update_invariant _ _ _ _ _ _ H).
  - exact (update_invariant _ _ _ _ _ _ H).
  - exact (update_invariant _ _ _ _ _ _ H).
  - exact (restart_invariant _ _ _ _ Hi H).
  - injection H as <- _. exact Hi.
  - injection H as <- _. exact Hi.
  - injection H as <- _. exact Hi.
  - injection H as <- _. exact Hi.
Qed.

(** The sum of the step counts of a sequence of calls. *)
Definition total_requested (calls : list (Z * bool)) : Z :=
  fold_right (fun c acc => fst c + acc) 0 calls.

(** As long as the sum of the requests stays below [2^32], a sequence of
    [update] calls leaves the clamped sum, however the sum is split. *)
Lemma update_all_no_overflow (calls : list (Z * bool)) :
  forall (pb pb' : ProgressBar) (w w' : World),
    Forall (fun c => 0 <= fst c) calls ->
    0 <= current_step_ pb <= total_steps_ pb ->
    current_step_ pb + total_requested calls < UINT_MODULUS ->
    update_all calls pb w = Some (pb', w') ->
    current_step_ pb' =
      Z.min (current_step_ pb + total_requested calls) (total_steps_ pb)
    /\ total_steps_ pb' = total_steps_ pb.
Proof.
  induction calls as [ | [steps force] rest IH]; intros pb pb' w w' Hpos Hc Hsum H.
  - cbn in H. unfold ret in H. injection H as <- _. cbn. split; [lia | reflexivity].
  - cbn [update_all] in H. unfold bind in H.
    destruct (update steps force pb w) as [[pb1 w1] | ] eqn:E; [ | discriminate].
    inversion Hpos as [ | c l Hs Hrest]; subst. cbn [fst] in Hs.
    cbn [total_requested fold_right fst] in *.
    fold (total_requested rest) in *.
    assert (Hr : 0 <= total_requested rest).
    { clear - Hrest. induction Hrest as [ | c l Hc _ IHl]; cbn; [lia | ].
      fold (total_requested l). lia. }
    destruct (update_current_step _ _ _ _ _ _ E) as [Hc1 Ht1].
    rewrite clamp_step_no_overflow in Hc1 by lia.
    assert (Hstep : current_step_ pb' =
                      Z.min (current_step_ pb1 + total_requested rest) (total_steps_ pb1)
                    /\ total_steps_ pb' = total_steps_ pb1)
      by (apply (IH pb1 pb' w1 w' Hrest); [lia | lia | assumption]).
    destruct Hstep as [Hc' Ht'].
    rewrite Hc', Ht', Hc1, Ht1. split; [lia | reflexivity].
Qed.

End Steps.

(** * The claims *)

(** C10: a call of [update], with any arguments and in any state, leaves
    [total_steps_], [bar_size_], [prefix_], [min_time_per_update_], the
    stream reference [os_] and the stopwatch [chronometer_] as they were:
    the object after the call is the object before with, at most, another
    [current_step_] and another [refresh_].  In the environment only the
    stream [os_] can have changed. *)
Theorem update_frame (steps : Z) (force : bool) (pb pb' : ProgressBar) (w w' : World) :
  update steps force pb w = Some (pb', w') ->
  (exists c r,
     pb' = mk_ProgressBar (chronometer_ pb) r (min_time_per_update_ pb)
             (os_ pb) (prefix_ pb) (bar_size_ pb) c (total_steps_ pb))
  /\ forall r', r' <> os_ pb -> streams w' r' = streams w r'.
Proof.
  intros H.
  destruct (update_inv _ _ _ _ _ _ H)
    as [(_ & -> & ->) | (_ & -> & line & _ & Hp)].
  - split; [ | reflexivity].
    exists (clamp_step pb steps), (refresh_ pb). reflexivity.
  - split.
    + exists (clamp_step pb steps), (mk_Chronometer (clock w (S (reads w)))).
      reflexivity.
    + intros r' Hr. exact (painted_other _ _ _ _ Hp r' Hr).
Qed.

Lemma update_frame_witness :
  exists pb' w',
    update 3 true pb4 w_slow = Some (pb', w') /\
    ((exists c r,
        pb' = mk_ProgressBar (chronometer_ pb4) r (min_time_per_update_ pb4)
                (os_ pb4) (prefix_ pb4) (bar_size_ pb4) c (total_steps_ pb4))
     /\ forall r', r' <> os_ pb4 -> streams w' r' = streams w_slow r').
Proof.
  eexists. eexists. split.
  - vm_compute. reflexivity.
  - eapply (update_frame 3 true pb4 _ w_slow _). vm_compute. reflexivity.
Defined.

(** C9: [update(0, force)] leaves [current_step_] as it is and repaints
    whenever [force] is set or the refresh stopwatch shows more than
    [min_time_per_update_]; with [force] set it always repaints. *)
Theorem update_zero_steps (force : bool) (pb pb' : ProgressBar) (w w' : World) :
  is_uint (current_step_ pb) ->
  invariant pb ->
  update 0 force pb w = Some (pb', w') ->
  current_step_ pb' = current_step_ pb
  /\ (repaint_due pb force w = true -> repainted (os_ pb) w w')
  /\ (force = true -> repainted (os_ pb) w w').
Proof.
  intros Hu Hi H.
  assert (Hc : clamp_step pb 0 = current_step_ pb).
  { unfold clamp_step, uadd. rewrite Z.add_0_r, wrap_small by assumption.
    unfold invariant in Hi.
    destruct (current_step_ pb >? total_steps_ pb) eqn:E; [ | reflexivity].
    rewrite Z.gtb_ltb in E. apply Z.ltb_lt in E. lia. }
  assert (Hdue : repaint_due pb force w = true -> repainted (os_ pb) w w').
  { intros Hd.
    destruct (update_inv _ _ _ _ _ _ H)
      as [(Hd' & _) | (_ & _ & line & _ & Hp)]; [congruence | ].
    exists line. exact (painted_log _ _ _ _ Hp). }
  split; [ | split].
  - destruct (update_current_step _ _ _ _ _ _ H) as [-> _]. exact Hc.
  - exact Hdue.
  - intros ->. apply Hdue. unfold repaint_due. apply orb_true_r.
Qed.

Lemma update_zero_steps_witness :
  exists pb' w',
    update 0 true pb4 w_fast = Some (pb', w') /\
    (current_step_ pb' = current_step_ pb4
     /\ (repaint_due pb4 true w_fast = true -> repainted (os_ pb4) w_fast w')
     /\ (true = true -> repainted (os_ pb4) w_fast w')).
Proof.
  eexists. eexists. split.
  - vm_compute. reflexivity.
  - eapply (update_zero_steps true pb4 _ w_fast _).
    + vm_compute. split; [discriminate | reflexivity].
    + vm_compute. discriminate.
    + vm_compute. reflexivity.
Defined.

(** C8: a repaint writes its line, flushes the stream right after, and
    leaves the formatting flags of every stream as they were; no other
    stream is touched. *)
Theorem update_display_flushes_and_keeps_flags (pb : ProgressBar) (w w' : World) (u : unit) :
  update_display pb w = Some (u, w') ->
  repainted (os_ pb) w w'
  /\ (forall r, os_flags (streams w' r) = os_flags (streams w r))
  /\ (forall r, r <> os_ pb -> streams w' r = streams w r).
Proof.
  intros H. destruct (update_display_inv _ _ _ _ H) as (line & _ & Hp).
  split; [ | split].
  - exists line. exact (painted_log _ _ _ _ Hp).
  - exact (painted_flags _ _ _ _ Hp).
  - exact (painted_other _ _ _ _ Hp).
Qed.

Lemma update_display_flushes_and_keeps_flags_witness :
  exists w',
    update_display pb4 w_slow = Some (tt, w') /\
    (repainted (os_ pb4) w_slow w'
     /\ (forall r, os_flags (streams w' r) = os_flags (streams w_slow r))
     /\ (forall r, r <> os_ pb4 -> streams w' r = streams w_slow r)).
Proof.
  eexists. split.
  - vm_compute. reflexivity.
  - eapply (update_display_flushes_and_keeps_flags pb4 w_slow _ tt).
    vm_compute. reflexivity.
Defined.

(** The flags survive every defined call of [update], repainting or not. *)
Lemma update_keeps_flags (steps : Z) (force : bool) (pb pb' : ProgressBar) (w w' : World) :
  update steps force pb w = Some (pb', w') ->
  forall r, os_flags (streams w' r) = os_flags (streams w r).
Proof.
  intros H r.
  destruct (update_inv _ _ _ _ _ _ H)
    as [(_ & _ & ->) | (_ & _ & line & _ & Hp)]; [reflexivity | ].
  exact (painted_flags _ _ _ _ Hp r).
Qed.

(** C7: [restart] sets both stopwatches to the instants it reads from the
    clock and changes nothing else, in the object or in the streams;
    [elapsed_time] right after reports the time between [restart]'s first
    clock reading and its own, whatever the stopwatch showed before, which
    is zero when the clock has not advanced in between. *)
Theorem restart_resets_stopwatches (pb : ProgressBar) (w : World) :
  exists pb' w',
    restart pb w = Some (pb', w')
    /\ pb' = mk_ProgressBar (mk_Chronometer (clock w (reads w)))
               (mk_Chronometer (clock w (S (reads w))))
               (min_time_per_update_ pb) (os_ pb) (prefix_ pb) (bar_size_ pb)
               (current_step_ pb) (total_steps_ pb)
    /\ streams w' = streams w
    /\ (exists w'',
          elapsed_time pb' w' =
            Some (elapsed_seconds (clock w (reads w)) (clock w (S (S (reads w)))), w''))
    /\ (clock w (S (S (reads w))) = clock w (reads w) ->
        exists w'', elapsed_time pb' w' = Some (0%float, w'')).
Proof.
  exists (mk_ProgressBar (mk_Chronometer (clock w (reads w)))
            (mk_Chronometer (clock w (S (reads w))))
            (min_time_per_update_ pb) (os_ pb) (prefix_ pb) (bar_size_ pb)
            (current_step_ pb) (total_steps_ pb)),
         (mk_World (clock w) (S (S (reads w))) (streams w)).
  split; [reflexivity | ].
  split; [reflexivity | ]. split; [reflexivity | ].
  unfold elapsed_time, Chrono.peek, bind, now, ret.
  cbn [chronometer_ start_ clock reads].
  split.
  - eexists. reflexivity.
  - intros Hc. eexists. rewrite Hc. unfold elapsed_seconds.
    rewrite Z.sub_diag. reflexivity.
Qed.

(** C4: on a bar with a positive step total and a width that fits an
    [int], [fill] is defined whatever the clock and the refresh interval,
    sets [current_step_] to [total_steps_] and repaints; a second [fill]
    right after does the same, and both lines show 100.0 percent. *)
Theorem fill_twice (pb : ProgressBar) (w : World) :
  0 < total_steps_ pb < UINT_MODULUS ->
  0 <= bar_size_ pb <= INT_MAX ->
  exists pb1 w1 pb2 w2 line1 line2,
    fill pb w = Some (pb1, w1) /\ fill pb1 w1 = Some (pb2, w2)
    /\ current_step_ pb1 = total_steps_ pb
    /\ current_step_ pb2 = total_steps_ pb
    /\ os_log (streams w1 (os_ pb)) =
         (os_log (streams w (os_ pb)) ++ [Wrote line1; Flushed])%list
    /\ os_log (streams w2 (os_ pb)) =
         (os_log (streams w (os_ pb))
            ++ [Wrote line1; Flushed; Wrote line2; Flushed])%list
    /\ shows_100 pb line1 /\ shows_100 pb line2.
Proof.
  intros Ht Hb.
  destruct (fill_spec pb w Ht Hb) as (pb1 & w1 & line1 & H1 & E1 & S1 & P1).
  assert (Ht1 : total_steps_ pb1 = total_steps_ pb) by (subst pb1; reflexivity).
  assert (Hb1 : bar_size_ pb1 = bar_size_ pb) by (subst pb1; reflexivity).
  assert (Ho1 : os_ pb1 = os_ pb) by (subst pb1; reflexivity).
  assert (Hp1 : prefix_ pb1 = prefix_ pb) by (subst pb1; reflexivity).
  destruct (fill_spec pb1 w1) as (pb2 & w2 & line2 & H2 & E2 & S2 & P2);
    [rewrite Ht1; exact Ht | rewrite Hb1; exact Hb | ].
  exists pb1, w1, pb2, w2, line1, line2.
  pose proof (painted_log _ _ _ _ P1) as L1.
  pose proof (painted_log _ _ _ _ P2) as L2.
  cbn [streams] in L1, L2. rewrite Ho1 in L2.
  repeat split; try assumption.
  - subst pb1. reflexivity.
  - subst pb2. cbn. exact Ht1.
  - rewrite L2, L1, <- app_assoc. reflexivity.
  - unfold shows_100 in *. rewrite <- Hp1. exact S2.
Qed.

Lemma fill_twice_witness :
  0 < total_steps_ pb4 < UINT_MODULUS /\ 0 <= bar_size_ pb4 <= INT_MAX /\
  exists pb1 w1 pb2 w2 line1 line2,
    fill pb4 w_fast = Some (pb1, w1) /\ fill pb1 w1 = Some (pb2, w2)
    /\ current_step_ pb1 = total_steps_ pb4
    /\ current_step_ pb2 = total_steps_ pb4
    /\ os_log (streams w1 (os_ pb4)) =
         (os_log (streams w_fast (os_ pb4)) ++ [Wrote line1; Flushed])%list
    /\ os_log (streams w2 (os_ pb4)) =
         (os_log (streams w_fast (os_ pb4))
            ++ [Wrote line1; Flushed; Wrote line2; Flushed])%list
    /\ shows_100 pb4 line1 /\ shows_100 pb4 line2.
Proof.
  assert (Ht : 0 < total_steps_ pb4 < UINT_MODULUS) by (vm_compute; auto).
  assert (Hb : 0 <= bar_size_ pb4 <= INT_MAX)
    by (vm_compute; split; discriminate).
  split; [exact Ht | ]. split; [exact Hb | ].
  exact (fill_twice pb4 w_fast Ht Hb).
Defined.

(** C6, the claim as stated fails: right after construction, with the
    default interval of 0.1 s and a clock that advances by a microsecond
    per reading, two [update(1)] calls without [force] repaint nothing. *)
Lemma fresh_bar_two_updates_no_repaint :
  exists pb w,
    (pb <- new 4 ;; pb <- update 1 false pb ;; update 1 false pb)
      (world0 (ticking 1000)) = Some (pb, w)
    /\ min_time_per_update_ pb = DEFAULT_MIN_TIME
    /\ current_step_ pb = 2
    /\ repaints w cerr = 0%nat
    /\ repaints w cerr <> 1%nat.
Proof.
  eexists. eexists. split; [vm_compute; reflexivity | ].
  vm_compute. repeat split; discriminate.
Qed.

(** The half of C1 the code satisfies: outside the last cell (the rounded
    count of full blocks is below the width) the interior of the bar is that
    many full blocks, one gradation glyph and the padding, [bar_size_]
    glyphs in all. *)
Lemma print_bar_interior_width (pb : ProgressBar) (ss out : string) (p : float) (nf : Z) :
  is_uint (bar_size_ pb) ->
  num_filled_of p (bar_size_ pb) = Some nf ->
  nf < bar_size_ pb ->
  print_bar pb ss p = Some out ->
  exists idx padding,
    last_fill_idx p = Some idx /\
    out = ss ++ "|" ++ bar_interior (Z.to_nat nf) idx padding ++ "|" /\
    Z.of_nat (Z.to_nat nf + 1 + padding) = bar_size_ pb /\
    Z.of_nat (glyphs (bar_interior (Z.to_nat nf) idx padding)) = bar_size_ pb.
Proof.
  intros Hb Hn Hlt Hp.
  destruct (print_bar_shape _ _ _ _ Hp) as (nf' & idx & Hn' & Hi & ->).
  rewrite Hn in Hn'. injection Hn' as <-.
  assert (Hnf : is_uint nf).
  { unfold num_filled_of in Hn.
    destruct (double_to_int _) as [z | ]; [ | discriminate].
    injection Hn as <-. unfold is_uint, wrap. apply Z.mod_pos_bound. reflexivity. }
  unfold is_uint in *.
  assert (Hu : uadd nf 1 = nf + 1)
    by (unfold uadd; apply wrap_small; unfold is_uint; lia).
  rewrite Hu.
  exists idx. eexists. split; [exact Hi | ]. split; [reflexivity | ].
  rewrite glyphs_bar_interior.
  destruct (nf + 1 <? bar_size_ pb) eqn:E.
  - apply Z.ltb_lt in E. split; lia.
  - apply Z.ltb_ge in E. split; lia.
Qed.

(** C1, the failing case: the spec's own example (4 steps, width 10, four
    forced [update(1)] calls).  Every call repaints and the last line shows
    100.0 percent, but its bar holds the 10 full blocks and then the
    gradation glyph of index 0, U+258F: 11 glyphs where the width is 10, and
    the gradation is not the full block. *)
Theorem full_bar_one_glyph_too_wide :
  exists pb w,
    ex4 (world0 (ticking 1000)) = Some (pb, w)
    /\ current_step_ pb = total_steps_ pb
    /\ bar_size_ pb = 10
    /\ repaints w cerr = 4%nat
    /\ last_line w cerr =
         Some (CR ++ " 100.0%|" ++ bar_interior 10 0 0 ++ "| [0.0s<0.0s]")
    /\ glyphs (bar_interior 10 0 0) = 11%nat
    /\ get_fill_value 0 = LEFT_ONE_EIGHTH
    /\ get_fill_value 0 <> FULL_BLOCK.
Proof.
  eexists. eexists. split; [vm_compute; reflexivity | ].
  vm_compute. repeat split; discriminate.
Qed.

(** C2, the failing case: on a bar of 10 steps standing at 5, a request of
    4294967295 steps exceeds what remains, yet the sum wraps around to 4 and
    [current_step_] becomes 4 instead of [total_steps_]. *)
Theorem update_wraps_instead_of_clamping :
  exists pb1 w1 pb2 w2,
    (pb <- new 10 ;; update 5 false pb) (world0 (ticking 1000)) = Some (pb1, w1)
    /\ current_step_ pb1 = 5 /\ total_steps_ pb1 = 10
    /\ update 4294967295 false pb1 w1 = Some (pb2, w2)
    /\ is_uint 4294967295
    /\ current_step_ pb1 + 4294967295 > total_steps_ pb1
    /\ current_step_ pb2 = 4
    /\ current_step_ pb2 <> total_steps_ pb2.
Proof.
  eexists. eexists. eexists. eexists.
  split; [vm_compute; reflexivity | ].
  split; [reflexivity | ]. split; [reflexivity | ].
  split; [vm_compute; reflexivity | ].
  vm_compute. repeat split; discriminate.
Qed.

(** C3, the failing case: the requests 5 and 4294967295 sum to 4294967300,
    above the total of 10; made in this order they leave [current_step_] at
    4, made in the other order at 10. *)
Theorem update_all_depends_on_the_split :
  exists pb1 w1 pb2 w2,
    (pb <- new 10 ;; update_all [(5, false); (4294967295, false)] pb)
      (world0 (ticking 1000)) = Some (pb1, w1)
    /\ (pb <- new 10 ;; update_all [(4294967295, false); (5, false)] pb)
         (world0 (ticking 1000)) = Some (pb2, w2)
    /\ total_requested [(5, false); (4294967295, false)] = 4294967300
    /\ total_requested [(4294967295, false); (5, false)] = 4294967300
    /\ current_step_ pb1 = 4
    /\ current_step_ pb2 = 10
    /\ Z.min 4294967300 (total_steps_ pb1) = 10
    /\ Z.min (wrap 4294967300) (total_steps_ pb2) = 4.
Proof.
  eexists. eexists. eexists. eexists.
  split; [vm_compute; reflexivity | ].
  split; [vm_compute; reflexivity | ].
  vm_compute. repeat split; reflexivity.
Qed.

(** * Rounding in binary64

    The operations on doubles the bar performs (one division, three
    products) round to nearest.  This part derives that from the
    specification of the primitive operations, with the exact results as
    real numbers. *)

From Stdlib Require Import Reals Lra.
Open Scope Z_scope.

(** Powers of two, as real numbers. *)
Definition bpow (e : Z) : R := powerRZ 2 e.

(** [f] is the binary64 rounding to nearest of the positive real [v], in the
    normal range. *)
Definition rounded (v : R) (f : spec_float) : Prop :=
  exists g m1 : Z,
    2 ^ 52 <= m1 <= 2 ^ 53 /\ - 1074 <= g - 53 /\ g - 52 <= 971 /\
    f = (if m1 <? 2 ^ 53
         then S754_finite false (Z.to_pos m1) (g - 53)
         else S754_finite false (Z.to_pos (2 ^ 52)) (g - 52)) /\
    (bpow (g - 1) <= v < bpow g)%R /\
    (Rabs (IZR m1 * bpow (g - 53) - v) <= bpow (g - 54))%R.

(** A positive normal double and its value. *)
Definition normal (x : float) (v : R) : Prop :=
  exists m e,
    Prim2SF x = S754_finite false m e /\
    2 ^ 52 <= Zpos m < 2 ^ 53 /\ - 1074 <= e <= 971 /\
    v = (IZR (Zpos m) * bpow e)%R.

(** The comparison of two real numbers. *)
Definition Rcompare_of (a b : R) : comparison :=
  if Rlt_dec a b then Lt else if Rlt_dec b a then Gt else Eq.

(** ** Shifting a mantissa right keeps track of what is lost *)

Lemma loc_of_double (N D : Z) :
  0 <= N -> 0 < D ->
  N / (2 * D) = (N / D) / 2 /\
  N mod (2 * D) = N mod D + D * ((N / D) mod 2).
Proof.
  intros HN HD. split.
  - rewrite (Z.mul_comm 2 D), Z.div_div by lia. reflexivity.
  - rewrite (Z.mul_comm 2 D), Z.rem_mul_r by lia. reflexivity.
Qed.

Ltac settle_loc :=
  match goal with
  | |- context [?a =? 0] =>
      first [ replace (a =? 0) with true by (symmetry; apply Z.eqb_eq; lia)
            | replace (a =? 0) with false by (symmetry; apply Z.eqb_neq; lia) ]
  end;
  try match goal with
  | |- context [?a ?= ?b] =>
      first [ replace (a ?= b) with Eq by (symmetry; apply Z.compare_eq_iff; lia)
            | replace (a ?= b) with Lt by (symmetry; apply Z.compare_lt_iff; lia)
            | replace (a ?= b) with Gt by (symmetry; apply Z.compare_gt_iff; lia) ]
  end.

Lemma shr_1_loc (N D : Z) :
  0 <= N -> 0 < D ->
  shr_1 (shr_record_of_loc (N / D) (loc_of N D)) =
  shr_record_of_loc (N / (2 * D)) (loc_of N (2 * D)).
Proof.
  intros HN HD.
  destruct (loc_of_double N D HN HD) as [Hq Hr].
  unfold loc_of. rewrite Hq, Hr.
  pose proof (Z.mod_pos_bound N D HD) as Hb.
  pose proof (Z.div_pos N D HN HD) as Hq0.
  set (q := N / D) in *. set (r := N mod D) in *. clearbody q r.
  assert (Hcases : (q = 0 /\ q / 2 = 0 /\ q mod 2 = 0)
                   \/ (q = 1 /\ q / 2 = 0 /\ q mod 2 = 1)
                   \/ (exists p, q = Zpos p~0 /\ q / 2 = Zpos p /\ q mod 2 = 0)
                   \/ (exists p, q = Zpos p~1 /\ q / 2 = Zpos p /\ q mod 2 = 1)).
  { destruct q as [ | [p | p | ] | p]; try lia.
    - left. auto.
    - right; right; right. exists p. split; [reflexivity | ].
      change (Zpos p~1) with (2 * Zpos p + 1). split; Z.div_mod_to_equations; lia.
    - right; right; left. exists p. split; [reflexivity | ].
      change (Zpos p~0) with (2 * Zpos p). split; Z.div_mod_to_equations; lia.
    - right; left. auto. }
  assert (Hs : forall m c, shr_1 (shr_record_of_loc m (loc_Inexact c)) =
                 shr_1 (Build_shr_record m true true)).
  { intros m [ | | ]; destruct m as [ | [ | | ] | [ | | ]]; reflexivity. }
  destruct (Z.eqb_spec r 0) as [Hr0 | Hr0]; [ | rewrite Hs];
    destruct Hcases as [(-> & -> & ->) | [(-> & -> & ->) | [(p & -> & -> & ->) | (p & -> & -> & ->)]]];
    cbn [shr_record_of_loc shr_1 orb];
    settle_loc; reflexivity.
Qed.

Lemma iter_shr_loc (p : positive) :
  forall N D : Z, 0 <= N -> 0 < D ->
    SpecFloat.iter_pos shr_1 p (shr_record_of_loc (N / D) (loc_of N D)) =
    shr_record_of_loc (N / (D * 2 ^ Zpos p)) (loc_of N (D * 2 ^ Zpos p)).
Proof.
  induction p as [p IH | p IH | ]; intros N D HN HD; cbn [SpecFloat.iter_pos].
  - rewrite shr_1_loc, IH, IH by (try assumption; nia).
    replace (2 * D * 2 ^ Zpos p * 2 ^ Zpos p) with (D * 2 ^ Zpos p~1); [reflexivity | ].
    change (Zpos p~1) with (2 * Zpos p + 1).
    rewrite Z.pow_add_r, Z.pow_mul_r, Z.pow_1_r by lia.
    change (2 ^ 2) with 4. 
    replace (4 ^ Zpos p) with (2 ^ Zpos p * 2 ^ Zpos p); [ring | ].
    rewrite <- Z.pow_add_r by lia. replace (Zpos p + Zpos p) with (2 * Zpos p) by lia.
    rewrite Z.pow_mul_r by lia. reflexivity.
  - rewrite IH, IH by (try assumption; nia).
    replace (D * 2 ^ Zpos p * 2 ^ Zpos p) with (D * 2 ^ Zpos p~0); [reflexivity | ].
    change (Zpos p~0) with (2 * Zpos p).
    replace (2 * Zpos p) with (Zpos p + Zpos p) by lia.
    rewrite Z.pow_add_r by lia. ring.
  - rewrite shr_1_loc by assumption. rewrite Z.pow_1_r, (Z.mul_comm D 2). reflexivity.
Qed.

Lemma shr_loc (N D e n : Z) :
  0 <= N -> 0 < D -> 0 <= n ->
  shr (shr_record_of_loc (N / D) (loc_of N D)) e n =
  (shr_record_of_loc (N / (D * 2 ^ n)) (loc_of N (D * 2 ^ n)), e + n).
Proof.
  intros HN HD Hn. destruct n as [ | p | p]; try lia; cbn [shr].
  - rewrite Z.pow_0_r, Z.mul_1_r, Z.add_0_r. reflexivity.
  - rewrite iter_shr_loc by assumption. reflexivity.
Qed.

Lemma loc_of_shr_record_of_loc (m : Z) (l : location) :
  loc_of_shr_record (shr_record_of_loc m l) = l.
Proof. destruct l as [ | [ | | ]]; reflexivity. Qed.

Lemma shr_m_of_loc (m : Z) (l : location) : shr_m (shr_record_of_loc m l) = m.
Proof. destruct l as [ | [ | | ]]; reflexivity. Qed.



Lemma rne_nearest (N D : Z) :
  0 <= N -> 0 < D ->
  N / D <= rne N D <= N / D + 1 /\ 2 * Z.abs (rne N D * D - N) <= D.
Proof.
  intros HN HD. unfold rne, loc_of.
  pose proof (Z.div_mod N D ltac:(lia)) as Heq.
  pose proof (Z.mod_pos_bound N D HD) as Hb.
  set (q := N / D) in *. set (r := N mod D) in *. clearbody q r.
  destruct (Z.eqb_spec r 0) as [Hr | Hr]; cbn [round_nearest_even].
  - split; nia.
  - destruct (Z.compare_spec (2 * r) D) as [Hc | Hc | Hc].
    + destruct (Z.even q); split; nia.
    + split; nia.
    + split; nia.
Qed.

Lemma Zdigits2_bounds (m : Z) :
  0 < m -> 2 ^ (Zdigits2 m - 1) <= m < 2 ^ Zdigits2 m.
Proof.
  intros Hm. destruct m as [ | p | p]; try lia.
  cbn [Zdigits2]. apply digits2_pos_bounds.
Qed.

Lemma Zdigits2_unique (m d : Z) :
  2 ^ (d - 1) <= m < 2 ^ d -> 0 < m -> Zdigits2 m = d.
Proof.
  intros Hb Hm. pose proof (Zdigits2_bounds m Hm) as Hd.
  assert (0 < Zdigits2 m) by (destruct m; cbn; lia).
  assert (0 < d).
  { destruct (Z_lt_le_dec 0 d); [assumption | exfalso].
    assert (2 ^ d <= 2 ^ 0) by (apply Z.pow_le_mono_r; lia). 
    change (2 ^ 0) with 1 in *. lia. }
  destruct (Z.lt_trichotomy (Zdigits2 m) d) as [Hlt | [Heq | Hgt]]; [ | assumption | ]; exfalso.
  - assert (2 ^ Zdigits2 m <= 2 ^ (d - 1)) by (apply Z.pow_le_mono_r; lia). lia.
  - assert (2 ^ d <= 2 ^ (Zdigits2 m - 1)) by (apply Z.pow_le_mono_r; lia). lia.
Qed.

(** ** The rounding step of every operation, in the normal range *)

Lemma round_aux_normal (s : bool) (N D e : Z) :
  0 <= N -> 0 < D -> 0 < N / D ->
  let g := Zdigits2 (N / D) + e in
  let n := g - 53 - e in
  0 <= n -> - 1074 <= g - 53 -> g - 52 <= 971 ->
  exists m1 : Z,
    m1 = rne N (D * 2 ^ n) /\ 2 ^ 52 <= m1 <= 2 ^ 53 /\
    binary_round_aux prec emax s (N / D) e (loc_of N D) =
      if m1 <? 2 ^ 53
      then S754_finite s (Z.to_pos m1) (g - 53)
      else S754_finite s (Z.to_pos (2 ^ 52)) (g - 52).
Proof.
  intros HN HD Hq g n Hn Hlo Hhi.
  exists (rne N (D * 2 ^ n)). split; [reflexivity | ].
  assert (HD' : 0 < D * 2 ^ n) by (apply Z.mul_pos_pos; [assumption | apply Z.pow_pos_nonneg; lia]).
  assert (Hm' : 2 ^ 52 <= N / (D * 2 ^ n) < 2 ^ 53).
  { rewrite <- Z.div_div by lia.
    pose proof (Zdigits2_bounds (N / D) Hq) as Hd.
    replace (Zdigits2 (N / D)) with (n + 53) in Hd by (unfold n, g; lia).
    replace (n + 53 - 1) with (52 + n) in Hd by lia.
    rewrite !Z.pow_add_r in Hd by lia.
    split.
    - apply Z.div_le_lower_bound; [apply Z.pow_pos_nonneg; lia | lia].
    - apply Z.div_lt_upper_bound; [apply Z.pow_pos_nonneg; lia | lia]. }
  destruct (rne_nearest N (D * 2 ^ n) HN HD') as [Hr _].
  set (m1 := rne N (D * 2 ^ n)) in *.
  split; [lia | ].
  unfold binary_round_aux, shr_fexp.
  rewrite fexp_eq. fold g. replace (Z.max (g - 53) (- 1074) - e) with n by lia.
  rewrite shr_loc by assumption.
  rewrite loc_of_shr_record_of_loc, shr_m_of_loc. fold (rne N (D * 2 ^ n)). fold m1.
  cbn [shr_record_of_loc].
  destruct (Z.ltb_spec m1 (2 ^ 53)) as [Hlt | Hge].
  - rewrite (Zdigits2_unique m1 53) by (change (53 - 1) with 52; lia).
    rewrite fexp_eq.
    replace (Z.max (53 + (e + n) - 53) (- 1074) - (e + n)) with 0 by lia.
    cbn [shr shr_m].
    destruct m1 as [ | p | p]; try lia.
    replace (e + n <=? emax - prec) with true
      by (symmetry; apply Z.leb_le; change (emax - prec) with 971; lia).
    f_equal. lia.
  - assert (Hm1 : m1 = 2 ^ 53) by lia. rewrite Hm1.
    change (Zdigits2 (2 ^ 53)) with 54. rewrite fexp_eq.
    replace (Z.max (54 + (e + n) - 53) (- 1074) - (e + n)) with 1 by lia.
    cbn [shr SpecFloat.iter_pos]. change (shr_1 {| shr_m := 2 ^ 53; shr_r := false; shr_s := false |})
      with {| shr_m := 2 ^ 52; shr_r := false; shr_s := false |}.
    cbn [shr_m]. change (2 ^ 52) with (Zpos (Z.to_pos (2 ^ 52))) at 1.
    cbv iota beta.
    replace (e + n + 1 <=? emax - prec) with true
      by (symmetry; apply Z.leb_le; change (emax - prec) with 971; lia).
    f_equal. lia.
Qed.

(** ** Values as real numbers *)

Lemma bpow_pos (e : Z) : (0 < bpow e)%R.
Proof. apply powerRZ_lt. lra. Qed.

Lemma bpow_add (a b : Z) : bpow (a + b) = (bpow a * bpow b)%R.
Proof. apply powerRZ_add. lra. Qed.

Lemma bpow_IZR (n : Z) : 0 <= n -> bpow n = IZR (2 ^ n).
Proof.
  intros Hn. unfold bpow.
  rewrite <- (Z2Nat.id n) by assumption.
  rewrite <- pow_powerRZ, pow_IZR. reflexivity.
Qed.

Lemma bpow_opp (n : Z) : bpow (- n) = (/ bpow n)%R.
Proof. apply powerRZ_neg'. Qed.

Lemma bpow_sub (a b : Z) : bpow (a - b) = (bpow a / bpow b)%R.
Proof.
  replace (a - b) with (a + - b) by lia.
  rewrite bpow_add, bpow_opp. reflexivity.
Qed.

Lemma bpow_le (a b : Z) : a <= b -> (bpow a <= bpow b)%R.
Proof.
  intros H. replace b with (a + (b - a)) by lia.
  rewrite bpow_add, (bpow_IZR (b - a)) by lia.
  pose proof (bpow_pos a).
  assert (1 <= IZR (2 ^ (b - a)))%R.
  { apply IZR_le. pose proof (Z.pow_pos_nonneg 2 (b - a)). lia. }
  nra.
Qed.

Lemma bpow_lt (a b : Z) : a < b -> (bpow a < bpow b)%R.
Proof.
  intros H. replace b with (a + (b - a)) by lia.
  rewrite bpow_add, (bpow_IZR (b - a)) by lia.
  pose proof (bpow_pos a).
  assert (2 <= IZR (2 ^ (b - a)))%R.
  { apply IZR_le. replace (b - a) with (1 + (b - a - 1)) by lia.
    rewrite Z.pow_add_r by lia. pose proof (Z.pow_pos_nonneg 2 (b - a - 1)). lia. }
  nra.
Qed.

Lemma bpow_m1 : bpow (- 1) = (/ 2)%R.
Proof. unfold bpow, powerRZ. simpl. rewrite Rmult_1_r. reflexivity. Qed.

Lemma Rabs_le_both (a b : R) : (Rabs a <= b)%R -> (- b <= a <= b)%R.
Proof. unfold Rabs. destruct (Rcase_abs a); lra. Qed.

Lemma Rabs_lt_both (a b : R) : (Rabs a < b)%R -> (- b < a < b)%R.
Proof. unfold Rabs. destruct (Rcase_abs a); lra. Qed.

(** A value lies in one binade only. *)
Lemma binade_unique (v : R) (g g' : Z) :
  (bpow (g - 1) <= v < bpow g)%R -> (bpow (g' - 1) <= v < bpow g')%R -> g = g'.
Proof.
  intros H H'.
  destruct (Z.lt_trichotomy g g') as [Hlt | [Heq | Hgt]]; [exfalso | assumption | exfalso].
  - pose proof (bpow_le g (g' - 1) ltac:(lia)). lra.
  - pose proof (bpow_le g' (g - 1) ltac:(lia)). lra.
Qed.



Lemma round_aux_rounded (N D e : Z) :
  0 <= N -> 0 < D -> 0 < N / D ->
  let g := Zdigits2 (N / D) + e in
  0 <= g - 53 - e -> - 1074 <= g - 53 -> g - 52 <= 971 ->
  rounded (IZR N / IZR D * bpow e)
          (binary_round_aux prec emax false (N / D) e (loc_of N D)).
Proof.
  intros HN HD Hq g Hn Hlo Hhi.
  destruct (round_aux_normal false N D e HN HD Hq Hn Hlo Hhi)
    as (m1 & Hm1 & Hb & Heq).
  fold g in Heq. set (n := g - 53 - e) in *.
  change (m1 = rne N (D * 2 ^ n)) in Hm1.
  exists g, m1. repeat (split; [assumption || lia | ]).
  assert (HrD : (0 < IZR D)%R) by (apply IZR_lt; assumption).
  pose proof (bpow_pos e) as HE.
  split.
  - (* the binade *)
    pose proof (Zdigits2_bounds (N / D) Hq) as Hd.
    set (dx := Zdigits2 (N / D)) in *.
    assert (Hdx : 1 <= dx) by (unfold n, g in Hn; fold dx in Hn; lia).
    pose proof (Z.div_mod N D ltac:(lia)) as Hdm.
    pose proof (Z.mod_pos_bound N D HD) as Hmb.
    set (q := N / D) in *. set (r := N mod D) in *. clearbody q r dx.
    assert (H1 : 2 ^ (dx - 1) * D <= N).
    { assert (2 ^ (dx - 1) * D <= q * D) by (apply Z.mul_le_mono_nonneg_r; lia). lia. }
    assert (H2 : N < 2 ^ dx * D).
    { assert ((q + 1) * D <= 2 ^ dx * D) by (apply Z.mul_le_mono_nonneg_r; lia). lia. }
    apply IZR_le in H1. apply IZR_lt in H2.
    rewrite mult_IZR in H1, H2.
    rewrite <- bpow_IZR in H1, H2 by lia.
    unfold g. replace (dx + e - 1) with ((dx - 1) + e) by lia.
    rewrite !bpow_add.
    pose proof (bpow_pos (dx - 1)). pose proof (bpow_pos dx).
    assert (Hv1 : (bpow (dx - 1) <= IZR N / IZR D)%R).
    { apply Rmult_le_reg_r with (r := IZR D); [assumption | ].
      unfold Rdiv. rewrite Rmult_assoc, Rinv_l by lra. lra. }
    assert (Hv2 : (IZR N / IZR D < bpow dx)%R).
    { apply Rmult_lt_reg_r with (r := IZR D); [assumption | ].
      unfold Rdiv. rewrite Rmult_assoc, Rinv_l by lra. lra. }
    split; [apply Rmult_le_compat_r; lra | apply Rmult_lt_compat_r; lra].
  - (* nearest *)
    assert (HD' : 0 < D * 2 ^ n)
      by (apply Z.mul_pos_pos; [assumption | apply Z.pow_pos_nonneg; lia]).
    destruct (rne_nearest N (D * 2 ^ n) HN HD') as [_ Hnear].
    rewrite <- Hm1 in Hnear.
    assert (Ha : - (D * 2 ^ n) <= 2 * (m1 * (D * 2 ^ n) - N) <= D * 2 ^ n) by lia.
    destruct Ha as [Ha1 Ha2].
    assert (Hr1 : (- (IZR D * bpow n) <= 2 * (IZR m1 * (IZR D * bpow n) - IZR N))%R).
    { rewrite (bpow_IZR n) by lia.
      rewrite <- !mult_IZR, <- minus_IZR, <- mult_IZR, <- opp_IZR.
      apply IZR_le. exact Ha1. }
    assert (Hr2 : (2 * (IZR m1 * (IZR D * bpow n) - IZR N) <= IZR D * bpow n)%R).
    { rewrite (bpow_IZR n) by lia.
      rewrite <- !mult_IZR, <- minus_IZR, <- mult_IZR.
      apply IZR_le. exact Ha2. }
    clear Ha1 Ha2.
    replace (g - 53) with (e + n) by (unfold n; lia).
    replace (g - 54) with (e + n + - 1) by (unfold n; lia).
    rewrite !bpow_add.
    rewrite bpow_m1.
    pose proof (bpow_pos n) as HP.
    set (P := bpow n) in *. set (E := bpow e) in *.
    set (rN := IZR N) in *. set (rD := IZR D) in *. set (M := IZR m1) in *.
    replace (M * (E * P) - rN / rD * E)%R
      with (E / rD * (M * (rD * P) - rN))%R by (field; lra).
    assert (HEd : (0 < E / rD)%R) by (apply Rdiv_lt_0_compat; assumption).
    apply Rabs_le. 
    replace (E * P * / 2)%R with (E / rD * (rD * P / 2))%R by (field; lra).
    split.
    + replace (- (E / rD * (rD * P / 2)))%R with (E / rD * (- (rD * P / 2)))%R by ring.
      apply Rmult_le_compat_l; lra.
    + apply Rmult_le_compat_l; lra.
Qed.

(** ** What a correctly rounded result is *)

Lemma rounded_finite (v : R) (f : spec_float) :
  rounded v f ->
  exists m e,
    f = S754_finite false m e /\ 2 ^ 52 <= Zpos m < 2 ^ 53 /\ - 1074 <= e <= 971 /\
    (0 < v)%R /\
    (Rabs (IZR (Zpos m) * bpow e - v) <= v * bpow (- 53))%R.
Proof.
  intros (g & m1 & Hb & Hlo & Hhi & -> & Hbin & Hnear).
  assert (Hv : (0 < v)%R) by (pose proof (bpow_pos (g - 1)); lra).
  assert (Herr : (bpow (g - 54) <= v * bpow (- 53))%R).
  { replace (g - 54) with ((g - 1) + - 53) by lia. rewrite bpow_add.
    pose proof (bpow_pos (- 53)). apply Rmult_le_compat_r; lra. }
  destruct (Z.ltb_spec m1 (2 ^ 53)) as [Hlt | Hge].
  - exists (Z.to_pos m1), (g - 53).
    rewrite Z2Pos.id by lia.
    repeat split; try lia; try assumption. lra.
  - exists (Z.to_pos (2 ^ 52)), (g - 52).
    repeat split; try lia; try assumption; try (cbn; lia).
    assert (m1 = 2 ^ 53) by lia. subst m1.
    replace (IZR (Zpos (Z.to_pos (2 ^ 52))) * bpow (g - 52))%R
      with (IZR (2 ^ 53) * bpow (g - 53))%R; [lra | ].
    replace (g - 52) with (1 + (g - 53)) by lia. rewrite bpow_add.
    rewrite (bpow_IZR 1) by lia. rewrite <- Rmult_assoc, <- mult_IZR.
    reflexivity.
Qed.

(** A value close enough to a binary64 number rounds to it. *)
Lemma rounded_eq (v : R) (f : spec_float) (mP : positive) (G : Z) :
  rounded v f ->
  2 ^ 52 <= Zpos mP < 2 ^ 53 ->
  (bpow (G - 1) <= v < bpow G)%R ->
  (Rabs (IZR (Zpos mP) * bpow (G - 53) - v) < bpow (G - 54))%R ->
  f = S754_finite false mP (G - 53).
Proof.
  intros (g & m1 & Hb & Hlo & Hhi & -> & Hbin & Hnear) HmP HG Hclose.
  assert (g = G) by (eapply binade_unique; eassumption). subst g.
  assert (Hd : (Rabs (IZR m1 - IZR (Zpos mP)) < 1)%R).
  { pose proof (bpow_pos (G - 53)) as Hp.
    assert (Hh : bpow (G - 54) = (bpow (G - 53) / 2)%R).
    { replace (G - 54) with ((G - 53) + - 1) by lia.
      rewrite bpow_add, bpow_m1. reflexivity. }
    rewrite Hh in *.
    apply Rabs_lt_both in Hclose.
    assert (Hn2 := Hnear). apply Rabs_le_both in Hn2.
    apply Rabs_def1; apply Rmult_lt_reg_r with (r := bpow (G - 53)); try assumption; lra. }
  assert (m1 = Zpos mP).
  { rewrite <- minus_IZR, <- abs_IZR in Hd. apply lt_IZR in Hd. lia. }
  subst m1.
  replace (Zpos mP <? 2 ^ 53) with true by (symmetry; apply Z.ltb_lt; lia).
  reflexivity.
Qed.

Lemma new_location_loc_of (N D : Z) :
  0 < D -> new_location D (N mod D) = loc_of N D.
Proof.
  intros HD. unfold new_location, new_location_even, new_location_odd, loc_of.
  pose proof (Z.mod_pos_bound N D HD) as Hb.
  set (r := N mod D) in *. clearbody r.
  destruct (Z.even D) eqn:Hev.
  - reflexivity.
  - destruct (Z.eqb_spec r 0); [reflexivity | ].
    f_equal.
    assert (Hodd : Z.odd D = true) by (rewrite <- Z.negb_even, Hev; reflexivity).
    apply Z.odd_spec in Hodd. destruct Hodd as [h Hh].
    destruct (Z.compare_spec (2 * r + 1) D), (Z.compare_spec (2 * r) D);
      try reflexivity; lia.
Qed.

Lemma Zdigits2_53 (m : Z) : 2 ^ 52 <= m < 2 ^ 53 -> Zdigits2 m = 53.
Proof. intros H. apply Zdigits2_unique; [exact H | lia]. Qed.

(** ** Division and multiplication are correctly rounded *)

Lemma Zdigits2_range (q lo hi : Z) :
  0 <= lo -> 2 ^ lo <= q < 2 ^ hi -> lo + 1 <= Zdigits2 q <= hi.
Proof.
  intros Hlo Hq.
  assert (Hq0 : 0 < q) by (pose proof (Z.pow_pos_nonneg 2 lo); lia).
  pose proof (Zdigits2_bounds q Hq0) as Hd.
  split.
  - destruct (Z_le_gt_dec (lo + 1) (Zdigits2 q)); [assumption | exfalso].
    assert (0 <= Zdigits2 q) by (destruct q; cbn; lia).
    assert (2 ^ Zdigits2 q <= 2 ^ lo) by (apply Z.pow_le_mono_r; lia). lia.
  - destruct (Z_le_gt_dec (Zdigits2 q) hi); [assumption | exfalso].
    assert (0 <= hi).
    { destruct (Z_le_gt_dec 0 hi); [assumption | exfalso].
      rewrite (Z.pow_neg_r 2 hi) in Hq by lia. lia. }
    assert (2 ^ hi <= 2 ^ (Zdigits2 q - 1)) by (apply Z.pow_le_mono_r; lia). lia.
Qed.

(** The quotient of two normal numbers of moderate exponents is correctly
    rounded. *)
Lemma SFdiv_rounded (mx my : positive) (ex ey : Z) :
  2 ^ 52 <= Zpos mx < 2 ^ 53 -> 2 ^ 52 <= Zpos my < 2 ^ 53 ->
  - 500 <= ex <= 500 -> - 500 <= ey <= 500 ->
  rounded (IZR (Zpos mx) * bpow ex / (IZR (Zpos my) * bpow ey))
          (SF64div (S754_finite false mx ex) (S754_finite false my ey)).
Proof.
  intros Hmx Hmy Hex Hey.
  unfold SF64div, SFdiv, SFdiv_core_binary.
  rewrite (Zdigits2_53 _ Hmx), (Zdigits2_53 _ Hmy), fexp_eq.
  replace (Z.min (Z.max (53 + ex - (53 + ey) - 53) (- 1074)) (ex - ey))
    with (ex - ey - 53) by lia.
  replace (ex - ey - (ex - ey - 53)) with 53 by lia.
  cbv beta iota zeta. cbn [xorb].
  rewrite Z.shiftl_mul_pow2 by lia.
  set (N := Zpos mx * 2 ^ 53).
  pose proof (Z.div_eucl_eq N (Zpos my) ltac:(lia)) as Heq.
  assert (Hdiv : N / Zpos my = fst (Z.div_eucl N (Zpos my))) by reflexivity.
  assert (Hmod : N mod Zpos my = snd (Z.div_eucl N (Zpos my))) by reflexivity.
  destruct (Z.div_eucl N (Zpos my)) as [q r]. cbn [fst snd] in Hdiv, Hmod.
  subst q r. rewrite new_location_loc_of by lia.
  assert (HN : 0 <= N) by (unfold N; lia).
  assert (Hq : 2 ^ 52 <= N / Zpos my < 2 ^ 54).
  { split.
    - apply Z.div_le_lower_bound; [lia | ]. unfold N. nia.
    - apply Z.div_lt_upper_bound; [lia | ]. unfold N. nia. }
  pose proof (Zdigits2_range _ 52 54 ltac:(lia) Hq) as Hd.
  replace (IZR (Zpos mx) * bpow ex / (IZR (Zpos my) * bpow ey))%R
    with (IZR N / IZR (Zpos my) * bpow (ex - ey - 53))%R.
  - apply round_aux_rounded; lia.
  - unfold N. rewrite mult_IZR, <- (bpow_IZR 53) by lia.
    rewrite !bpow_sub.
    pose proof (bpow_pos ey). pose proof (bpow_pos 53).
    assert (0 < IZR (Zpos my))%R by (apply IZR_lt; lia).
    generalize dependent (IZR (Zpos my)). generalize (IZR (Zpos mx)).
    generalize dependent (bpow ey). generalize dependent (bpow 53). generalize (bpow ex).
    intros. field. repeat split; lra.
Qed.

(** The product of two normal numbers of moderate exponents is correctly
    rounded. *)
Lemma SFmul_rounded (mx my : positive) (ex ey : Z) :
  2 ^ 52 <= Zpos mx < 2 ^ 53 -> 2 ^ 52 <= Zpos my < 2 ^ 53 ->
  - 500 <= ex <= 400 -> - 500 <= ey <= 400 ->
  rounded (IZR (Zpos mx) * bpow ex * (IZR (Zpos my) * bpow ey))
          (SF64mul (S754_finite false mx ex) (S754_finite false my ey)).
Proof.
  intros Hmx Hmy Hex Hey.
  unfold SF64mul, SFmul. cbn [xorb].
  set (N := Zpos mx * Zpos my).
  assert (HN : 2 ^ 104 <= N < 2 ^ 106) by (unfold N; nia).
  replace (Zpos (mx * my)) with (N / 1) by (rewrite Z.div_1_r; reflexivity).
  replace loc_Exact with (loc_of N 1)
    by (unfold loc_of; rewrite Z.mod_1_r; reflexivity).
  pose proof (Zdigits2_range _ 104 106 ltac:(lia) HN) as Hd.
  replace (IZR (Zpos mx) * bpow ex * (IZR (Zpos my) * bpow ey))%R
    with (IZR N / IZR 1 * bpow (ex + ey))%R.
  - apply round_aux_rounded; rewrite ?Z.div_1_r; lia.
  - unfold N. rewrite mult_IZR, bpow_add.
    generalize (IZR (Zpos my)) (IZR (Zpos mx)) (bpow ey) (bpow ex).
    intros. field.
Qed.

(** The conversion of a positive integer below [2^53] is a normal number
    with the same value. *)
Lemma double_of_uint_normal (n : Z) :
  0 < n < 2 ^ 53 ->
  exists m e,
    Prim2SF (double_of_uint n) = S754_finite false m e /\
    2 ^ 52 <= Zpos m < 2 ^ 53 /\ - 52 <= e <= 0 /\
    (IZR (Zpos m) * bpow e)%R = IZR n.
Proof.
  intros Hn.
  destruct (Prim2SF_double_of_uint n Hn) as (m & e & HP & Hb & He & Hm).
  exists m, e. split; [exact HP | ].
  destruct (bounded_inv _ _ Hb) as [Hc _]. rewrite fexp_eq in Hc.
  pose proof (digits2_pos_bounds m) as Hd.
  set (d := Zpos (digits2_pos m)) in *.
  assert (Hd1 : 1 <= d) by (unfold d; lia).
  assert (Hpow : 1 <= 2 ^ (- e)) by (pose proof (Z.pow_pos_nonneg 2 (- e)); lia).
  assert (He' : - 52 <= e).
  { destruct (Z_le_gt_dec (- 52) e); [assumption | exfalso].
    (* m = n * 2^(-e) >= 2^53 would need more than 53 digits *)
    assert (d + e - 53 = e \/ e = - 1074) by lia.
    assert (2 ^ 53 <= 2 ^ (- e)) by (apply Z.pow_le_mono_r; lia).
    assert (2 ^ 53 <= Zpos m) by nia.
    assert (53 < d).
    { destruct (Z_lt_le_dec 53 d); [assumption | exfalso].
      assert (2 ^ d <= 2 ^ 53) by (apply Z.pow_le_mono_r; lia). lia. }
    assert (Hm' : Zpos m < 2 ^ 53 * 2 ^ (- e)) by nia.
    rewrite <- Z.pow_add_r in Hm' by lia.
    assert (d - 1 < 53 + - e).
    { destruct (Z_lt_le_dec (d - 1) (53 + - e)); [assumption | exfalso].
      assert (2 ^ (53 + - e) <= 2 ^ (d - 1)) by (apply Z.pow_le_mono_r; lia). lia. }
    lia. }
  assert (Hd53 : d = 53) by lia.
  clearbody d. subst d. change (53 - 1) with 52 in Hd.
  repeat split; try lia.
  rewrite Hm, mult_IZR, <- (bpow_IZR (- e)) by lia.
  rewrite Rmult_assoc, <- bpow_add. replace (- e + e) with 0 by lia.
  unfold bpow. simpl. ring.
Qed.

(** ** On the primitive doubles *)

Lemma normal_of_uint (n : Z) :
  0 < n < 2 ^ 53 -> normal (double_of_uint n) (IZR n).
Proof.
  intros Hn. destruct (double_of_uint_normal n Hn) as (m & e & HP & Hm & He & Hv).
  exists m, e. repeat split; try assumption; try lia. symmetry. exact Hv.
Qed.

Lemma normal_pos (x : float) (v : R) : normal x v -> (0 < v)%R.
Proof.
  intros (m & e & _ & Hm & _ & ->).
  apply Rmult_lt_0_compat; [apply IZR_lt; lia | apply bpow_pos].
Qed.

(** The value of a normal double of exponent [e] is at least [2^(52+e)]. *)
Lemma normal_magnitude (m : positive) (e : Z) :
  2 ^ 52 <= Zpos m < 2 ^ 53 ->
  (bpow (52 + e) <= IZR (Zpos m) * bpow e < bpow (53 + e))%R.
Proof.
  intros Hm. rewrite !bpow_add, (bpow_IZR 52), (bpow_IZR 53) by lia.
  pose proof (bpow_pos e).
  destruct Hm as [H1 H2]. apply IZR_le in H1. apply IZR_lt in H2.
  split; [apply Rmult_le_compat_r | apply Rmult_lt_compat_r]; lra.
Qed.

(** The result of a correctly rounded operation is normal and within a
    relative error of [2^-53] of the exact result. *)
Lemma rounded_normal (v : R) (x : float) :
  rounded v (Prim2SF x) ->
  exists w, normal x w /\ (0 < v)%R /\ (Rabs (w - v) <= v * bpow (- 53))%R.
Proof.
  intros H. destruct (rounded_finite _ _ H) as (m & e & HP & Hm & He & Hv & Herr).
  exists (IZR (Zpos m) * bpow e)%R. split; [ | split; assumption].
  exists m, e. repeat split; try assumption; lia.
Qed.

Lemma normal_exponent (m : positive) (e : Z) :
  2 ^ 52 <= Zpos m < 2 ^ 53 ->
  (bpow (- 100) <= IZR (Zpos m) * bpow e <= bpow 100)%R ->
  - 153 <= e <= 48.
Proof.
  intros Hm Hv. pose proof (normal_magnitude m e Hm) as Hx.
  split.
  - destruct (Z_le_gt_dec (- 153) e); [assumption | exfalso].
    pose proof (bpow_le (53 + e) (- 100) ltac:(lia)). lra.
  - destruct (Z_le_gt_dec e 48); [assumption | exfalso].
    pose proof (bpow_lt 100 (52 + e) ltac:(lia)). lra.
Qed.

Lemma div_rounded (x y : float) (vx vy : R) :
  normal x vx -> normal y vy ->
  (bpow (- 100) <= vx <= bpow 100)%R -> (bpow (- 100) <= vy <= bpow 100)%R ->
  rounded (vx / vy) (Prim2SF (x / y)).
Proof.
  intros (mx & e1 & HPx & Hmx & He1 & ->) (my & e2 & HPy & Hmy & He2 & ->) Hbx Hby.
  rewrite FloatAxioms.div_spec, HPx, HPy.
  pose proof (normal_exponent mx e1 Hmx Hbx).
  pose proof (normal_exponent my e2 Hmy Hby).
  apply SFdiv_rounded; try assumption; lia.
Qed.

Lemma mul_rounded (x y : float) (vx vy : R) :
  normal x vx -> normal y vy ->
  (bpow (- 100) <= vx <= bpow 100)%R -> (bpow (- 100) <= vy <= bpow 100)%R ->
  rounded (vx * vy) (Prim2SF (x * y)).
Proof.
  intros (mx & e1 & HPx & Hmx & He1 & ->) (my & e2 & HPy & Hmy & He2 & ->) Hbx Hby.
  rewrite FloatAxioms.mul_spec, HPx, HPy.
  pose proof (normal_exponent mx e1 Hmx Hbx).
  pose proof (normal_exponent my e2 Hmy Hby).
  apply SFmul_rounded; try assumption; lia.
Qed.

(** Constants: [2^-100] and [2^100] as decimals, for [lra]. *)
Lemma bpow_m100 : bpow (- 100) = (/ 1267650600228229401496703205376)%R.
Proof.
  change (- 100) with (- (100)). rewrite bpow_opp, (bpow_IZR 100) by lia.
  reflexivity.
Qed.

Lemma bpow_100 : bpow 100 = 1267650600228229401496703205376%R.
Proof. rewrite (bpow_IZR 100) by lia. reflexivity. Qed.

Lemma bpow_m53 : bpow (- 53) = (/ 9007199254740992)%R.
Proof.
  change (- 53) with (- (53)). rewrite bpow_opp, (bpow_IZR 53) by lia.
  reflexivity.
Qed.

(** ** Conversions to integers *)

(** The integer part of a positive double, from bounds on its value. *)
Lemma shiftl_bounds (m : positive) (e lo hi : Z) :
  (IZR lo <= IZR (Zpos m) * bpow e < IZR hi)%R ->
  lo <= Z.shiftl (Zpos m) e < hi.
Proof.
  intros [H1 H2]. destruct (Z_le_gt_dec 0 e) as [He | He].
  - rewrite Z.shiftl_mul_pow2 by assumption.
    rewrite (bpow_IZR e), <- mult_IZR in H1, H2 by assumption.
    apply le_IZR in H1. apply lt_IZR in H2. lia.
  - rewrite Z.shiftl_div_pow2 by lia.
    assert (HT : 0 < 2 ^ (- e)) by (apply Z.pow_pos_nonneg; lia).
    replace e with (- (- e)) in H1, H2 by lia.
    rewrite bpow_opp, (bpow_IZR (- e)) in H1, H2 by lia.
    assert (HrT : (0 < IZR (2 ^ (- e)))%R) by (apply IZR_lt; assumption).
    set (T := 2 ^ (- e)) in *. clearbody T.
    assert (H1' : (IZR lo * IZR T <= IZR (Zpos m))%R).
    { apply Rmult_le_compat_r with (r := IZR T) in H1; [ | lra].
      rewrite Rmult_assoc, Rinv_l in H1 by lra. lra. }
    assert (H2' : (IZR (Zpos m) < IZR hi * IZR T)%R).
    { apply Rmult_lt_compat_r with (r := IZR T) in H2; [ | lra].
      rewrite Rmult_assoc, Rinv_l in H2 by lra. lra. }
    rewrite <- mult_IZR in H1', H2'.
    apply le_IZR in H1'. apply lt_IZR in H2'.
    split.
    + apply Z.div_le_lower_bound; lia.
    + apply Z.div_lt_upper_bound; lia.
Qed.

Lemma double_to_int_bounds (x : float) (v : R) (lo hi : Z) :
  normal x v -> (IZR lo <= v < IZR hi)%R ->
  INT_MIN <= lo -> hi <= INT_MAX + 1 ->
  exists a, double_to_int x = Some a /\ lo <= a < hi.
Proof.
  intros (m & e & HP & Hm & He & ->) Hv Hlo Hhi.
  pose proof (shiftl_bounds m e lo hi Hv) as Hb.
  exists (Z.shiftl (Zpos m) e). split; [ | exact Hb].
  unfold double_to_int. rewrite HP. cbn [SFtrunc cond_Zopp].
  unfold checked_int, in_int_range.
  replace ((INT_MIN <=? Z.shiftl (Zpos m) e) && (Z.shiftl (Zpos m) e <=? INT_MAX))
    with true; [reflexivity | ].
  symmetry. apply andb_true_iff. split; apply Z.leb_le; lia.
Qed.

(** A normal double below [2^52] has a negative exponent. *)
Lemma normal_small_exponent (m : positive) (e : Z) :
  2 ^ 52 <= Zpos m < 2 ^ 53 ->
  (IZR (Zpos m) * bpow e < bpow 52)%R -> e < 0.
Proof.
  intros Hm Hv. pose proof (normal_magnitude m e Hm) as Hx.
  destruct (Z_lt_le_dec e 0); [assumption | exfalso].
  pose proof (bpow_le 52 (52 + e) ltac:(lia)). lra.
Qed.

Lemma bpow_52 : bpow 52 = 4503599627370496%R.
Proof. rewrite (bpow_IZR 52) by lia. reflexivity. Qed.

(** [std::floor] of a positive double below [2^52]. *)
Lemma d_floor_bounds (x : float) (v : R) (k : Z) :
  normal x v -> (IZR k <= v < IZR (k + 1))%R -> 0 <= k < 2 ^ 52 ->
  d_floor x = double_of_uint k.
Proof.
  intros (m & e & HP & Hm & He & ->) Hv Hk.
  assert (He0 : e < 0).
  { apply (normal_small_exponent m e Hm). rewrite bpow_52.
    destruct Hk as [_ Hk]. assert (k + 1 <= 2 ^ 52) as Hk' by lia.
    apply IZR_le in Hk'. change (IZR (2 ^ 52)) with 4503599627370496%R in Hk'. lra. }
  unfold d_floor. rewrite HP.
  replace (0 <=? e) with false by (symmetry; apply Z.leb_gt; lia).
  pose proof (shiftl_bounds m e k (k + 1) Hv) as Hb.
  replace (Z.shiftl (Zpos m) e) with k by lia. reflexivity.
Qed.

(** ** The progress fraction *)

(** Turn [bpow] of a literal into a decimal constant. *)
Ltac norm_bpow :=
  repeat match goal with
  | |- context [bpow ?e] =>
      let e' := eval vm_compute in e in
      match e' with
      | Zneg ?p =>
          let T := eval vm_compute in (2 ^ Zpos p) in
          replace (bpow e) with (/ IZR T)%R
            by (symmetry; change e with (- (Zpos p));
                rewrite bpow_opp, (bpow_IZR (Zpos p)) by lia; reflexivity)
      | _ =>
          let T := eval vm_compute in (2 ^ e') in
          replace (bpow e) with (IZR T) by (symmetry; apply bpow_IZR; lia)
      end
  end.

Lemma IZR_uint_bounds (n : Z) :
  0 < n < 2 ^ 32 -> (bpow (- 100) <= IZR n <= bpow 100)%R.
Proof.
  intros [H1 H2]. norm_bpow.
  assert (1 <= n) as H1' by lia. apply IZR_le in H1'. apply IZR_lt in H2.
  change (IZR (2 ^ 32)) with 4294967296%R in H2. lra.
Qed.

(** The progress fraction of a bar under way is the correctly rounded
    quotient. *)
Lemma progress_rounded (c t : Z) :
  0 < c < 2 ^ 32 -> 0 < t < 2 ^ 32 ->
  rounded (IZR c / IZR t) (Prim2SF (double_of_uint c / double_of_uint t)).
Proof.
  intros Hc Ht.
  apply div_rounded; try (apply normal_of_uint; lia); apply IZR_uint_bounds; assumption.
Qed.

(** Exact tenths: the fraction is the double nearest to k/10, whatever
    the numerator and the denominator. *)
Lemma tenth_exact (k c t : Z) :
  1 <= k <= 9 -> 0 < c < 2 ^ 32 -> 0 < t < 2 ^ 32 -> 10 * c = k * t ->
  (double_of_uint c / double_of_uint t)%float
  = (double_of_uint k / double_of_uint 10)%float.
Proof.
  intros Hk Hc Ht Heq.
  pose proof (progress_rounded c t Hc Ht) as Hr.
  assert (Hv : (IZR c / IZR t = IZR k / 10)%R).
  { assert (0 < IZR t)%R by (apply IZR_lt; lia).
    apply (f_equal IZR) in Heq. rewrite !mult_IZR in Heq.
    apply Rmult_eq_reg_r with (r := (IZR t * 10)%R); [ | lra].
    field_simplify; lra. }
  rewrite Hv in Hr. apply Prim2SF_inj.
  assert (Hcases : k = 1 \/ k = 2 \/ k = 3 \/ k = 4 \/ k = 5 \/ k = 6
                   \/ k = 7 \/ k = 8 \/ k = 9) by lia.
  repeat destruct Hcases as [-> | Hcases]; try subst k;
    match goal with
    | |- _ = Prim2SF ?P =>
        let sf := eval vm_compute in (Prim2SF P) in
        change (Prim2SF P) with sf;
        match sf with
        | S754_finite false ?mP ?eP =>
            let G := eval vm_compute in (eP + 53) in
            change eP with (G - 53);
            apply (rounded_eq _ _ mP G Hr);
            [ lia
            | norm_bpow; lra
            | norm_bpow; apply Rabs_def1; lra ]
        end
    end.
Qed.

(** ** Between two tenths *)

Lemma normal_const (x : float) (m : positive) (e : Z) (v : R) :
  Prim2SF x = S754_finite false m e ->
  2 ^ 52 <= Zpos m < 2 ^ 53 -> - 1074 <= e <= 971 ->
  v = (IZR (Zpos m) * bpow e)%R ->
  normal x v.
Proof. intros HP Hm He Hv. exists m, e. auto. Qed.

Lemma normal_10 : normal 10%float 10%R.
Proof.
  apply (normal_const _ 5629499534213120 (- 49)); [reflexivity | lia | lia | ].
  norm_bpow. lra.
Qed.

Lemma normal_100 : normal 100%float 100%R.
Proof.
  apply (normal_const _ 7036874417766400 (- 46)); [reflexivity | lia | lia | ].
  norm_bpow. lra.
Qed.

(** Between two tenths: the real fraction is at least [2^-32] away from
    both. *)
Lemma between_tenths (k c t : Z) :
  0 < t < 2 ^ 32 -> k * t < 10 * c < (k + 1) * t ->
  (IZR k + / 4294967296 <= 10 * (IZR c / IZR t) <= IZR k + 1 - / 4294967296)%R.
Proof.
  intros Ht [H1 H2].
  assert (HT : (0 < IZR t)%R) by (apply IZR_lt; lia).
  assert (HT2 : (IZR t <= 4294967296)%R)
    by (change 4294967296%R with (IZR (2 ^ 32)); apply IZR_le; lia).
  assert (H1' : k * t + 1 <= 10 * c) by lia.
  assert (H2' : 10 * c + 1 <= (k + 1) * t) by lia.
  apply IZR_le in H1', H2'.
  rewrite plus_IZR, !mult_IZR in H1'. rewrite !plus_IZR, !mult_IZR, plus_IZR in H2'.
  set (K := IZR k) in *. set (C := IZR c) in *. set (T := IZR t) in *.
  assert (Hq : (10 * (C / T) * T = 10 * C)%R) by (field; lra).
  assert (Hi : (/ 4294967296 * T <= 1)%R) by lra.
  split; apply Rmult_le_reg_r with (r := T); try assumption; rewrite Hq; nra.
Qed.

Section Between.

Variables (k c t : Z).
Hypothesis Hk : 0 <= k <= 9.
Hypothesis Hc : 0 < c < 2 ^ 32.
Hypothesis Ht : 0 < t < 2 ^ 32.
Hypothesis Hkt : k * t < 10 * c < (k + 1) * t.

Let p : float := (double_of_uint c / double_of_uint t)%float.

Lemma between_progress :
  exists P, normal p P /\
    ((IZR k + / 4294967296) * (1 - / 9007199254740992) <= 10 * P)%R /\
    (10 * P <= (IZR k + 1 - / 4294967296) * (1 + / 9007199254740992))%R.
Proof.
  destruct (rounded_normal _ _ (progress_rounded c t Hc Ht)) as (P & HP & Hq & Herr).
  pose proof (between_tenths k c t Ht Hkt) as Hb.
  exists P. split; [exact HP | ].
  rewrite bpow_m53 in Herr. apply Rabs_le_both in Herr.
  assert (0 <= IZR k)%R by (apply IZR_le; lia).
  set (q := (IZR c / IZR t)%R) in *.
  split; lra.
Qed.

Lemma between_times_10 :
  exists V, normal (p * 10) V /\ (IZR k <= V < IZR (k + 1))%R.
Proof.
  destruct between_progress as (P & HP & Hlo & Hhi).
  assert (HK : (0 <= IZR k <= 9)%R) by (split; apply IZR_le; lia).
  assert (Hr : rounded (P * 10) (Prim2SF (p * 10))).
  { apply mul_rounded; try assumption; try apply normal_10; norm_bpow; lra. }
  destruct (rounded_normal _ _ Hr) as (V & HV & _ & Herr).
  exists V. split; [exact HV | ].
  rewrite bpow_m53 in Herr. apply Rabs_le_both in Herr.
  rewrite plus_IZR. split; lra.
Qed.

Lemma between_times_100 :
  exists V, normal (p * 100) V /\ (IZR (10 * k) <= V < IZR (10 * k + 10))%R.
Proof.
  destruct between_progress as (P & HP & Hlo & Hhi).
  assert (HK : (0 <= IZR k <= 9)%R) by (split; apply IZR_le; lia).
  assert (Hr : rounded (P * 100) (Prim2SF (p * 100))).
  { apply mul_rounded; try assumption; try apply normal_100; norm_bpow; lra. }
  destruct (rounded_normal _ _ Hr) as (V & HV & _ & Herr).
  exists V. split; [exact HV | ].
  rewrite bpow_m53 in Herr. apply Rabs_le_both in Herr.
  rewrite plus_IZR, mult_IZR. split; lra.
Qed.

Lemma times_10_small (j : Z) :
  0 <= j <= 10 -> double_to_int (double_of_uint j * 10) = Some (10 * j).
Proof.
  intros Hj.
  assert (Hcases : j = 0 \/ j = 1 \/ j = 2 \/ j = 3 \/ j = 4 \/ j = 5 \/ j = 6
                   \/ j = 7 \/ j = 8 \/ j = 9 \/ j = 10) by lia.
  repeat destruct Hcases as [-> | Hcases]; try subst j; vm_compute; reflexivity.
Qed.

(** The gradation index between two tenths. *)
Lemma between_last_fill_idx :
  exists a,
    double_to_int (p * 100) = Some a /\ 10 * k <= a <= 10 * k + 9 /\
    last_fill_idx p = Some (Z.min (a - 10 * k) 6) /\
    double_to_int (d_floor (p * 10) * 10) = Some (10 * k).
Proof.
  destruct between_times_10 as (V10 & HV10 & Hb10).
  destruct between_times_100 as (V100 & HV100 & Hb100).
  destruct (double_to_int_bounds _ _ _ _ HV100 Hb100) as (a & Ha & Hab);
    try (unfold INT_MIN, INT_MAX; lia).
  assert (Hfl : double_to_int (d_floor (p * 10) * 10) = Some (10 * k)).
  { rewrite (d_floor_bounds _ _ k HV10 Hb10) by lia.
    rewrite times_10_small by lia. reflexivity. }
  exists a. split; [exact Ha | ]. split; [lia | ]. split; [ | exact Hfl].
  unfold last_fill_idx. fold p. rewrite Ha, Hfl.
  unfold checked_int, in_int_range, INT_MIN, INT_MAX.
  replace ((- 2 ^ 31 <=? a - 10 * k) && (a - 10 * k <=? 2 ^ 31 - 1)) with true;
    [reflexivity | ].
  symmetry. apply andb_true_iff. split; apply Z.leb_le; lia.
Qed.

End Between.

(** ** std::round *)

(** A set bit just below the binary point: the fraction is at least a
    half. *)
Lemma testbit_half (m k : Z) :
  0 < k -> 0 <= m -> Z.testbit m (k - 1) = true ->
  2 ^ k * (2 * (m / 2 ^ k) + 1) <= 2 * m.
Proof.
  intros Hk Hm Hbit.
  apply Z.testbit_true in Hbit; [ | lia].
  assert (Hp : 0 < 2 ^ (k - 1)) by (apply Z.pow_pos_nonneg; lia).
  assert (Hk2 : 2 ^ k = 2 * 2 ^ (k - 1)).
  { replace k with (1 + (k - 1)) at 1 by lia. rewrite Z.pow_add_r by lia. reflexivity. }
  set (h := 2 ^ (k - 1)) in *. clearbody h. rewrite Hk2.
  rewrite (Z.mul_comm 2 h), <- Z.div_div by lia.
  pose proof (Z.div_mod m h ltac:(lia)) as H1.
  pose proof (Z.mod_pos_bound m h Hp) as H2.
  pose proof (Z.div_mod (m / h) 2 ltac:(lia)) as H3.
  rewrite Hbit in H3.
  set (a := m / h) in *. set (q := a / 2) in *. clearbody a q. nia.
Qed.

(** [std::round] of a positive double: never above the integer it is less
    than a half above. *)
Lemma d_round_bounds (x : float) (v : R) (n : Z) :
  normal x v -> (v < IZR n + / 2)%R -> 0 <= n < 2 ^ 51 ->
  exists j, d_round x = double_of_uint j /\ 0 <= j <= n.
Proof.
  intros (m & e & HP & Hm & He & ->) Hv Hn.
  assert (He0 : e < 0).
  { apply (normal_small_exponent m e Hm). rewrite bpow_52.
    assert (n + 1 <= 2 ^ 51) as Hn' by lia.
    apply IZR_le in Hn'. rewrite plus_IZR in Hn'.
    change (IZR (2 ^ 51)) with 2251799813685248%R in Hn'. lra. }
  unfold d_round. rewrite HP.
  replace (0 <=? e) with false by (symmetry; apply Z.leb_gt; lia).
  rewrite Z.shiftl_div_pow2 by lia.
  set (k := - e) in *. assert (Hk : 0 < k) by (unfold k; lia).
  assert (HT : 0 < 2 ^ k) by (apply Z.pow_pos_nonneg; lia).
  replace (- e - 1) with (k - 1) by (unfold k; lia).
  (* the value as a quotient *)
  replace e with (- k) in Hv by (unfold k; lia).
  rewrite bpow_opp, (bpow_IZR k) in Hv by lia.
  assert (HrT : (0 < IZR (2 ^ k))%R) by (apply IZR_lt; assumption).
  assert (Hm2 : 2 * Zpos m < 2 ^ k * (2 * n + 1)).
  { apply lt_IZR. rewrite !mult_IZR, plus_IZR, mult_IZR.
    apply Rmult_lt_compat_r with (r := IZR (2 ^ k)) in Hv; [ | assumption].
    rewrite Rmult_assoc, Rinv_l in Hv by lra. lra. }
  pose proof (Z.div_mod (Zpos m) (2 ^ k) ltac:(lia)) as Hdm.
  pose proof (Z.mod_pos_bound (Zpos m) (2 ^ k) HT) as Hmb.
  assert (Hq0 : 0 <= Zpos m / 2 ^ k) by (apply Z.div_pos; lia).
  destruct (Z.testbit (Zpos m) (k - 1)) eqn:Hbit.
  - pose proof (testbit_half (Zpos m) k Hk ltac:(lia) Hbit) as Hh.
    exists (Zpos m / 2 ^ k + 1). split; [reflexivity | ].
    set (q := Zpos m / 2 ^ k) in *. set (T := 2 ^ k) in *. clearbody q T. nia.
  - exists (Zpos m / 2 ^ k). split; [reflexivity | ].
    set (q := Zpos m / 2 ^ k) in *. set (T := 2 ^ k) in *.
    set (r := Zpos m mod T) in *. clearbody q T r. nia.
Qed.

(** ** The count of full blocks *)

Lemma normal_finite (x : float) (v : R) :
  normal x v -> exists m e, Prim2SF x = S754_finite false m e.
Proof. intros (m & e & HP & _). exists m, e. exact HP. Qed.

Lemma div_zero_l (y : float) (v : R) : normal y v -> (0 / y)%float = 0%float.
Proof.
  intros Hy. destruct (normal_finite _ _ Hy) as (m & e & HP).
  apply Prim2SF_inj. rewrite FloatAxioms.div_spec, HP. reflexivity.
Qed.

Lemma mul_zero_l (y : float) (v : R) : normal y v -> (0 * y)%float = 0%float.
Proof.
  intros Hy. destruct (normal_finite _ _ Hy) as (m & e & HP).
  apply Prim2SF_inj. rewrite FloatAxioms.mul_spec, HP. reflexivity.
Qed.

Lemma mul_zero_r (x : float) (v : R) : normal x v -> (x * 0)%float = 0%float.
Proof.
  intros Hx. destruct (normal_finite _ _ Hx) as (m & e & HP).
  apply Prim2SF_inj. rewrite FloatAxioms.mul_spec, HP. reflexivity.
Qed.

(** The progress fraction of a bar under way, as a real number. *)
Lemma progress_normal (c t : Z) :
  0 < c <= t -> t < 2 ^ 32 ->
  exists P, normal (double_of_uint c / double_of_uint t) P /\
    (/ 8589934592 <= P <= 1 + / 9007199254740992)%R.
Proof.
  intros Hc Ht.
  destruct (rounded_normal _ _ (progress_rounded c t ltac:(lia) ltac:(lia)))
    as (P & HP & Hq & Herr).
  exists P. split; [exact HP | ].
  rewrite bpow_m53 in Herr. apply Rabs_le_both in Herr.
  assert (HT : (0 < IZR t)%R) by (apply IZR_lt; lia).
  assert (Hq1 : (IZR c / IZR t <= 1)%R).
  { apply Rmult_le_reg_r with (r := IZR t); [assumption | ].
    unfold Rdiv. rewrite Rmult_assoc, Rinv_l by lra.
    assert (IZR c <= IZR t)%R by (apply IZR_le; lia). lra. }
  assert (Hq2 : (/ 4294967296 <= IZR c / IZR t)%R).
  { apply Rmult_le_reg_r with (r := IZR t); [assumption | ].
    unfold Rdiv. rewrite Rmult_assoc, Rinv_l by lra.
    assert (1 <= IZR c)%R by (apply IZR_le; lia).
    assert (IZR t <= 4294967296)%R
      by (change 4294967296%R with (IZR (2 ^ 32)); apply IZR_le; lia).
    lra. }
  split; lra.
Qed.

(** The count of full blocks is defined and never above the width. *)
Lemma num_filled_defined (c t bar_size : Z) :
  0 <= c <= t -> 0 < t < 2 ^ 32 -> 0 <= bar_size <= INT_MAX ->
  exists nf,
    num_filled_of (double_of_uint c / double_of_uint t) bar_size = Some nf /\
    0 <= nf <= bar_size.
Proof.
  intros Hc Ht Hb. unfold INT_MAX in Hb.
  assert (Hwrap : forall j, 0 <= j <= bar_size ->
            match double_to_int (double_of_uint j) with
            | Some z => Some (wrap z)
            | None => None
            end = Some j).
  { intros j Hj. rewrite double_to_int_of_uint by (unfold INT_MAX; lia).
    rewrite wrap_small by (unfold is_uint, UINT_MODULUS; lia). reflexivity. }
  destruct (Z.eq_dec c 0) as [-> | Hc0].
  - (* no step taken: the fraction is zero *)
    exists 0. split; [ | lia]. unfold num_filled_of.
    change (double_of_uint 0) with 0%float.
    rewrite (div_zero_l _ _ (normal_of_uint t ltac:(lia))).
    destruct (Z.eq_dec bar_size 0) as [-> | Hb0]; [vm_compute; reflexivity | ].
    rewrite (mul_zero_l _ _ (normal_of_uint bar_size ltac:(lia))).
    vm_compute. reflexivity.
  - destruct (progress_normal c t ltac:(lia) ltac:(lia)) as (P & HP & HPb).
    destruct (Z.eq_dec bar_size 0) as [-> | Hb0].
    + exists 0. split; [ | lia]. unfold num_filled_of.
      change (double_of_uint 0) with 0%float.
      rewrite (mul_zero_r _ _ HP). vm_compute. reflexivity.
    + assert (HB : (1 <= IZR bar_size <= 2147483647)%R).
      { split; [apply IZR_le; lia | ].
        change 2147483647%R with (IZR (2 ^ 31 - 1)). apply IZR_le. lia. }
      assert (Hr : rounded (P * IZR bar_size)
                     (Prim2SF (double_of_uint c / double_of_uint t
                               * double_of_uint bar_size))).
      { apply mul_rounded; try assumption; try (apply normal_of_uint; lia);
          norm_bpow; lra. }
      destruct (rounded_normal _ _ Hr) as (V & HV & _ & Herr).
      rewrite bpow_m53 in Herr. apply Rabs_le_both in Herr.
      assert (HPB : (P * IZR bar_size <= (1 + / 9007199254740992) * IZR bar_size)%R)
        by (apply Rmult_le_compat_r; lra).
      assert (HPB0 : (0 <= P * IZR bar_size)%R)
        by (apply Rmult_le_pos; lra).
      destruct (d_round_bounds _ V bar_size HV) as (j & Hj & Hjb); [ | lia | ].
      * set (PB := (P * IZR bar_size)%R) in *. lra.
      * exists j. split; [ | lia]. unfold num_filled_of. rewrite Hj.
        apply Hwrap. lia.
Qed.

(** ** The gradation index *)

Lemma get_fill_value_partial (idx : Z) :
  0 <= idx <= 6 -> get_fill_value idx <> FULL_BLOCK.
Proof.
  intros H.
  assert (Hcases : idx = 0 \/ idx = 1 \/ idx = 2 \/ idx = 3 \/ idx = 4
                   \/ idx = 5 \/ idx = 6) by lia.
  repeat destruct Hcases as [-> | Hcases]; try subst idx; discriminate.
Qed.

(** The gradation index for every reachable progress fraction. *)
Lemma last_fill_idx_reachable (c t : Z) :
  0 <= c <= t -> 0 < t < 2 ^ 32 ->
  exists a idx,
    double_to_int (double_of_uint c / double_of_uint t * 100) = Some a /\
    last_fill_idx (double_of_uint c / double_of_uint t) = Some idx /\
    0 <= a <= 100 /\
    idx = Z.min (a - 10 * (a / 10)) 6 /\
    double_to_int (d_floor (double_of_uint c / double_of_uint t * 10) * 10)
      = Some (10 * (a / 10)).
Proof.
  intros Hc Ht.
  destruct (Z.eq_dec c 0) as [-> | Hc0].
  { change (double_of_uint 0) with 0%float.
    rewrite (div_zero_l _ _ (normal_of_uint t ltac:(lia))).
    exists 0, 0. vm_compute. repeat split; discriminate. }
  destruct (Z.eq_dec c t) as [-> | Hct].
  { rewrite div_self_of_uint by lia.
    exists 100, 0. vm_compute. repeat split; discriminate. }
  pose proof (Z.div_mod (10 * c) t ltac:(lia)) as Hdm.
  pose proof (Z.mod_pos_bound (10 * c) t ltac:(lia)) as Hmb.
  set (k := 10 * c / t) in *. set (r := (10 * c) mod t) in *.
  assert (Hk : 0 <= k <= 9).
  { split; [apply Z.div_pos; lia | ].
    assert (k < 10) by (apply Z.div_lt_upper_bound; lia). lia. }
  clearbody k r.
  destruct (Z.eq_dec r 0) as [-> | Hr].
  - (* an exact tenth *)
    assert (Hk1 : 1 <= k <= 9) by nia.
    rewrite (tenth_exact k c t Hk1) by lia.
    assert (Hcases : k = 1 \/ k = 2 \/ k = 3 \/ k = 4 \/ k = 5 \/ k = 6
                     \/ k = 7 \/ k = 8 \/ k = 9) by lia.
    clear Hdm.
    repeat destruct Hcases as [-> | Hcases]; try subst k;
      eexists; eexists; (split; [vm_compute; reflexivity | ]);
      (split; [vm_compute; reflexivity | ]); vm_compute;
      repeat split; discriminate.
  - destruct (between_last_fill_idx k c t Hk ltac:(lia) Ht ltac:(nia))
      as (a & Ha & Hab & Hidx & Hfl).
    assert (Hq : a / 10 = k).
    { symmetry. apply Z.div_unique with (r := a - 10 * k); lia. }
    exists a, (Z.min (a - 10 * k) 6).
    split; [exact Ha | ]. split; [exact Hidx | ]. split; [lia | ].
    rewrite Hq. split; [reflexivity | exact Hfl].
Qed.


(** * Bars that can be drawn *)

Section Drawable.

Lemma drawable_progress (pb : ProgressBar) :
  drawable pb ->
  0 <= current_step_ pb <= total_steps_ pb /\ 0 < total_steps_ pb < 2 ^ 32.
Proof. intros (H1 & H2 & _). unfold UINT_MODULUS in H2. auto. Qed.

(** [print_bar] is defined on every bar that can be drawn. *)
Lemma print_bar_drawable (pb : ProgressBar) (ss : string) :
  drawable pb -> exists out, print_bar pb ss (progress_of pb) = Some out.
Proof.
  intros Hd. destruct (drawable_progress pb Hd) as [Hc Ht].
  destruct Hd as (_ & _ & Hb). unfold progress_of.
  destruct (num_filled_defined _ _ _ Hc Ht Hb) as (nf & Hnf & _).
  destruct (last_fill_idx_reachable _ _ Hc Ht) as (a & idx & _ & Hidx & _).
  eexists. apply (print_bar_defined pb ss _ nf idx Hnf Hidx).
Qed.

Lemma line_of_drawable (pb : ProgressBar) (t : float) :
  drawable pb -> exists line, line_of pb t = Some line.
Proof.
  intros Hd. unfold line_of.
  destruct (print_bar_drawable pb (header pb) Hd) as (out & ->).
  eexists. reflexivity.
Qed.

Lemma update_display_drawable (pb : ProgressBar) (w : World) :
  drawable pb ->
  exists w' line, update_display pb w = Some (tt, w') /\ painted (os_ pb) line w w'.
Proof.
  intros Hd.
  destruct (line_of_drawable pb
              (elapsed_seconds (start_ (chronometer_ pb)) (clock w (reads w))) Hd)
    as (line & Hl).
  destruct (update_display_defined pb w line Hl) as (w' & Hu & Hp).
  exists w', line. split; assumption.
Qed.

Lemma clamp_step_nonneg (pb : ProgressBar) (steps : Z) :
  0 <= total_steps_ pb -> 0 <= clamp_step pb steps.
Proof.
  intros Ht. unfold clamp_step.
  destruct (uadd (current_step_ pb) steps >? total_steps_ pb); [exact Ht | ].
  unfold uadd, wrap. apply Z.mod_pos_bound. reflexivity.
Qed.

(** [update] is defined on every bar that can be drawn, whatever its
    arguments and the clock, and leaves a bar that can be drawn. *)
Lemma update_drawable (steps : Z) (force : bool) (pb : ProgressBar) (w : World) :
  drawable pb ->
  exists pb' w', update steps force pb w = Some (pb', w') /\ drawable pb'.
Proof.
  intros Hd.
  assert (Hd1 : drawable (with_current_step pb (clamp_step pb steps))).
  { destruct Hd as (Hc & Ht & Hb). unfold drawable.
    cbn [with_current_step current_step_ total_steps_ bar_size_].
    split; [ | split; assumption].
    split; [apply clamp_step_nonneg; lia | apply clamp_step_le]. }
  destruct (repaint_due pb force w) eqn:Hdue.
  - rewrite update_paint by assumption. cbv zeta.
    set (pb' := with_refresh _ _).
    assert (Hd' : drawable pb') by exact Hd1.
    destruct (update_display_drawable pb' (mk_World (clock w) (S (S (reads w))) (streams w)) Hd')
      as (w' & line & Hu & _).
    rewrite Hu. exists pb', w'. split; [reflexivity | exact Hd'].
  - rewrite update_skip by assumption. eexists. eexists. split; [reflexivity | exact Hd1].
Qed.

Lemma new_drawable (total_steps : Z) (w : World) :
  0 < total_steps < UINT_MODULUS ->
  exists pb w', new total_steps w = Some (pb, w') /\ drawable pb.
Proof.
  intros Ht. eexists. eexists. split; [reflexivity | ].
  unfold drawable. cbn [current_step_ total_steps_ bar_size_].
  unfold INT_MAX. repeat split; lia.
Qed.

End Drawable.

(** * Comparing doubles *)

Section Compare.

Lemma SFcompare_normal (m1 m2 : positive) (e1 e2 : Z) :
  2 ^ 52 <= Zpos m1 < 2 ^ 53 -> 2 ^ 52 <= Zpos m2 < 2 ^ 53 ->
  SFcompare (S754_finite false m1 e1) (S754_finite false m2 e2)
  = Some (Rcompare_of (IZR (Zpos m1) * bpow e1) (IZR (Zpos m2) * bpow e2)).
Proof.
  intros H1 H2. unfold Rcompare_of. cbn [SFcompare].
  pose proof (normal_magnitude m1 e1 H1) as Hv1.
  pose proof (normal_magnitude m2 e2 H2) as Hv2.
  set (v1 := (IZR (Zpos m1) * bpow e1)%R) in *.
  set (v2 := (IZR (Zpos m2) * bpow e2)%R) in *.
  destruct (Z.compare_spec e1 e2) as [He | He | He].
  - subst e2. pose proof (bpow_pos e1) as Hp.
    change (Pos.compare_cont Eq m1 m2) with (Pos.compare m1 m2).
    destruct (Pos.compare_spec m1 m2) as [Hm | Hm | Hm].
    + subst m2. destruct (Rlt_dec v1 v2); [unfold v1, v2 in *; lra | ].
      destruct (Rlt_dec v2 v1); [unfold v1, v2 in *; lra | reflexivity].
    + assert (v1 < v2)%R.
      { unfold v1, v2. apply Rmult_lt_compat_r; [assumption | ].
        apply IZR_lt. lia. }
      destruct (Rlt_dec v1 v2); [reflexivity | contradiction].
    + assert (v2 < v1)%R.
      { unfold v1, v2. apply Rmult_lt_compat_r; [assumption | ].
        apply IZR_lt. lia. }
      destruct (Rlt_dec v1 v2); [lra | ].
      destruct (Rlt_dec v2 v1); [reflexivity | contradiction].
  - pose proof (bpow_le (53 + e1) (52 + e2) ltac:(lia)).
    destruct (Rlt_dec v1 v2); [reflexivity | lra].
  - pose proof (bpow_le (53 + e2) (52 + e1) ltac:(lia)).
    destruct (Rlt_dec v1 v2); [lra | ].
    destruct (Rlt_dec v2 v1); [reflexivity | lra].
Qed.

(** On normal doubles [<] is the order of the values. *)
Lemma ltb_normal (x y : float) (vx vy : R) :
  normal x vx -> normal y vy ->
  (x <? y)%float = true <-> (vx < vy)%R.
Proof.
  intros (m1 & e1 & HP1 & Hm1 & _ & ->) (m2 & e2 & HP2 & Hm2 & _ & ->).
  rewrite FloatAxioms.ltb_spec, HP1, HP2. unfold SFltb.
  rewrite (SFcompare_normal m1 m2 e1 e2 Hm1 Hm2). unfold Rcompare_of.
  destruct (Rlt_dec _ _) as [Hlt | Hnlt]; [tauto | ].
  destruct (Rlt_dec _ _); split; intros; try discriminate; contradiction.
Qed.

Lemma leb_normal (x y : float) (vx vy : R) :
  normal x vx -> normal y vy ->
  (x <=? y)%float = true <-> (vx <= vy)%R.
Proof.
  intros (m1 & e1 & HP1 & Hm1 & _ & ->) (m2 & e2 & HP2 & Hm2 & _ & ->).
  rewrite FloatAxioms.leb_spec, HP1, HP2. unfold SFleb.
  rewrite (SFcompare_normal m1 m2 e1 e2 Hm1 Hm2). unfold Rcompare_of.
  destruct (Rlt_dec _ _) as [Hlt | Hnlt]; [split; [lra | reflexivity] | ].
  destruct (Rlt_dec _ _); split; intros; try discriminate; try reflexivity; lra.
Qed.

(** Zero is below every normal double. *)
Lemma zero_leb_normal (x : float) (v : R) : normal x v -> (0 <=? x)%float = true.
Proof.
  intros (m & e & HP & _). rewrite FloatAxioms.leb_spec, HP. reflexivity.
Qed.

Lemma normal_ltb_zero (x y : float) (v : R) :
  normal x v -> Prim2SF y = S754_zero false -> (x <? y)%float = false.
Proof.
  intros (m & e & HP & _) Hy. rewrite FloatAxioms.ltb_spec, HP, Hy. reflexivity.
Qed.

End Compare.

(** * Time *)

Section Time.

Lemma normal_ticks_per_second : normal TICKS_PER_SECOND 1000000000%R.
Proof.
  apply (normal_const _ 8388608000000000 (- 23)); [reflexivity | lia | lia | ].
  norm_bpow. lra.
Qed.

(** The value of the double nearest to one tenth. *)
Lemma normal_default_min_time :
  normal DEFAULT_MIN_TIME (7205759403792794 / 72057594037927936)%R.
Proof.
  apply (normal_const _ 7205759403792794 (- 56)); [reflexivity | lia | lia | ].
  norm_bpow. lra.
Qed.

Lemma double_of_ticks_nonneg (d : Z) : 0 <= d -> double_of_ticks d = double_of_uint d.
Proof.
  intros H. unfold double_of_ticks.
  destruct (d <? 0) eqn:E; [apply Z.ltb_lt in E; lia | reflexivity].
Qed.

Lemma IZR_ticks_bounds (d : Z) :
  0 < d < 2 ^ 53 -> (bpow (- 100) <= IZR d <= bpow 100)%R.
Proof.
  intros [H1 H2]. norm_bpow.
  assert (1 <= d) as H1' by lia. apply IZR_le in H1'. apply IZR_lt in H2.
  change (IZR (2 ^ 53)) with 9007199254740992%R in H2. lra.
Qed.

Lemma elapsed_seconds_same (t : time_point_t) : elapsed_seconds t t = 0%float.
Proof. unfold elapsed_seconds. rewrite Z.sub_diag. reflexivity. Qed.

Lemma elapsed_seconds_rounded (from to : time_point_t) :
  0 < to - from < 2 ^ 53 ->
  rounded (IZR (to - from) / 1000000000) (Prim2SF (elapsed_seconds from to)).
Proof.
  intros Hd. unfold elapsed_seconds. rewrite double_of_ticks_nonneg by lia.
  apply div_rounded.
  - apply normal_of_uint. exact Hd.
  - apply normal_ticks_per_second.
  - apply IZR_ticks_bounds. exact Hd.
  - norm_bpow. lra.
Qed.

Lemma elapsed_seconds_normal (from to : time_point_t) :
  0 < to - from < 2 ^ 53 ->
  exists V : R,
    normal (elapsed_seconds from to) V /\
    (Rabs (V - IZR (to - from) / 1000000000)
       <= IZR (to - from) / 1000000000 * / 9007199254740992)%R.
Proof.
  intros Hd.
  destruct (rounded_normal _ _ (elapsed_seconds_rounded from to Hd)) as (V & HV & _ & He).
  rewrite bpow_m53 in He. exists V. split; assumption.
Qed.

(** The default interval, in ticks of the clock: a reading is later than
    the interval exactly when more than [10^8] ticks have passed. *)
Lemma default_interval_in_ticks (from to : time_point_t) :
  0 <= to - from < 2 ^ 53 ->
  (DEFAULT_MIN_TIME <? elapsed_seconds from to)%float = (100000000 <? to - from).
Proof.
  intros Hd.
  destruct (Z.eq_dec (to - from) 0) as [H0 | H0].
  { unfold elapsed_seconds. rewrite H0. reflexivity. }
  destruct (Z.eq_dec (to - from) 100000000) as [H1 | H1].
  { unfold elapsed_seconds. rewrite H1. reflexivity. }
  destruct (elapsed_seconds_normal from to ltac:(lia)) as (V & HV & He).
  apply Rabs_le_both in He.
  pose proof (ltb_normal _ _ _ _ normal_default_min_time HV) as Hlt.
  destruct (Z.ltb_spec 100000000 (to - from)) as [Hgt | Hle].
  - apply Hlt. assert (H : 100000001 <= to - from) by lia.
    apply IZR_le in H. lra.
  - destruct (DEFAULT_MIN_TIME <? elapsed_seconds from to)%float eqn:E; [ | reflexivity].
    exfalso. assert (Hc : (7205759403792794 / 72057594037927936 < V)%R) by (apply Hlt; reflexivity).
    assert (H : to - from <= 99999999) by lia.
    apply IZR_le in H.
    assert (H' : (0 < IZR (to - from))%R) by (apply IZR_lt; lia).
    lra.
Qed.

(** The elapsed time does not decrease with the reading. *)
Lemma elapsed_seconds_monotone (from t1 t2 : time_point_t) :
  from <= t1 -> t1 <= t2 -> t2 - from < 2 ^ 52 ->
  (elapsed_seconds from t1 <=? elapsed_seconds from t2)%float = true.
Proof.
  intros H0 H12 Hb.
  destruct (Z.eq_dec t1 t2) as [-> | Hne].
  { destruct (Z.eq_dec (t2 - from) 0) as [Hz | Hz].
    - unfold elapsed_seconds. rewrite Hz. reflexivity.
    - destruct (elapsed_seconds_normal from t2 ltac:(lia)) as (V & HV & _).
      apply (leb_normal _ _ _ _ HV HV). lra. }
  destruct (elapsed_seconds_normal from t2 ltac:(lia)) as (V2 & HV2 & He2).
  destruct (Z.eq_dec (t1 - from) 0) as [Hz | Hz].
  { unfold elapsed_seconds at 1. rewrite Hz.
    change (double_of_ticks 0 / TICKS_PER_SECOND)%float with 0%float.
    apply (zero_leb_normal _ _ HV2). }
  destruct (elapsed_seconds_normal from t1 ltac:(lia)) as (V1 & HV1 & He1).
  apply (leb_normal _ _ _ _ HV1 HV2).
  apply Rabs_le_both in He1. apply Rabs_le_both in He2.
  assert (Ha : 1 <= t1 - from) by lia. apply IZR_le in Ha.
  assert (Hs : t1 - from + 1 <= t2 - from) by lia. apply IZR_le in Hs.
  rewrite plus_IZR in Hs.
  assert (Hu : t2 - from <= 4503599627370496) by lia. apply IZR_le in Hu.
  lra.
Qed.

End Time.

(** * Two calls in a row *)

Section BackToBack.

(** C6, as the code has it.  With the interval of the constructor (0.1 s)
    and without [force], two [update(1)] calls made back to back, no more
    than a tenth of a second ([10^8] ticks) after the refresh stopwatch was
    started (at construction, or at the last repaint), are both defined and
    write nothing: not one repaint for the pair but none, the first call
    being throttled like the second; each call still counts its step.  With
    [force] both calls repaint, whatever the clock. *)
Theorem two_updates_back_to_back (pb : ProgressBar) (w : World) :
  drawable pb ->
  min_time_per_update_ pb = DEFAULT_MIN_TIME ->
  start_ (refresh_ pb) <= clock w (reads w) ->
  clock w (reads w) <= clock w (S (reads w)) ->
  clock w (S (reads w)) - start_ (refresh_ pb) <= 100000000 ->
  (exists pb1 w1 pb2 w2,
     update 1 false pb w = Some (pb1, w1)
     /\ update 1 false pb1 w1 = Some (pb2, w2)
     /\ repaints w1 (os_ pb) = repaints w (os_ pb)
     /\ repaints w2 (os_ pb) = repaints w (os_ pb)
     /\ streams w2 = streams w
     /\ current_step_ pb1 = clamp_step pb 1
     /\ current_step_ pb2 = clamp_step pb1 1)
  /\
  (exists pb1 w1 pb2 w2,
     update 1 true pb w = Some (pb1, w1)
     /\ update 1 true pb1 w1 = Some (pb2, w2)
     /\ repaints w1 (os_ pb) = S (repaints w (os_ pb))
     /\ repaints w2 (os_ pb) = S (S (repaints w (os_ pb)))).
Proof.
  intros Hd Hm H0 H1 H2. split.
  - set (pb1 := with_current_step pb (clamp_step pb 1)).
    set (w1 := mk_World (clock w) (S (reads w)) (streams w)).
    assert (Hdue1 : repaint_due pb false w = false).
    { unfold repaint_due. rewrite Hm, default_interval_in_ticks by lia.
      rewrite orb_false_r. apply Z.ltb_ge. lia. }
    assert (Hdue2 : repaint_due pb1 false w1 = false).
    { unfold repaint_due.
      cbn [pb1 w1 with_current_step min_time_per_update_ refresh_ clock reads].
      rewrite Hm, default_interval_in_ticks by lia.
      rewrite orb_false_r. apply Z.ltb_ge. lia. }
    exists pb1, w1, (with_current_step pb1 (clamp_step pb1 1)),
           (mk_World (clock w1) (S (reads w1)) (streams w1)).
    split; [apply (update_skip _ _ _ _ Hdue1) | ].
    split; [apply (update_skip _ _ _ _ Hdue2) | ].
    repeat split; reflexivity.
  - destruct (update_drawable 1 true pb w Hd) as (pb1 & w1 & Hu1 & Hd1).
    destruct (update_drawable 1 true pb1 w1 Hd1) as (pb2 & w2 & Hu2 & _).
    destruct (update_repaints _ _ _ _ _ _ Hu1) as [R1 O1].
    destruct (update_repaints _ _ _ _ _ _ Hu2) as [R2 _].
    rewrite O1 in R2.
    unfold repaint_due in R1, R2. rewrite orb_true_r in R1, R2.
    exists pb1, w1, pb2, w2.
    split; [exact Hu1 | ]. split; [exact Hu2 | ]. split; lia.
Qed.

Lemma two_updates_back_to_back_witness :
  (exists pb1 w1 pb2 w2,
     update 1 false pb4 w_fast = Some (pb1, w1)
     /\ update 1 false pb1 w1 = Some (pb2, w2)
     /\ repaints w1 (os_ pb4) = repaints w_fast (os_ pb4)
     /\ repaints w2 (os_ pb4) = repaints w_fast (os_ pb4)
     /\ streams w2 = streams w_fast
     /\ current_step_ pb1 = clamp_step pb4 1
     /\ current_step_ pb2 = clamp_step pb1 1)
  /\
  (exists pb1 w1 pb2 w2,
     update 1 true pb4 w_fast = Some (pb1, w1)
     /\ update 1 true pb1 w1 = Some (pb2, w2)
     /\ repaints w1 (os_ pb4) = S (repaints w_fast (os_ pb4))
     /\ repaints w2 (os_ pb4) = S (S (repaints w_fast (os_ pb4)))).
Proof.
  apply two_updates_back_to_back.
  - vm_compute. repeat split; discriminate.
  - reflexivity.
  - vm_compute. discriminate.
  - vm_compute. discriminate.
  - vm_compute. discriminate.
Defined.

(** X21: when the refresh stopwatch has passed the interval of the
    constructor before the first of two unforced [update(1)] calls, and the
    second call reads the clock no more than [10^8] ticks after the first
    call restarted the stopwatch, the pair makes exactly one repaint: the
    first call repaints and the second is throttled, writing nothing. *)
Theorem second_update_throttled (pb : ProgressBar) (w : World) :
  drawable pb ->
  min_time_per_update_ pb = DEFAULT_MIN_TIME ->
  100000000 < clock w (reads w) - start_ (refresh_ pb) < 2 ^ 53 ->
  0 <= clock w (S (S (S (reads w)))) - clock w (S (reads w)) <= 100000000 ->
  exists pb1 w1 pb2 w2,
    update 1 false pb w = Some (pb1, w1)
    /\ update 1 false pb1 w1 = Some (pb2, w2)
    /\ repaints w1 (os_ pb) = S (repaints w (os_ pb))
    /\ repaints w2 (os_ pb) = S (repaints w (os_ pb))
    /\ streams w2 = streams w1.
Proof.
  intros Hd Hm Hb1 Hb2.
  destruct (update_drawable 1 false pb w Hd) as (pb1 & w1 & Hu1 & _).
  assert (Hdue1 : repaint_due pb false w = true).
  { unfold repaint_due. rewrite Hm, default_interval_in_ticks by lia.
    rewrite orb_false_r. apply Z.ltb_lt. lia. }
  destruct (update_inv _ _ _ _ _ _ Hu1)
    as [(Hno & _) | (_ & Hpb1 & line & _ & Hp)]; [congruence | ].
  pose proof (painted_repaints _ _ _ _ Hp) as R1.
  destruct Hp as (Hc & Hr & _). cbn [clock reads] in Hc, Hr.
  assert (Hdue2 : repaint_due pb1 false w1 = false).
  { unfold repaint_due. rewrite Hpb1.
    cbn [with_refresh with_current_step min_time_per_update_ refresh_ start_].
    rewrite Hm, Hc, Hr, default_interval_in_ticks by lia.
    rewrite orb_false_r. apply Z.ltb_ge. lia. }
  exists pb1, w1, (with_current_step pb1 (clamp_step pb1 1)),
         (mk_World (clock w1) (S (reads w1)) (streams w1)).
  split; [exact Hu1 | ]. split; [apply (update_skip _ _ _ _ Hdue2) | ].
  split; [rewrite R1; reflexivity | ]. split; [ | reflexivity].
  unfold repaints at 1. cbn [streams]. fold (repaints w1 (os_ pb)).
  rewrite R1. reflexivity.
Qed.

Lemma second_update_throttled_witness :
  exists pb1 w1 pb2 w2,
    update 1 false pb4 w_pause = Some (pb1, w1)
    /\ update 1 false pb1 w1 = Some (pb2, w2)
    /\ repaints w1 (os_ pb4) = S (repaints w_pause (os_ pb4))
    /\ repaints w2 (os_ pb4) = S (repaints w_pause (os_ pb4))
    /\ streams w2 = streams w1.
Proof.
  apply second_update_throttled.
  - vm_compute. repeat split; discriminate.
  - reflexivity.
  - vm_compute. split; reflexivity.
  - vm_compute. split; discriminate.
Defined.

End BackToBack.

(** * Programs over the public interface *)

(** Arguments the interface accepts without leaving the range of [int] in
    [print_bar]: a width is converted to [int] there. *)
Definition admissible (o : operation) : Prop :=
  match o with
  | OpSetBarSize size => 0 <= size <= INT_MAX
  | _ => True
  end.

(** A sequence of calls on one bar. *)
Fixpoint run_all (ops : list operation) (pb : ProgressBar) : M ProgressBar :=
  match ops with
  | [] => ret pb
  | o :: rest => pb <- run o pb ;; run_all rest pb
  end.

(** [n] calls of [update()]. *)
Fixpoint update_times (n : nat) (pb : ProgressBar) : M ProgressBar :=
  match n with
  | O => ret pb
  | S k => pb <- update_one pb ;; update_times k pb
  end.

(** What a computation may do to the environment: read the clock and append
    to streams. *)
Definition extends (w w' : World) : Prop :=
  clock w' = clock w /\
  (reads w <= reads w')%nat /\
  forall r, os_flags (streams w' r) = os_flags (streams w r) /\
            exists added, os_log (streams w' r) = (os_log (streams w r) ++ added)%list.

Section Programs.

Lemma extends_refl (w : World) : extends w w.
Proof.
  split; [reflexivity | ]. split; [lia | ].
  intros r. split; [reflexivity | ]. exists []. rewrite app_nil_r. reflexivity.
Qed.

Lemma extends_trans (w1 w2 w3 : World) : extends w1 w2 -> extends w2 w3 -> extends w1 w3.
Proof.
  intros (Hc1 & Hr1 & Hs1) (Hc2 & Hr2 & Hs2).
  split; [congruence | ]. split; [lia | ].
  intros r. destruct (Hs1 r) as (Hf1 & a1 & Hl1). destruct (Hs2 r) as (Hf2 & a2 & Hl2).
  split; [congruence | ]. exists (a1 ++ a2)%list.
  rewrite Hl2, Hl1, app_assoc. reflexivity.
Qed.

Lemma extends_reads (w : World) (n : nat) :
  extends w (mk_World (clock w) (n + reads w) (streams w)).
Proof.
  split; [reflexivity | ]. split; [cbn; lia | ].
  intros r. split; [reflexivity | ]. exists []. rewrite app_nil_r. reflexivity.
Qed.

Lemma painted_extends (r : stream_ref) (line : string) (w w' : World) :
  painted r line w w' -> extends w w'.
Proof.
  intros (Hc & Hr & Hs). split; [exact Hc | ]. split; [lia | ].
  intros r'. rewrite (Hs r'). destruct (Nat.eqb r' r) eqn:E.
  - apply Nat.eqb_eq in E. subst r'. cbn. split; [reflexivity | ]. eexists. reflexivity.
  - split; [reflexivity | ]. exists []. rewrite app_nil_r. reflexivity.
Qed.

Lemma update_extends (steps : Z) (force : bool) (pb pb' : ProgressBar) (w w' : World) :
  update steps force pb w = Some (pb', w') -> extends w w'.
Proof.
  intros H.
  destruct (update_inv _ _ _ _ _ _ H) as [(_ & _ & ->) | (_ & _ & line & _ & Hp)].
  - apply (extends_reads w 1).
  - apply (extends_trans _ _ _ (extends_reads w 2)). apply (painted_extends _ _ _ _ Hp).
Qed.

Lemma restart_defined (pb : ProgressBar) (w : World) :
  restart pb w =
    Some (with_refresh (with_chronometer pb (mk_Chronometer (clock w (reads w))))
            (mk_Chronometer (clock w (S (reads w)))),
          mk_World (clock w) (S (S (reads w))) (streams w)).
Proof. reflexivity. Qed.

Lemma run_extends (o : operation) (pb pb' : ProgressBar) (w w' : World) :
  run o pb w = Some (pb', w') -> extends w w'.
Proof.
  destruct o; cbn [run]; intros H;
    try (injection H as _ <-; apply extends_refl).
  - apply (update_extends _ _ _ _ _ _ H).
  - apply (update_extends _ _ _ _ _ _ H).
  - apply (update_extends _ _ _ _ _ _ H).
  - rewrite restart_defined in H. injection H as _ <-. apply (extends_reads w 2).
Qed.

Lemma run_drawable (o : operation) (pb : ProgressBar) (w : World) :
  drawable pb -> admissible o ->
  exists pb' w',
    run o pb w = Some (pb', w') /\ drawable pb' /\ total_steps_ pb' = total_steps_ pb.
Proof.
  intros Hd Ha.
  assert (Hu : forall steps force, exists pb' w',
            update steps force pb w = Some (pb', w') /\ drawable pb'
            /\ total_steps_ pb' = total_steps_ pb).
  { intros steps force.
    destruct (update_drawable steps force pb w Hd) as (pb' & w' & Hu & Hd').
    exists pb', w'. split; [exact Hu | ]. split; [exact Hd' | ].
    apply (update_current_step _ _ _ _ _ _ Hu). }
  destruct o; cbn [run].
  - apply Hu.
  - apply Hu.
  - apply Hu.
  - rewrite restart_defined. eexists. eexists.
    split; [reflexivity | ]. split; [exact Hd | reflexivity].
  - eexists. eexists. split; [reflexivity | ]. split; [exact Hd | reflexivity].
  - eexists. eexists. split; [reflexivity | ]. split; [exact Hd | reflexivity].
  - eexists. eexists. split; [reflexivity | ]. split; [ | reflexivity].
    destruct Hd as (Hc & Ht & _). cbn in Ha.
    unfold drawable. cbn [set_bar_size current_step_ total_steps_ bar_size_].
    split; [exact Hc | ]. split; [exact Ht | exact Ha].
  - eexists. eexists. split; [reflexivity | ]. split; [exact Hd | reflexivity].
Qed.

End Programs.

(** * Further properties of the code *)

Section Further.

(** X1: on every bar that can be drawn the casts of [print_bar] are
    defined and the gradation index is [min(a - m, 6)], where [a] is the
    truncation of the double [progress * 100] and [m], the value of
    [floor(progress * 10) * 10], is the largest multiple of 10 not above
    [a].  The index lies in 0..6, so the glyph chosen is never the full
    block. *)
Theorem gradation_index_formula (pb : ProgressBar) :
  drawable pb ->
  exists a m idx,
    double_to_int (progress_of pb * 100) = Some a
    /\ double_to_int (d_floor (progress_of pb * 10) * 10) = Some m
    /\ last_fill_idx (progress_of pb) = Some idx
    /\ m mod 10 = 0 /\ m <= a < m + 10
    /\ idx = Z.min (a - m) 6
    /\ 0 <= idx <= 6
    /\ get_fill_value idx <> FULL_BLOCK.
Proof.
  intros Hd. destruct (drawable_progress pb Hd) as [Hc Ht].
  unfold progress_of.
  destruct (last_fill_idx_reachable _ _ Hc Ht) as (a & idx & Ha & Hidx & Hab & -> & Hm).
  pose proof (Z.div_mod a 10 ltac:(lia)) as Hdm.
  pose proof (Z.mod_pos_bound a 10 ltac:(lia)) as Hmb.
  exists a, (10 * (a / 10)), (Z.min (a - 10 * (a / 10)) 6).
  split; [exact Ha | ]. split; [exact Hm | ]. split; [exact Hidx | ].
  split; [rewrite Z.mul_comm; apply Z.mod_mul; lia | ].
  split; [lia | ]. split; [reflexivity | ].
  assert (Hi : 0 <= Z.min (a - 10 * (a / 10)) 6 <= 6) by lia.
  split; [exact Hi | apply get_fill_value_partial; exact Hi].
Qed.

Lemma gradation_index_formula_witness :
  drawable pb29 /\
  exists a m idx,
    double_to_int (progress_of pb29 * 100) = Some a
    /\ double_to_int (d_floor (progress_of pb29 * 10) * 10) = Some m
    /\ last_fill_idx (progress_of pb29) = Some idx
    /\ m mod 10 = 0 /\ m <= a < m + 10
    /\ idx = Z.min (a - m) 6
    /\ 0 <= idx <= 6
    /\ get_fill_value idx <> FULL_BLOCK.
Proof.
  assert (Hd : drawable pb29) by (vm_compute; repeat split; discriminate).
  split; [exact Hd | ].
  exact (gradation_index_formula pb29 Hd).
Defined.

(** At 29 of 100 steps the double [progress * 100] is just below 29: the
    truncation is 28 and the index is 6. *)
Example gradation_index_at_29 :
  double_to_int (progress_of pb29 * 100) = Some 28
  /\ last_fill_idx (progress_of pb29) = Some 6.
Proof. vm_compute. split; reflexivity. Qed.

(** X2: on a bar with [current_step_ <= total_steps_], a positive total
    and a width that fits an [int], [update] is defined for every step
    count, either value of [force] and every clock: no conversion in
    [print_bar] leaves the range of [int].  It stores the step count of its
    guard, reads the clock at least once, and leaves a bar on which the
    next call is defined as well. *)
Theorem update_total (steps : Z) (force : bool) (pb : ProgressBar) (w : World) :
  drawable pb ->
  exists pb' w',
    update steps force pb w = Some (pb', w')
    /\ drawable pb'
    /\ current_step_ pb' = clamp_step pb steps
    /\ (reads w < reads w')%nat.
Proof.
  intros Hd.
  destruct (update_drawable steps force pb w Hd) as (pb' & w' & Hu & Hd').
  exists pb', w'. split; [exact Hu | ]. split; [exact Hd' | ].
  split; [apply (update_current_step _ _ _ _ _ _ Hu) | ].
  destruct (update_inv _ _ _ _ _ _ Hu) as [(_ & _ & ->) | (_ & _ & line & _ & Hp)].
  - cbn. lia.
  - destruct Hp as (_ & Hr & _). rewrite Hr. cbn. lia.
Qed.

Lemma update_total_witness :
  drawable pb4 /\
  exists pb' w',
    update 3 false pb4 w_slow = Some (pb', w')
    /\ drawable pb'
    /\ current_step_ pb' = clamp_step pb4 3
    /\ (reads w_slow < reads w')%nat.
Proof.
  assert (Hd : drawable pb4) by (vm_compute; repeat split; discriminate).
  split; [exact Hd | ].
  exact (update_total 3 false pb4 w_slow Hd).
Defined.

(** X3: every sequence of calls of the public interface ([update] with
    any arguments, [update()], [fill], [restart] and the four setters, a
    width being at most [INT_MAX]) is defined on a bar that can be drawn,
    keeps [current_step_ <= total_steps_] and never changes
    [total_steps_]. *)
Theorem run_all_defined (ops : list operation) :
  forall (pb : ProgressBar) (w : World),
    drawable pb -> Forall admissible ops ->
    exists pb' w',
      run_all ops pb w = Some (pb', w')
      /\ drawable pb' /\ total_steps_ pb' = total_steps_ pb.
Proof.
  induction ops as [ | o rest IH]; intros pb w Hd Ha.
  - exists pb, w. split; [reflexivity | ]. split; [exact Hd | reflexivity].
  - inversion Ha as [ | o' l Ho Hrest]; subst.
    destruct (run_drawable o pb w Hd Ho) as (pb1 & w1 & H1 & Hd1 & Ht1).
    destruct (IH pb1 w1 Hd1 Hrest) as (pb' & w' & H2 & Hd' & Ht').
    exists pb', w'. cbn [run_all]. unfold bind. rewrite H1.
    split; [exact H2 | ]. split; [exact Hd' | congruence].
Qed.

Lemma run_all_defined_witness :
  exists pb' w',
    run_all [OpSetBarSize 10; OpUpdate 1 true; OpRestart; OpUpdateOne;
             OpSetPrefix "x"; OpUpdate 4294967295 false; OpFill] pb4 w_slow
      = Some (pb', w')
    /\ drawable pb' /\ total_steps_ pb' = total_steps_ pb4.
Proof.
  apply run_all_defined.
  - vm_compute. repeat split; discriminate.
  - repeat constructor; vm_compute; discriminate.
Defined.

(** X4: whatever a sequence of calls does, it leaves the clock alone,
    keeps the formatting flags of every stream, and only appends to what the
    streams hold: nothing written before is lost or changed. *)
Theorem run_all_extends (ops : list operation) :
  forall (pb pb' : ProgressBar) (w w' : World),
    run_all ops pb w = Some (pb', w') -> extends w w'.
Proof.
  induction ops as [ | o rest IH]; intros pb pb' w w' H.
  - injection H as _ <-. apply extends_refl.
  - cbn [run_all] in H. unfold bind in H.
    destruct (run o pb w) as [[pb1 w1] | ] eqn:E; [ | discriminate].
    apply (extends_trans _ _ _ (run_extends _ _ _ _ _ E)).
    apply (IH _ _ _ _ H).
Qed.

Lemma run_all_extends_witness :
  exists pb' w',
    run_all [OpSetPrefix "x"; OpSetBarSize 10; OpUpdate 1 true; OpFill] pb4 w_slow
      = Some (pb', w')
    /\ repaints w_slow cerr = 0%nat
    /\ repaints w' cerr = 2%nat
    /\ last_line w' cerr
       = Some (CR ++ "x 100.0%|" ++ blocks 10 ++ LEFT_ONE_EIGHTH ++ "| [1.8s<0.0s]")
    /\ extends w_slow w'.
Proof.
  eexists. eexists.
  split; [vm_compute; reflexivity | ].
  split; [vm_compute; reflexivity | ].
  split; [vm_compute; reflexivity | ].
  split; [vm_compute; reflexivity | ].
  eapply (run_all_extends
            [OpSetPrefix "x"; OpSetBarSize 10; OpUpdate 1 true; OpFill] pb4).
  vm_compute. reflexivity.
Defined.

(** X5: with the interval of the constructor, an unforced [update] repaints
    exactly when more than [10^8] ticks (a tenth of a second, in
    nanoseconds) lie between the start of the refresh stopwatch and the
    reading of the clock the call takes; at exactly [10^8] ticks it does
    not.  The step count is stored either way by the same call. *)
Theorem update_throttle_in_ticks (steps : Z) (pb : ProgressBar) (w : World) :
  drawable pb ->
  min_time_per_update_ pb = DEFAULT_MIN_TIME ->
  0 <= clock w (reads w) - start_ (refresh_ pb) < 2 ^ 53 ->
  exists pb' w',
    update steps false pb w = Some (pb', w')
    /\ current_step_ pb' = clamp_step pb steps
    /\ repaints w' (os_ pb) =
         if 100000000 <? clock w (reads w) - start_ (refresh_ pb)
         then S (repaints w (os_ pb)) else repaints w (os_ pb).
Proof.
  intros Hd Hm Hb.
  destruct (update_drawable steps false pb w Hd) as (pb' & w' & Hu & _).
  exists pb', w'. split; [exact Hu | ].
  split; [apply (update_current_step _ _ _ _ _ _ Hu) | ].
  destruct (update_repaints _ _ _ _ _ _ Hu) as [Hr _]. rewrite Hr.
  unfold repaint_due. rewrite Hm, default_interval_in_ticks by exact Hb.
  rewrite orb_false_r.
  destruct (100000000 <? clock w (reads w) - start_ (refresh_ pb)); lia.
Qed.

Lemma update_throttle_in_ticks_witness :
  exists pb' w',
    update 1 false pb4 w_slow = Some (pb', w')
    /\ current_step_ pb' = clamp_step pb4 1
    /\ repaints w' (os_ pb4) =
         if 100000000 <? clock w_slow (reads w_slow) - start_ (refresh_ pb4)
         then S (repaints w_slow (os_ pb4)) else repaints w_slow (os_ pb4).
Proof.
  apply update_throttle_in_ticks.
  - vm_compute. repeat split; discriminate.
  - reflexivity.
  - vm_compute. split; [discriminate | reflexivity].
Defined.

(** X6: [elapsed_seconds] of two instants less than [2^53] ticks apart, the
    later one second, is a positive normal double within a relative error of
    [2^-53] of the number of ticks divided by [10^9]; of one instant taken
    twice it is zero. *)
Theorem elapsed_seconds_accurate (from to : time_point_t) :
  0 < to - from < 2 ^ 53 ->
  elapsed_seconds from from = 0%float /\
  exists V : R,
    normal (elapsed_seconds from to) V /\
    (Rabs (V - IZR (to - from) / 1000000000)
       <= IZR (to - from) / 1000000000 * / 9007199254740992)%R.
Proof.
  intros Hd. split; [apply elapsed_seconds_same | ].
  apply elapsed_seconds_normal. exact Hd.
Qed.

Lemma elapsed_seconds_accurate_witness :
  elapsed_seconds 0 250000000 = 0.25%float /\
  elapsed_seconds 0 0 = 0%float /\
  exists V : R,
    normal (elapsed_seconds 0 250000000) V /\
    (Rabs (V - IZR (250000000 - 0) / 1000000000)
       <= IZR (250000000 - 0) / 1000000000 * / 9007199254740992)%R.
Proof.
  split; [vm_compute; reflexivity | ].
  apply (elapsed_seconds_accurate 0 250000000).
  vm_compute. split; reflexivity.
Defined.

(** X7: under a clock that does not go backward, two successive calls of
    [peek] on a stopwatch started in the past return doubles that are not
    negative and do not decrease (the readings being less than [2^52] ticks
    after the start). *)
Theorem peek_monotone (c : Chronometer) (w : World) :
  steady w ->
  start_ c <= clock w (reads w) ->
  clock w (S (reads w)) - start_ c < 2 ^ 52 ->
  exists x1 x2 w1 w2,
    Chrono.peek c w = Some (x1, w1) /\ Chrono.peek c w1 = Some (x2, w2)
    /\ (0 <=? x1)%float = true /\ (x1 <=? x2)%float = true.
Proof.
  intros Hs H0 Hb. pose proof (Hs (reads w)) as H12.
  exists (elapsed_seconds (start_ c) (clock w (reads w))),
         (elapsed_seconds (start_ c) (clock w (S (reads w)))),
         (mk_World (clock w) (S (reads w)) (streams w)),
         (mk_World (clock w) (S (S (reads w))) (streams w)).
  split; [reflexivity | ]. split; [reflexivity | ]. split.
  - rewrite <- (elapsed_seconds_same (start_ c)).
    apply elapsed_seconds_monotone; lia.
  - apply elapsed_seconds_monotone; lia.
Qed.

Lemma peek_monotone_witness :
  exists x1 x2 w1 w2,
    Chrono.peek (mk_Chronometer 0) w_fast = Some (x1, w1)
    /\ Chrono.peek (mk_Chronometer 0) w1 = Some (x2, w2)
    /\ (0 <=? x1)%float = true /\ (x1 <=? x2)%float = true.
Proof.
  apply peek_monotone.
  - intros i. unfold w_fast, ticking. cbn [clock]. lia.
  - vm_compute. discriminate.
  - vm_compute. reflexivity.
Defined.

(** X8: on every bar that can be drawn [print_bar] appends [|], the full
    blocks, one gradation glyph that is not the full block, the padding and
    [|].  The count of full blocks is at most the width; what stands
    between the two [|] is exactly [bar_size_] glyphs wide when that count
    is below the width, and one glyph wider, without padding, when it equals
    the width. *)
Theorem print_bar_width (pb : ProgressBar) (ss : string) :
  drawable pb ->
  exists (nf idx : Z) (padding : nat),
    print_bar pb ss (progress_of pb)
      = Some (ss ++ "|" ++ bar_interior (Z.to_nat nf) idx padding ++ "|")
    /\ 0 <= nf <= bar_size_ pb
    /\ 0 <= idx <= 6
    /\ Z.of_nat padding = Z.max 0 (bar_size_ pb - nf - 1)
    /\ Z.of_nat (glyphs (bar_interior (Z.to_nat nf) idx padding))
       = if nf <? bar_size_ pb then bar_size_ pb else bar_size_ pb + 1.
Proof.
  intros Hd. destruct (drawable_progress pb Hd) as [Hc Ht].
  destruct Hd as (_ & _ & Hb). unfold progress_of.
  destruct (num_filled_defined _ _ _ Hc Ht Hb) as (nf & Hnf & Hnfb).
  destruct (last_fill_idx_reachable _ _ Hc Ht) as (a & idx & _ & Hidx & Ha & Hi & _).
  pose proof (Z.div_mod a 10 ltac:(lia)) as Hdm.
  pose proof (Z.mod_pos_bound a 10 ltac:(lia)) as Hmb.
  exists nf, idx,
    (if uadd nf 1 <? bar_size_ pb then Z.to_nat (bar_size_ pb - uadd nf 1) else 0%nat).
  split; [apply (print_bar_defined pb ss _ nf idx Hnf Hidx) | ].
  split; [exact Hnfb | ]. split; [lia | ].
  rewrite glyphs_bar_interior.
  unfold uadd. rewrite wrap_small
    by (unfold is_uint, UINT_MODULUS; unfold INT_MAX in Hb; lia).
  destruct (Z.ltb_spec (nf + 1) (bar_size_ pb)) as [H1 | H1];
    destruct (Z.ltb_spec nf (bar_size_ pb)) as [H2 | H2]; split; lia.
Qed.

Lemma print_bar_width_witness :
  exists (nf idx : Z) (padding : nat),
    print_bar pb29 "" (progress_of pb29)
      = Some ("" ++ "|" ++ bar_interior (Z.to_nat nf) idx padding ++ "|")
    /\ 0 <= nf <= bar_size_ pb29
    /\ 0 <= idx <= 6
    /\ Z.of_nat padding = Z.max 0 (bar_size_ pb29 - nf - 1)
    /\ Z.of_nat (glyphs (bar_interior (Z.to_nat nf) idx padding))
       = if nf <? bar_size_ pb29 then bar_size_ pb29 else bar_size_ pb29 + 1.
Proof.
  apply print_bar_width.
  vm_compute. repeat split; discriminate.
Defined.

(** X9: [n] calls of [update()] on a bar that can be drawn, whose total is
    below the largest [unsigned int], leave
    [min(current_step_ + n, total_steps_)], for every [n]: once the bar is
    complete further calls keep it complete. *)
Theorem update_times_counts (n : nat) :
  forall (pb : ProgressBar) (w : World),
    drawable pb -> total_steps_ pb < UINT_MODULUS - 1 ->
    exists pb' w',
      update_times n pb w = Some (pb', w')
      /\ current_step_ pb' = Z.min (current_step_ pb + Z.of_nat n) (total_steps_ pb)
      /\ total_steps_ pb' = total_steps_ pb.
Proof.
  induction n as [ | n IH]; intros pb w Hd Ht.
  - exists pb, w. split; [reflexivity | ].
    destruct Hd as (Hc & _). split; [lia | reflexivity].
  - destruct (update_drawable 1 false pb w Hd) as (pb1 & w1 & Hu & Hd1).
    destruct (update_current_step _ _ _ _ _ _ Hu) as [Hc1 Ht1].
    rewrite clamp_step_no_overflow in Hc1 by (destruct Hd as (Hc & _); lia).
    destruct (IH pb1 w1 Hd1 ltac:(lia)) as (pb' & w' & H2 & Hc' & Ht').
    exists pb', w'. cbn [update_times]. unfold bind, update_one. rewrite Hu.
    split; [exact H2 | ]. split; [ | congruence].
    rewrite Hc', Hc1, Ht1. lia.
Qed.

Lemma update_times_counts_witness :
  exists pb' w',
    update_times 7 pb4 w_slow = Some (pb', w')
    /\ current_step_ pb' = Z.min (current_step_ pb4 + Z.of_nat 7) (total_steps_ pb4)
    /\ total_steps_ pb' = total_steps_ pb4.
Proof.
  apply update_times_counts.
  - vm_compute. repeat split; discriminate.
  - vm_compute. reflexivity.
Defined.

(** The bound on the total is needed: a complete bar of [2^32 - 1] steps
    goes back to step 0 on the next [update()]. *)
Example update_one_wraps_at_the_largest_total :
  clamp_step
    (mk_ProgressBar (mk_Chronometer 0) (mk_Chronometer 0) DEFAULT_MIN_TIME cerr ""
       40 4294967295 4294967295) 1 = 0.
Proof. vm_compute. reflexivity. Qed.

(** X10: the first unforced [update] on a bar just constructed does not
    write anything when its reading of the clock is at most [10^8] ticks
    after the constructor's second reading, which started the refresh
    stopwatch; the steps are counted all the same. *)
Theorem first_update_throttled (total steps : Z) (w : World) :
  0 < total < UINT_MODULUS ->
  0 <= clock w (S (S (reads w))) - clock w (S (reads w)) <= 100000000 ->
  exists pb w1 pb' w',
    new total w = Some (pb, w1) /\ update steps false pb w1 = Some (pb', w')
    /\ streams w' = streams w
    /\ current_step_ pb' = Z.min (wrap steps) total.
Proof.
  intros Ht Hb.
  set (pb := mk_ProgressBar (mk_Chronometer (clock w (reads w)))
               (mk_Chronometer (clock w (S (reads w)))) DEFAULT_MIN_TIME cerr "" 40 0 total).
  set (w1 := mk_World (clock w) (S (S (reads w))) (streams w)).
  assert (Hdue : repaint_due pb false w1 = false).
  { unfold repaint_due. cbn [pb w1 min_time_per_update_ refresh_ start_ clock reads].
    rewrite default_interval_in_ticks by lia.
    rewrite orb_false_r. apply Z.ltb_ge. lia. }
  exists pb, w1. eexists. eexists.
  split; [reflexivity | ]. split; [apply (update_skip _ _ _ _ Hdue) | ].
  split; [reflexivity | ].
  cbn [with_current_step current_step_]. unfold clamp_step.
  cbn [pb current_step_ total_steps_]. unfold uadd. rewrite Z.add_0_l.
  destruct (wrap steps >? total) eqn:E; rewrite Z.gtb_ltb in E.
  - apply Z.ltb_lt in E. lia.
  - apply Z.ltb_ge in E. lia.
Qed.

Lemma first_update_throttled_witness :
  exists pb w1 pb' w',
    new 4 (world0 (ticking 1000)) = Some (pb, w1)
    /\ update 1 false pb w1 = Some (pb', w')
    /\ streams w' = streams (world0 (ticking 1000))
    /\ current_step_ pb' = Z.min (wrap 1) 4.
Proof.
  apply first_update_throttled.
  - vm_compute. split; reflexivity.
  - vm_compute. split; discriminate.
Defined.

End Further.

(** * The two ends of the bar *)

Section Ends.

Lemma normal_1 : normal 1%float 1%R.
Proof.
  apply (normal_const _ 4503599627370496 (- 52)); [reflexivity | lia | lia | ].
  norm_bpow. lra.
Qed.

(** Dividing by one is exact. *)
Lemma div_one_r (x : float) (v : R) :
  normal x v -> (bpow (- 100) <= v <= bpow 100)%R -> (x / 1)%float = x.
Proof.
  intros Hx Hb.
  assert (Hr : rounded (v / 1) (Prim2SF (x / 1))).
  { apply div_rounded; [exact Hx | apply normal_1 | exact Hb | norm_bpow; lra]. }
  destruct Hx as (m & e & HP & Hm & He & ->).
  apply Prim2SF_inj. rewrite HP.
  replace (S754_finite false m e) with (S754_finite false m (e + 53 - 53))
    by (f_equal; lia).
  apply (rounded_eq _ _ m (e + 53) Hr Hm).
  - pose proof (normal_magnitude m e Hm) as Hmag.
    replace (e + 53 - 1) with (52 + e) by lia.
    replace (e + 53) with (53 + e) by lia. lra.
  - replace (e + 53 - 53) with e by lia.
    replace (IZR (Zpos m) * bpow e - IZR (Zpos m) * bpow e / 1)%R with 0%R by lra.
    rewrite Rabs_R0. apply bpow_pos.
Qed.

(** A finite double minus itself is zero. *)
Lemma sub_self (x : float) (v : R) : normal x v -> (x - x)%float = 0%float.
Proof.
  intros (m & e & HP & Hm & He & _).
  apply Prim2SF_inj. rewrite FloatAxioms.sub_spec, HP.
  unfold SF64sub, SFsub. cbv zeta.
  match goal with
  | |- binary_normalize _ _ ?d _ _ = _ =>
      replace d with 0 by (symmetry; apply Z.sub_diag)
  end.
  reflexivity.
Qed.

(** Dividing a positive double by zero gives infinity, and infinity stays. *)
Lemma div_zero_r (x : float) (v : R) : normal x v -> (x / 0 - x)%float = infinity.
Proof.
  intros (m & e & HP & _).
  apply Prim2SF_inj.
  rewrite FloatAxioms.sub_spec, FloatAxioms.div_spec, HP. reflexivity.
Qed.

Lemma elapsed_seconds_in_range (from to : time_point_t) :
  0 < to - from < 2 ^ 53 ->
  exists V : R,
    normal (elapsed_seconds from to) V /\ (bpow (- 100) <= V <= bpow 100)%R.
Proof.
  intros Hd. destruct (elapsed_seconds_normal from to Hd) as (V & HV & He).
  exists V. split; [exact HV | ].
  apply Rabs_le_both in He.
  assert (H1 : 1 <= to - from) by lia. apply IZR_le in H1.
  assert (H2 : to - from <= 9007199254740992) by lia. apply IZR_le in H2.
  norm_bpow. lra.
Qed.

Lemma num_filled_zero (bar_size : Z) :
  0 <= bar_size <= INT_MAX -> num_filled_of 0 bar_size = Some 0.
Proof.
  intros Hb. unfold INT_MAX in Hb. unfold num_filled_of.
  destruct (Z.eq_dec bar_size 0) as [-> | Hne]; [reflexivity | ].
  rewrite (mul_zero_l _ _ (normal_of_uint bar_size ltac:(lia))). reflexivity.
Qed.

Lemma last_fill_idx_zero : last_fill_idx 0 = Some 0.
Proof. reflexivity. Qed.

Lemma progress_zero (pb : ProgressBar) :
  0 < total_steps_ pb < UINT_MODULUS -> current_step_ pb = 0 ->
  progress_of pb = 0%float.
Proof.
  intros Ht Hc. unfold progress_of. rewrite Hc.
  change (double_of_uint 0) with 0%float.
  apply (div_zero_l _ (IZR (total_steps_ pb))).
  apply normal_of_uint. unfold UINT_MODULUS in Ht. lia.
Qed.

End Ends.

Section Lines.

(** X11: a repaint at step 0, at least one tick after the start of the
    stopwatch, writes the percentage [0.0], no full block, the thinnest
    gradation glyph and the padding; the remaining time, the quotient of the
    elapsed time by a progress of zero, is written as [inf]. *)
Theorem update_display_at_zero (pb : ProgressBar) (w : World) :
  drawable pb -> current_step_ pb = 0 ->
  0 < clock w (reads w) - start_ (chronometer_ pb) < 2 ^ 53 ->
  exists w',
    update_display pb w = Some (tt, w') /\
    painted (os_ pb)
      (CR ++ prefix_ pb ++ "   0.0%|" ++ LEFT_ONE_EIGHTH
          ++ spaces (Z.to_nat (bar_size_ pb - 1)) ++ "| ["
          ++ fixed1 (elapsed_seconds (start_ (chronometer_ pb)) (clock w (reads w)))
          ++ "s<infs]")
      w w'.
Proof.
  intros Hd Hc0 Hb. destruct Hd as (_ & Ht & Hbs).
  apply update_display_defined. unfold line_of, header.
  rewrite (progress_zero pb Ht Hc0).
  change (setw 5 (fixed1 (0 * 100)%float)) with "  0.0".
  rewrite (print_bar_defined pb _ 0 0 0 (num_filled_zero _ Hbs) last_fill_idx_zero).
  f_equal. change (uadd 0 1) with 1.
  replace (if 1 <? bar_size_ pb then Z.to_nat (bar_size_ pb - 1) else 0%nat)
    with (Z.to_nat (bar_size_ pb - 1))
    by (destruct (Z.ltb_spec 1 (bar_size_ pb)); lia).
  set (from := start_ (chronometer_ pb)) in *. set (to := clock w (reads w)) in *.
  assert (Heta : fixed1 (elapsed_seconds from to / 0 - elapsed_seconds from to) = "inf").
  { destruct (elapsed_seconds_normal from to Hb) as (V & HV & _).
    rewrite (div_zero_r _ _ HV). reflexivity. }
  rewrite Heta. unfold bar_interior, blocks. cbn [Z.to_nat put_blocks].
  rewrite !append_assoc. reflexivity.
Qed.

Lemma update_display_at_zero_witness :
  exists w',
    update_display pb4 w_slow = Some (tt, w') /\
    painted (os_ pb4)
      (CR ++ prefix_ pb4 ++ "   0.0%|" ++ LEFT_ONE_EIGHTH
          ++ spaces (Z.to_nat (bar_size_ pb4 - 1)) ++ "| ["
          ++ fixed1 (elapsed_seconds (start_ (chronometer_ pb4))
                       (clock w_slow (reads w_slow)))
          ++ "s<infs]")
      w_slow w'.
Proof.
  apply update_display_at_zero.
  - vm_compute. repeat split; discriminate.
  - reflexivity.
  - vm_compute. split; reflexivity.
Defined.

(** The line of the witness: half a second after the start, at step 0. *)
Example line_at_zero :
  line_of pb4 0.5%float
  = Some (CR ++ "   0.0%|" ++ LEFT_ONE_EIGHTH ++ spaces 39 ++ "| [0.5s<infs]").
Proof. vm_compute. reflexivity. Qed.

(** X12: a repaint of a complete bar writes the percentage [100.0], as many
    full blocks as the width, the thinnest gradation glyph, no padding, the
    elapsed time, and a remaining time of [0.0]. *)
Theorem update_display_at_completion (pb : ProgressBar) (w : World) :
  drawable pb -> current_step_ pb = total_steps_ pb ->
  0 <= clock w (reads w) - start_ (chronometer_ pb) < 2 ^ 53 ->
  exists w',
    update_display pb w = Some (tt, w') /\
    painted (os_ pb)
      (CR ++ prefix_ pb ++ " 100.0%|" ++ blocks (Z.to_nat (bar_size_ pb))
          ++ LEFT_ONE_EIGHTH ++ "| ["
          ++ fixed1 (elapsed_seconds (start_ (chronometer_ pb)) (clock w (reads w)))
          ++ "s<0.0s]")
      w w'.
Proof.
  intros Hd Hc Hb. destruct Hd as (_ & Ht & Hbs).
  apply update_display_defined. unfold line_of, header.
  rewrite (progress_full pb Ht Hc).
  change (setw 5 (fixed1 (1 * 100)%float)) with "100.0".
  rewrite print_bar_full by exact Hbs.
  f_equal.
  set (from := start_ (chronometer_ pb)) in *. set (to := clock w (reads w)) in *.
  assert (Heta : fixed1 (elapsed_seconds from to / 1 - elapsed_seconds from to) = "0.0").
  { destruct (Z.eq_dec (to - from) 0) as [Hz | Hz].
    - unfold elapsed_seconds. rewrite Hz. reflexivity.
    - destruct (elapsed_seconds_in_range from to ltac:(lia)) as (V & HV & HVb).
      rewrite (div_one_r _ _ HV HVb), (sub_self _ _ HV). reflexivity. }
  rewrite Heta. unfold bar_interior. cbn [get_fill_value spaces].
  rewrite !append_assoc. reflexivity.
Qed.

Lemma update_display_at_completion_witness :
  exists w',
    update_display (with_current_step pb4 4) w_slow = Some (tt, w') /\
    painted (os_ (with_current_step pb4 4))
      (CR ++ prefix_ (with_current_step pb4 4) ++ " 100.0%|"
          ++ blocks (Z.to_nat (bar_size_ (with_current_step pb4 4)))
          ++ LEFT_ONE_EIGHTH ++ "| ["
          ++ fixed1 (elapsed_seconds (start_ (chronometer_ (with_current_step pb4 4)))
                       (clock w_slow (reads w_slow)))
          ++ "s<0.0s]")
      w_slow w'.
Proof.
  apply update_display_at_completion.
  - vm_compute. repeat split; discriminate.
  - reflexivity.
  - vm_compute. split; [discriminate | reflexivity].
Defined.

End Lines.

(** * The percentage field *)

Section Percentage.

Lemma length_append (s1 s2 : string) :
  String.length (s1 ++ s2) = (String.length s1 + String.length s2)%nat.
Proof. induction s1 as [ | c s1 IH]; cbn; [reflexivity | now rewrite IH]. Qed.

Lemma length_spaces (n : nat) : String.length (spaces n) = n.
Proof. induction n as [ | n IH]; cbn; [reflexivity | now rewrite IH]. Qed.

(** [std::setw] fills a shorter text up to the width. *)
Lemma setw_length (w : nat) (s : string) :
  (String.length s <= w)%nat -> String.length (setw w s) = w.
Proof.
  intros H. unfold setw. rewrite length_append, length_spaces. lia.
Qed.

Lemma decimal_length (z : Z) :
  0 <= z <= 100 -> (String.length (decimal z) <= 3)%nat.
Proof.
  intros Hz.
  assert (Hall : forallb (fun n => (String.length (decimal (Z.of_nat n)) <=? 3)%nat)
                   (seq 0 101) = true) by (vm_compute; reflexivity).
  rewrite forallb_forall in Hall.
  specialize (Hall (Z.to_nat z)). rewrite Z2Nat.id in Hall by lia.
  apply Nat.leb_le. apply Hall. apply in_seq. lia.
Qed.

Lemma digit_length (z : Z) :
  0 <= z <= 9 -> String.length (decimal z) = 1%nat.
Proof.
  intros Hz.
  assert (Hcases : z = 0 \/ z = 1 \/ z = 2 \/ z = 3 \/ z = 4 \/ z = 5 \/ z = 6
                   \/ z = 7 \/ z = 8 \/ z = 9) by lia.
  repeat destruct Hcases as [-> | Hcases]; try subst z; reflexivity.
Qed.

(** A positive double of at most 100 is written with at most five
    characters. *)
Lemma fixed1_length (x : float) (v : R) :
  normal x v -> (v <= 100)%R -> (String.length (fixed1 x) <= 5)%nat.
Proof.
  intros (m & e & HP & Hm & He & ->) Hv.
  assert (He0 : e < 0).
  { apply (normal_small_exponent m e Hm). rewrite bpow_52. lra. }
  unfold fixed1. rewrite HP.
  replace (0 <=? e) with false by (symmetry; apply Z.leb_gt; exact He0).
  rewrite (Z.shiftl_div_pow2 (Zpos m * 10) e), Z.land_ones, Z.shiftl_1_l by lia.
  assert (HT : 0 < 2 ^ (- e)) by (apply Z.pow_pos_nonneg; lia).
  assert (Hh : 0 < 2 ^ (- e - 1)) by (apply Z.pow_pos_nonneg; lia).
  assert (HN : Zpos m * 10 <= 1000 * 2 ^ (- e)).
  { apply le_IZR. rewrite !mult_IZR.
    replace e with (- (- e)) in Hv by lia.
    rewrite bpow_opp, (bpow_IZR (- e)) in Hv by lia.
    assert (HrT : (0 < IZR (2 ^ (- e)))%R) by (apply IZR_lt; exact HT).
    apply (Rmult_le_compat_r (IZR (2 ^ (- e)))) in Hv; [ | lra].
    rewrite Rmult_assoc, Rinv_l in Hv by lra. lra. }
  pose proof (Z.div_mod (Zpos m * 10) (2 ^ (- e)) ltac:(lia)) as Hdm.
  pose proof (Z.mod_pos_bound (Zpos m * 10) (2 ^ (- e)) HT) as Hmb.
  set (q := Zpos m * 10 / 2 ^ (- e)) in *.
  set (r := (Zpos m * 10) mod 2 ^ (- e)) in *.
  set (T := 2 ^ (- e)) in *. set (h := 2 ^ (- e - 1)) in *.
  assert (Hq0 : 0 <= q) by (apply Z.div_pos; lia).
  set (n := if (h <? r) || (h =? r) && Z.odd q then q + 1 else q).
  assert (Hn : 0 <= n <= 1000).
  { unfold n. destruct ((h <? r) || (h =? r) && Z.odd q) eqn:E.
    - assert (Hr : 1 <= r).
      { apply orb_true_iff in E. destruct E as [E | E].
        - apply Z.ltb_lt in E. lia.
        - apply andb_true_iff in E. destruct E as [E _]. apply Z.eqb_eq in E. lia. }
      clearbody q r T h. nia.
    - clearbody q r T h. nia. }
  clearbody n.
  cbn [append]. rewrite !length_append.
  assert (H1 : 0 <= n / 10 <= 100).
  { split; [apply Z.div_pos; lia | apply Z.div_le_upper_bound; lia]. }
  pose proof (decimal_length (n / 10) H1).
  pose proof (Z.mod_pos_bound n 10 ltac:(lia)) as H2.
  cbn [String.length]. rewrite (digit_length (n mod 10)) by lia. lia.
Qed.

(** X13: on every bar that can be drawn the percentage is written in
    exactly five characters, so that the text before the opening [|] of the
    bar is eight characters longer than the prefix, whatever the progress. *)
Theorem header_width (pb : ProgressBar) :
  drawable pb ->
  String.length (setw 5 (fixed1 (progress_of pb * 100))) = 5%nat
  /\ String.length (header pb) = (String.length (prefix_ pb) + 8)%nat.
Proof.
  intros Hd.
  assert (H5 : String.length (setw 5 (fixed1 (progress_of pb * 100))) = 5%nat).
  { apply setw_length.
    destruct (drawable_progress pb Hd) as [Hc Ht]. unfold progress_of.
    set (c := current_step_ pb) in *. set (t := total_steps_ pb) in *.
    clearbody c t.
    destruct (Z.eq_dec c 0) as [-> | Hc0].
    { change (double_of_uint 0) with 0%float.
      rewrite (div_zero_l _ _ (normal_of_uint t ltac:(lia))).
      vm_compute. lia. }
    destruct (Z.eq_dec c t) as [-> | Hct].
    { rewrite div_self_of_uint by lia. vm_compute. lia. }
    pose proof (Z.div_mod (10 * c) t ltac:(lia)) as Hdm.
    pose proof (Z.mod_pos_bound (10 * c) t ltac:(lia)) as Hmb.
    set (k := 10 * c / t) in *. set (r := (10 * c) mod t) in *.
    assert (Hk : 0 <= k <= 9).
    { split; [apply Z.div_pos; lia | ].
      assert (k < 10) by (apply Z.div_lt_upper_bound; lia). lia. }
    clearbody k r.
    destruct (Z.eq_dec r 0) as [-> | Hr].
    - assert (Hk1 : 1 <= k <= 9) by nia.
      rewrite (tenth_exact k c t Hk1) by lia.
      assert (Hcases : k = 1 \/ k = 2 \/ k = 3 \/ k = 4 \/ k = 5 \/ k = 6
                       \/ k = 7 \/ k = 8 \/ k = 9) by lia.
      clear Hdm.
      repeat destruct Hcases as [-> | Hcases]; try subst k; vm_compute; lia.
    - destruct (between_times_100 k c t Hk ltac:(lia) Ht ltac:(nia)) as (V & HV & HVb).
      apply (fixed1_length _ V HV).
      assert (Hk10 : 10 * k + 10 <= 100) by lia. apply IZR_le in Hk10. lra. }
  split; [exact H5 | ].
  unfold header. rewrite !length_append, H5. cbn [String.length CR]. lia.
Qed.

Lemma header_width_witness :
  String.length (setw 5 (fixed1 (progress_of pb29 * 100))) = 5%nat
  /\ String.length (header pb29) = (String.length (prefix_ pb29) + 8)%nat.
Proof.
  apply header_width.
  vm_compute. repeat split; discriminate.
Defined.

End Percentage.

(** * Configuration *)

Section Configuration.

Lemma clamp_step_zero (pb : ProgressBar) :
  0 <= current_step_ pb <= total_steps_ pb -> total_steps_ pb < UINT_MODULUS ->
  clamp_step pb 0 = current_step_ pb.
Proof.
  intros Hc Ht. unfold clamp_step, uadd. rewrite Z.add_0_r.
  rewrite wrap_small by (unfold is_uint; lia).
  destruct (current_step_ pb >? total_steps_ pb) eqn:E; [ | reflexivity].
  rewrite Z.gtb_ltb in E. apply Z.ltb_lt in E. lia.
Qed.

(** No double is above a NaN. *)
Lemma nan_ltb (x : float) : (nan <? x)%float = false.
Proof. rewrite FloatAxioms.ltb_spec. reflexivity. Qed.

(** Zero is below the elapsed time exactly when a tick has passed. *)
Lemma zero_interval_in_ticks (from to : time_point_t) :
  0 <= to - from < 2 ^ 53 ->
  (0 <? elapsed_seconds from to)%float = (0 <? to - from).
Proof.
  intros Hd. destruct (Z.eq_dec (to - from) 0) as [Hz | Hz].
  - unfold elapsed_seconds. rewrite Hz. reflexivity.
  - destruct (elapsed_seconds_normal from to ltac:(lia)) as (V & (m & e & HP & _) & _).
    rewrite FloatAxioms.ltb_spec, HP.
    replace (0 <? to - from) with true by (symmetry; apply Z.ltb_lt; lia).
    reflexivity.
Qed.

(** X14: the setters take effect at the next repaint.  After [set_ostream],
    [set_prefix] and [set_bar_size] a forced [update] of no step keeps the
    step count and writes to the new stream one line, flushed, that starts
    with the carriage return, the new prefix and a space, and whose bar is
    drawn for the new width: the count of full blocks is the one
    [print_bar] computes from the new width and is at most that width, the
    padding fills up to it, and what stands between the two [|] is as wide
    as the new width, or one glyph wider when the count equals it.  Every
    other stream, the former one included, is left as it was. *)
Theorem setters_take_effect (r : stream_ref) (s : string) (size : Z)
    (pb : ProgressBar) (w : World) :
  drawable pb -> 0 <= size <= INT_MAX ->
  exists pb' w' pct (nf idx : Z) (padding : nat) tail,
    update 0 true (set_bar_size size (set_prefix s (set_ostream r pb))) w
      = Some (pb', w')
    /\ current_step_ pb' = current_step_ pb
    /\ os_log (streams w' r)
       = (os_log (streams w r)
            ++ [Wrote (CR ++ s ++ " " ++ pct ++ "%|"
                          ++ bar_interior (Z.to_nat nf) idx padding ++ "|" ++ tail);
                Flushed])%list
    /\ num_filled_of (progress_of pb) size = Some nf
    /\ 0 <= nf <= size
    /\ Z.of_nat padding = Z.max 0 (size - nf - 1)
    /\ Z.of_nat (glyphs (bar_interior (Z.to_nat nf) idx padding))
       = (if nf <? size then size else size + 1)
    /\ (forall r', r' <> r -> streams w' r' = streams w r').
Proof.
  intros Hd Hs.
  set (pb0 := set_bar_size size (set_prefix s (set_ostream r pb))).
  destruct (drawable_progress pb Hd) as [Hc Ht].
  destruct (num_filled_defined _ _ size Hc Ht Hs) as (nf & Hnf & Hnfb).
  destruct (last_fill_idx_reachable _ _ Hc Ht) as (a & idx & _ & Hidx & _).
  assert (Hz : clamp_step pb0 0 = current_step_ pb).
  { destruct Hd as (Hc' & Ht' & _). apply (clamp_step_zero pb0); [exact Hc' | ].
    change (total_steps_ pb0) with (total_steps_ pb). lia. }
  set (pb1 := with_refresh (with_current_step pb0 (current_step_ pb))
                (mk_Chronometer (clock w (S (reads w))))).
  set (w1 := mk_World (clock w) (S (S (reads w))) (streams w)).
  set (padding := if uadd nf 1 <? size then Z.to_nat (size - uadd nf 1) else 0%nat).
  set (t := elapsed_seconds (start_ (chronometer_ pb1)) (clock w1 (reads w1))).
  set (tail := " [" ++ fixed1 t ++ "s<" ++ fixed1 (t / progress_of pb1 - t)%float ++ "s]").
  assert (Hl : line_of pb1 t
               = Some ((header pb1 ++ "|" ++ bar_interior (Z.to_nat nf) idx padding ++ "|")
                       ++ tail)).
  { unfold line_of.
    rewrite (print_bar_defined pb1 (header pb1) (progress_of pb1) nf idx Hnf Hidx).
    reflexivity. }
  destruct (update_display_defined pb1 w1 _ Hl) as (w' & Hu & Hp).
  exists pb1, w', (setw 5 (fixed1 (progress_of pb1 * 100))), nf, idx, padding, tail.
  split.
  { rewrite update_paint by (unfold repaint_due; apply orb_true_r).
    cbv zeta. rewrite Hz. fold pb1. fold w1. rewrite Hu. reflexivity. }
  split; [reflexivity | ].
  split.
  { pose proof (painted_log _ _ _ _ Hp) as Hlog.
    change (os_ pb1) with r in Hlog. cbn [streams w1] in Hlog.
    rewrite Hlog. unfold header. change (prefix_ pb1) with s.
    rewrite !append_assoc. reflexivity. }
  split; [exact Hnf | ]. split; [exact Hnfb | ].
  assert (Hu1 : uadd nf 1 = nf + 1).
  { unfold uadd. apply wrap_small. unfold is_uint, UINT_MODULUS.
    unfold INT_MAX in Hs. lia. }
  split.
  { unfold padding. rewrite Hu1.
    destruct (Z.ltb_spec (nf + 1) size); lia. }
  split.
  { rewrite glyphs_bar_interior. unfold padding. rewrite Hu1.
    destruct (Z.ltb_spec (nf + 1) size); destruct (Z.ltb_spec nf size); lia. }
  intros r' Hne. change (os_ pb1) with r in Hp.
  rewrite (painted_other _ _ _ _ Hp r' Hne). reflexivity.
Qed.

Lemma setters_take_effect_witness :
  exists pb' w' pct (nf idx : Z) (padding : nat) tail,
    update 0 true (set_bar_size 10 (set_prefix "x" (set_ostream 1%nat pb29))) w_slow
      = Some (pb', w')
    /\ current_step_ pb' = current_step_ pb29
    /\ os_log (streams w' 1%nat)
       = (os_log (streams w_slow 1%nat)
            ++ [Wrote (CR ++ "x" ++ " " ++ pct ++ "%|"
                          ++ bar_interior (Z.to_nat nf) idx padding ++ "|" ++ tail);
                Flushed])%list
    /\ num_filled_of (progress_of pb29) 10 = Some nf
    /\ 0 <= nf <= 10
    /\ Z.of_nat padding = Z.max 0 (10 - nf - 1)
    /\ Z.of_nat (glyphs (bar_interior (Z.to_nat nf) idx padding))
       = (if nf <? 10 then 10 else 10 + 1)
    /\ (forall r', r' <> 1%nat -> streams w' r' = streams w_slow r').
Proof.
  apply setters_take_effect.
  - vm_compute. repeat split; discriminate.
  - vm_compute. split; discriminate.
Defined.

(** The line of the witness: 29 of 100 steps drawn ten glyphs wide, on the
    stream and with the prefix that were set. *)
Example line_after_setters :
  line_of (set_bar_size 10 (set_prefix "x" (set_ostream 1%nat pb29))) 1%float
  = Some (CR ++ "x  29.0%|" ++ blocks 3 ++ LEFT_SEVEN_EIGHTHS ++ spaces 6
             ++ "| [1.0s<2.4s]").
Proof. vm_compute. reflexivity. Qed.

(** X15: with a NaN for interval an unforced [update] never repaints,
    whatever the bar and the clock: it stores the step count, reads the
    clock once and writes nothing. *)
Theorem nan_interval_never_repaints (steps : Z) (pb : ProgressBar) (w : World) :
  update steps false (set_min_update_time nan pb) w =
    Some (with_current_step (set_min_update_time nan pb) (clamp_step pb steps),
          mk_World (clock w) (S (reads w)) (streams w)).
Proof.
  apply (update_skip steps false (set_min_update_time nan pb) w).
  unfold repaint_due. cbn [set_min_update_time min_time_per_update_].
  rewrite nan_ltb. reflexivity.
Qed.

(** X16: with an interval of zero an unforced [update] repaints exactly
    when the clock has advanced since the refresh stopwatch was started: the
    comparison is strict, so a call in the same tick does not repaint. *)
Theorem zero_interval_needs_a_tick (steps : Z) (pb : ProgressBar) (w : World) :
  drawable pb ->
  0 <= clock w (reads w) - start_ (refresh_ pb) < 2 ^ 53 ->
  exists pb' w',
    update steps false (set_min_update_time 0 pb) w = Some (pb', w')
    /\ repaints w' (os_ pb) =
         if 0 <? clock w (reads w) - start_ (refresh_ pb)
         then S (repaints w (os_ pb)) else repaints w (os_ pb).
Proof.
  intros Hd Hb.
  assert (Hd0 : drawable (set_min_update_time 0 pb)) by exact Hd.
  destruct (update_drawable steps false _ w Hd0) as (pb' & w' & Hu & _).
  exists pb', w'. split; [exact Hu | ].
  destruct (update_repaints _ _ _ _ _ _ Hu) as [Hr _].
  cbn [set_min_update_time os_] in Hr. rewrite Hr.
  unfold repaint_due. cbn [set_min_update_time min_time_per_update_ refresh_].
  rewrite zero_interval_in_ticks by exact Hb. rewrite orb_false_r.
  destruct (0 <? clock w (reads w) - start_ (refresh_ pb)); lia.
Qed.

Lemma zero_interval_needs_a_tick_witness :
  exists pb' w',
    update 1 false (set_min_update_time 0 pb4) w_fast = Some (pb', w')
    /\ repaints w' (os_ pb4) =
         if 0 <? clock w_fast (reads w_fast) - start_ (refresh_ pb4)
         then S (repaints w_fast (os_ pb4)) else repaints w_fast (os_ pb4).
Proof.
  apply zero_interval_needs_a_tick.
  - vm_compute. repeat split; discriminate.
  - vm_compute. split; [discriminate | reflexivity].
Defined.

End Configuration.

(** * What the numbers of the line are *)

Section Numbers.

(** A positive double below [2^52] is written as the nearest number of
    tenths. *)
Lemma fixed1_value (x : float) (v : R) :
  normal x v -> (v < bpow 52)%R ->
  exists n : Z,
    0 <= n /\
    fixed1 x = decimal (n / 10) ++ "." ++ decimal (n mod 10) /\
    (Rabs (IZR n - 10 * v) <= / 2)%R.
Proof.
  intros (m & e & HP & Hm & He & ->) Hv.
  assert (He0 : e < 0) by (apply (normal_small_exponent m e Hm); exact Hv).
  unfold fixed1. rewrite HP.
  replace (0 <=? e) with false by (symmetry; apply Z.leb_gt; exact He0).
  rewrite (Z.shiftl_div_pow2 (Zpos m * 10) e), Z.land_ones, Z.shiftl_1_l by lia.
  assert (Hh : 0 < 2 ^ (- e - 1)) by (apply Z.pow_pos_nonneg; lia).
  assert (HT2 : 2 ^ (- e) = 2 * 2 ^ (- e - 1)).
  { replace (- e) with (1 + (- e - 1)) at 1 by lia.
    rewrite Z.pow_add_r by lia. reflexivity. }
  assert (HT : 0 < 2 ^ (- e)) by lia.
  pose proof (Z.div_mod (Zpos m * 10) (2 ^ (- e)) ltac:(lia)) as Hdm.
  pose proof (Z.mod_pos_bound (Zpos m * 10) (2 ^ (- e)) HT) as Hmb.
  assert (Hq0 : 0 <= Zpos m * 10 / 2 ^ (- e)) by (apply Z.div_pos; lia).
  assert (Hval : (10 * (IZR (Zpos m) * bpow e) * IZR (2 ^ (- e)) = IZR (Zpos m * 10))%R).
  { replace e with (- (- e)) at 1 by lia.
    rewrite bpow_opp, (bpow_IZR (- e)), mult_IZR by lia.
    assert (HrT : (0 < IZR (2 ^ (- e)))%R) by (apply IZR_lt; exact HT).
    field. lra. }
  set (X := (10 * (IZR (Zpos m) * bpow e))%R) in *.
  set (q := Zpos m * 10 / 2 ^ (- e)) in *.
  set (r := (Zpos m * 10) mod 2 ^ (- e)) in *.
  set (N := Zpos m * 10) in *.
  set (T := 2 ^ (- e)) in *. set (h := 2 ^ (- e - 1)) in *.
  set (n := if (h <? r) || (h =? r) && Z.odd q then q + 1 else q).
  assert (Hn : 0 <= n /\ - h <= n * T - N <= h).
  { unfold n. destruct ((h <? r) || (h =? r) && Z.odd q) eqn:E.
    - assert (Hr : h <= r).
      { apply orb_true_iff in E. destruct E as [E | E].
        - apply Z.ltb_lt in E. lia.
        - apply andb_true_iff in E. destruct E as [E _]. apply Z.eqb_eq in E. lia. }
      clearbody q r T h N. split; nia.
    - assert (Hr : r <= h).
      { apply orb_false_iff in E. destruct E as [E _]. apply Z.ltb_ge in E. exact E. }
      clearbody q r T h N. split; nia. }
  clearbody n. destruct Hn as [Hn0 [Hlo Hhi]].
  exists n. split; [exact Hn0 | ]. split; [reflexivity | ].
  apply IZR_le in Hlo, Hhi. rewrite opp_IZR in Hlo.
  rewrite minus_IZR, mult_IZR in Hlo, Hhi.
  assert (HrT : IZR T = (2 * IZR h)%R) by (rewrite HT2, mult_IZR; reflexivity).
  assert (Hrh : (0 < IZR h)%R) by (apply IZR_lt; exact Hh).
  rewrite <- Hval in Hlo, Hhi. rewrite HrT in Hlo, Hhi.
  clearbody X. clear Hval.
  apply Rabs_le. split.
  - apply Rmult_le_reg_r with (r := (2 * IZR h)%R); [lra | ]. lra.
  - apply Rmult_le_reg_r with (r := (2 * IZR h)%R); [lra | ]. lra.
Qed.

Lemma decimal_zero_tenths : fixed1 0 = decimal (0 / 10) ++ "." ++ decimal (0 mod 10).
Proof. reflexivity. Qed.

(** X17: the percentage a repaint shows is the one nearest to the true
    fraction: on a bar that can be drawn the digits written are those of
    [n] tenths of a percent, with [0 <= n <= 1000] and [n] within a half
    (and a rounding error below [10^-12]) of [1000 * current_step_ /
    total_steps_]. *)
Theorem percentage_shown (pb : ProgressBar) :
  drawable pb ->
  exists n : Z,
    fixed1 (progress_of pb * 100) = decimal (n / 10) ++ "." ++ decimal (n mod 10)
    /\ 0 <= n <= 1000
    /\ (Rabs (IZR n - 1000 * IZR (current_step_ pb) / IZR (total_steps_ pb))
          <= / 2 + / 1000000000000)%R.
Proof.
  intros Hd. destruct (drawable_progress pb Hd) as [Hc Ht]. unfold progress_of.
  set (c := current_step_ pb) in *. set (t := total_steps_ pb) in *.
  clearbody c t.
  destruct (Z.eq_dec c 0) as [-> | Hc0].
  { change (double_of_uint 0) with 0%float.
    rewrite (div_zero_l _ _ (normal_of_uint t ltac:(lia))).
    exists 0. split; [reflexivity | ]. split; [lia | ].
    replace (0 - 1000 * 0 / IZR t)%R with 0%R by (unfold Rdiv; lra).
    rewrite Rabs_R0. lra. }
  destruct (rounded_normal _ _ (progress_rounded c t ltac:(lia) Ht))
    as (P & HP & Hq & HerrP).
  assert (Hq1 : (IZR c / IZR t <= 1)%R).
  { assert (HT : (0 < IZR t)%R) by (apply IZR_lt; lia).
    apply Rmult_le_reg_r with (r := IZR t); [exact HT | ].
    unfold Rdiv. rewrite Rmult_assoc, Rinv_l by lra.
    rewrite Rmult_1_r, Rmult_1_l. apply IZR_le. lia. }
  assert (Hq2 : (/ 4294967296 <= IZR c / IZR t)%R).
  { assert (HT : (0 < IZR t)%R) by (apply IZR_lt; lia).
    assert (HT2 : (IZR t <= 4294967296)%R)
      by (change 4294967296%R with (IZR (2 ^ 32)); apply IZR_le; lia).
    assert (HC : (1 <= IZR c)%R) by (apply IZR_le; lia).
    apply Rmult_le_reg_r with (r := IZR t); [exact HT | ].
    unfold Rdiv. rewrite Rmult_assoc, Rinv_l by lra.
    assert (/ 4294967296 * IZR t <= 1)%R by lra. lra. }
  set (Q := (IZR c / IZR t)%R) in *.
  rewrite bpow_m53 in HerrP. apply Rabs_le_both in HerrP.
  assert (Hr : rounded (P * 100) (Prim2SF (double_of_uint c / double_of_uint t * 100))).
  { apply mul_rounded; [exact HP | apply normal_100 | norm_bpow; lra | norm_bpow; lra]. }
  destruct (rounded_normal _ _ Hr) as (V & HV & _ & HerrV).
  rewrite bpow_m53 in HerrV. apply Rabs_le_both in HerrV.
  destruct (fixed1_value _ V HV) as (n & Hn0 & Hfix & Hnear);
    [rewrite bpow_52; lra | ].
  apply Rabs_le_both in Hnear.
  assert (Hbound : (Rabs (IZR n - 1000 * Q) <= / 2 + / 1000000000000)%R).
  { apply Rabs_le. split; lra. }
  exists n. split; [exact Hfix | ]. split.
  - split; [exact Hn0 | ].
    apply Rabs_le_both in Hbound.
    assert (Hlt : (IZR n < IZR 1001)%R) by (change (IZR 1001) with 1001%R; lra).
    apply lt_IZR in Hlt. lia.
  - unfold Q in Hbound. unfold Rdiv in *. rewrite Rmult_assoc. exact Hbound.
Qed.

Lemma percentage_shown_witness :
  exists n : Z,
    fixed1 (progress_of pb29 * 100) = decimal (n / 10) ++ "." ++ decimal (n mod 10)
    /\ 0 <= n <= 1000
    /\ (Rabs (IZR n - 1000 * IZR (current_step_ pb29) / IZR (total_steps_ pb29))
          <= / 2 + / 1000000000000)%R.
Proof.
  apply percentage_shown.
  vm_compute. repeat split; discriminate.
Defined.

(** X18: the elapsed time a repaint shows is the nearest number of tenths
    of a second: for a reading less than [2^53] ticks after the start of the
    stopwatch the digits written are those of [n] tenths, [n] within a half
    (and a rounding error below [10^-6]) of the ticks divided by [10^8]. *)
Theorem elapsed_shown (from to : time_point_t) :
  0 <= to - from < 2 ^ 53 ->
  exists n : Z,
    0 <= n
    /\ fixed1 (elapsed_seconds from to) = decimal (n / 10) ++ "." ++ decimal (n mod 10)
    /\ (Rabs (IZR n - IZR (to - from) / 100000000) <= / 2 + / 1000000)%R.
Proof.
  intros Hd. destruct (Z.eq_dec (to - from) 0) as [Hz | Hz].
  { unfold elapsed_seconds. rewrite Hz.
    exists 0. split; [lia | ]. split; [reflexivity | ].
    replace (0 - 0 / 100000000)%R with 0%R by (unfold Rdiv; lra).
    rewrite Rabs_R0. lra. }
  destruct (elapsed_seconds_normal from to ltac:(lia)) as (V & HV & He).
  apply Rabs_le_both in He.
  assert (H1 : 1 <= to - from) by lia. apply IZR_le in H1.
  assert (H2 : to - from <= 9007199254740992) by lia. apply IZR_le in H2.
  destruct (fixed1_value _ V HV) as (n & Hn0 & Hfix & Hnear);
    [rewrite bpow_52; lra | ].
  apply Rabs_le_both in Hnear.
  exists n. split; [exact Hn0 | ]. split; [exact Hfix | ].
  apply Rabs_le. split; lra.
Qed.

Lemma elapsed_shown_witness :
  exists n : Z,
    0 <= n
    /\ fixed1 (elapsed_seconds 0 250000000)
       = decimal (n / 10) ++ "." ++ decimal (n mod 10)
    /\ (Rabs (IZR n - IZR (250000000 - 0) / 100000000) <= / 2 + / 1000000)%R.
Proof.
  apply elapsed_shown.
  vm_compute. split; [discriminate | reflexivity].
Defined.

(** X19: what [update] stores when the sum of the step count and the
    steps requested leaves the range of [unsigned int]: the sum is reduced
    by [2^32] before it is compared with the total, so the count goes back
    to the reduced sum when that is not above the total. *)
Theorem update_beyond_the_range (steps : Z) (force : bool) (pb : ProgressBar) (w : World) :
  drawable pb -> 0 <= steps < UINT_MODULUS ->
  exists pb' w',
    update steps force pb w = Some (pb', w')
    /\ current_step_ pb' =
         if current_step_ pb + steps <? UINT_MODULUS
         then Z.min (current_step_ pb + steps) (total_steps_ pb)
         else Z.min (current_step_ pb + steps - UINT_MODULUS) (total_steps_ pb).
Proof.
  intros Hd Hs.
  destruct (update_drawable steps force pb w Hd) as (pb' & w' & Hu & _).
  exists pb', w'. split; [exact Hu | ].
  destruct (update_current_step _ _ _ _ _ _ Hu) as [-> _].
  destruct Hd as (Hc & Ht & _).
  destruct (Z.ltb_spec (current_step_ pb + steps) UINT_MODULUS) as [Hlt | Hge].
  - apply clamp_step_no_overflow; lia.
  - unfold clamp_step, uadd, wrap.
    assert (Hw : (current_step_ pb + steps) mod UINT_MODULUS
                 = current_step_ pb + steps - UINT_MODULUS).
    { symmetry. apply Z.mod_unique with (q := 1); unfold UINT_MODULUS in *; lia. }
    rewrite Hw.
    destruct (current_step_ pb + steps - UINT_MODULUS >? total_steps_ pb) eqn:E;
      rewrite Z.gtb_ltb in E.
    + apply Z.ltb_lt in E. lia.
    + apply Z.ltb_ge in E. lia.
Qed.

Lemma update_beyond_the_range_witness :
  exists pb' w',
    update 4294967295 false (with_current_step pb4 3) w_slow = Some (pb', w')
    /\ current_step_ pb' =
         if current_step_ (with_current_step pb4 3) + 4294967295 <? UINT_MODULUS
         then Z.min (current_step_ (with_current_step pb4 3) + 4294967295)
                (total_steps_ (with_current_step pb4 3))
         else Z.min (current_step_ (with_current_step pb4 3) + 4294967295 - UINT_MODULUS)
                (total_steps_ (with_current_step pb4 3)).
Proof.
  apply update_beyond_the_range.
  - vm_compute. repeat split; discriminate.
  - vm_compute. split; [discriminate | reflexivity].
Defined.

End Numbers.

(** * The remaining time *)

Section Remaining.

Lemma normal_unique (x : float) (v1 v2 : R) : normal x v1 -> normal x v2 -> v1 = v2.
Proof.
  intros (m1 & e1 & H1 & _ & _ & ->) (m2 & e2 & H2 & _ & _ & ->).
  rewrite H1 in H2. injection H2 as -> ->. reflexivity.
Qed.

(** The value of a correctly rounded result, on the grid of its binade. *)
Lemma rounded_value (v : R) (x : float) :
  rounded v (Prim2SF x) ->
  exists (g m1 : Z) (V : R),
    2 ^ 52 <= m1 <= 2 ^ 53 /\ normal x V /\
    V = (IZR m1 * bpow (g - 53))%R /\
    (bpow (g - 1) <= v < bpow g)%R /\
    (Rabs (V - v) <= bpow (g - 54))%R.
Proof.
  intros (g & m1 & Hb & Hlo & Hhi & Hf & Hbin & Hnear).
  exists g, m1, (IZR m1 * bpow (g - 53))%R.
  split; [exact Hb | ]. split; [ | split; [reflexivity | split; assumption]].
  destruct (Z.ltb_spec m1 (2 ^ 53)) as [Hlt | Hge].
  - exists (Z.to_pos m1), (g - 53).
    rewrite Z2Pos.id by lia. repeat split; try lia. exact Hf.
  - exists (Z.to_pos (2 ^ 52)), (g - 52).
    split; [exact Hf | ]. split; [cbn; lia | ]. split; [lia | ].
    assert (m1 = 2 ^ 53) by lia. subst m1.
    replace (g - 52) with (1 + (g - 53)) by lia. rewrite bpow_add.
    rewrite (bpow_IZR 1) by lia. rewrite <- Rmult_assoc, <- mult_IZR.
    reflexivity.
Qed.

Lemma grid_bounds (g : Z) :
  bpow (g - 1) = (4503599627370496 * bpow (g - 53))%R /\
  bpow g = (9007199254740992 * bpow (g - 53))%R /\
  bpow (g - 54) = (bpow (g - 53) / 2)%R.
Proof.
  split; [ | split].
  - replace (g - 1) with (52 + (g - 53)) by lia.
    rewrite bpow_add, (bpow_IZR 52) by lia. reflexivity.
  - replace g with (53 + (g - 53)) at 1 by lia.
    rewrite bpow_add, (bpow_IZR 53) by lia. reflexivity.
  - replace (g - 54) with ((g - 53) + - 1) by lia.
    rewrite bpow_add, bpow_m1. reflexivity.
Qed.

(** Rounding to nearest does not cross a double: a double not above the
    exact value is not above the rounded one. *)
Lemma rounded_ge (v : R) (x y : float) (vy : R) :
  rounded v (Prim2SF x) -> normal y vy -> (vy <= v)%R ->
  exists V, normal x V /\ (vy <= V)%R.
Proof.
  intros Hr (my & ey & _ & Hmy & _ & ->) Hle.
  destruct (rounded_value v x Hr) as (g & m1 & V & Hm1 & HV & -> & Hbin & Hnear).
  exists (IZR m1 * bpow (g - 53))%R. split; [exact HV | ].
  pose proof (normal_magnitude my ey Hmy) as Hmag.
  destruct (grid_bounds g) as (G1 & G2 & G3). rewrite G1, G2 in Hbin. rewrite G3 in Hnear.
  pose proof (bpow_pos (g - 53)) as HB.
  apply Rabs_le_both in Hnear.
  assert (H52 : (4503599627370496 <= IZR m1)%R)
    by (change 4503599627370496%R with (IZR (2 ^ 52)); apply IZR_le; lia).
  destruct (Z.compare_spec ey (g - 53)) as [He | He | He].
  - subst ey.
    assert (Hd : (IZR (Zpos my) - 1 < IZR m1)%R).
    { apply Rmult_lt_reg_r with (r := bpow (g - 53)); [exact HB | ]. lra. }
    rewrite <- minus_IZR in Hd. apply lt_IZR in Hd.
    assert (Hmm : Zpos my <= m1) by lia. apply IZR_le in Hmm.
    apply Rmult_le_compat_r; lra.
  - pose proof (bpow_le (53 + ey) (g - 1) ltac:(lia)) as Hp.
    replace (g - 1) with (52 + (g - 53)) in Hp by lia.
    rewrite (bpow_add 52), (bpow_IZR 52) in Hp by lia.
    change (IZR (2 ^ 52)) with 4503599627370496%R in Hp.
    assert (4503599627370496 * bpow (g - 53) <= IZR m1 * bpow (g - 53))%R
      by (apply Rmult_le_compat_r; lra).
    lra.
  - exfalso. pose proof (bpow_le g (52 + ey) ltac:(lia)) as Hp.
    rewrite G2 in Hp. lra.
Qed.

(** And a double not below the exact value is not below the rounded one. *)
Lemma rounded_le (v : R) (x y : float) (vy : R) :
  rounded v (Prim2SF x) -> normal y vy -> (v <= vy)%R ->
  exists V, normal x V /\ (V <= vy)%R.
Proof.
  intros Hr (my & ey & _ & Hmy & _ & ->) Hle.
  destruct (rounded_value v x Hr) as (g & m1 & V & Hm1 & HV & -> & Hbin & Hnear).
  exists (IZR m1 * bpow (g - 53))%R. split; [exact HV | ].
  pose proof (normal_magnitude my ey Hmy) as Hmag.
  destruct (grid_bounds g) as (G1 & G2 & G3). rewrite G1, G2 in Hbin. rewrite G3 in Hnear.
  pose proof (bpow_pos (g - 53)) as HB.
  apply Rabs_le_both in Hnear.
  assert (H53 : (IZR m1 <= 9007199254740992)%R)
    by (change 9007199254740992%R with (IZR (2 ^ 53)); apply IZR_le; lia).
  destruct (Z.compare_spec ey (g - 53)) as [He | He | He].
  - subst ey.
    assert (Hd : (IZR m1 < IZR (Zpos my) + 1)%R).
    { apply Rmult_lt_reg_r with (r := bpow (g - 53)); [exact HB | ]. lra. }
    rewrite <- plus_IZR in Hd. apply lt_IZR in Hd.
    assert (Hmm : m1 <= Zpos my) by lia. apply IZR_le in Hmm.
    apply Rmult_le_compat_r; lra.
  - exfalso. pose proof (bpow_le (53 + ey) (g - 1) ltac:(lia)) as Hp.
    rewrite G1 in Hp. lra.
  - pose proof (bpow_le g (52 + ey) ltac:(lia)) as Hp. rewrite G2 in Hp.
    assert (IZR m1 * bpow (g - 53) <= 9007199254740992 * bpow (g - 53))%R
      by (apply Rmult_le_compat_r; lra).
    lra.
Qed.

Lemma shl_align_fst (m : positive) (e e' : Z) :
  e' <= e -> Zpos (fst (shl_align m e e')) = Zpos m * 2 ^ (e - e').
Proof.
  intros H. unfold shl_align. destruct (e' - e) as [ | d | d] eqn:E.
  - replace (e - e') with 0 by lia. cbn [fst]. lia.
  - lia.
  - cbn [fst]. rewrite iter_xO_mul. replace (e - e') with (Zpos d) by lia. reflexivity.
Qed.

Lemma Zdigits2_shift (p : positive) (k : Z) :
  0 <= k -> Zdigits2 (Zpos p * 2 ^ k) = Zdigits2 (Zpos p) + k.
Proof.
  intros Hk. pose proof (Zdigits2_bounds (Zpos p) ltac:(lia)) as [H1 H2].
  assert (Hd : 0 < Zdigits2 (Zpos p)) by (cbn; lia).
  assert (HK : 0 < 2 ^ k) by (apply Z.pow_pos_nonneg; lia).
  apply Zdigits2_unique; [ | lia].
  replace (Zdigits2 (Zpos p) + k - 1) with (Zdigits2 (Zpos p) - 1 + k) by lia.
  rewrite !Z.pow_add_r by lia. split; nia.
Qed.

(** Rounding a positive integer multiple of a power of two, in the normal
    range, gives a positive double. *)
Lemma binary_round_pos (p : positive) (e : Z) :
  - 1074 <= Zdigits2 (Zpos p) + e - 53 -> Zdigits2 (Zpos p) + e - 52 <= 971 ->
  exists m' e', binary_round prec emax false p e = S754_finite false m' e'.
Proof.
  intros Hlo Hhi. unfold binary_round. rewrite fexp_eq.
  change (Zpos (digits2_pos p)) with (Zdigits2 (Zpos p)).
  rewrite Z.max_l by lia.
  set (e1 := Zdigits2 (Zpos p) + e - 53) in *.
  assert (Hsh : exists mz ez, shl_align p e e1 = (mz, ez)
                  /\ 53 <= Zdigits2 (Zpos mz)
                  /\ Zdigits2 (Zpos mz) + ez = Zdigits2 (Zpos p) + e).
  { destruct (Z_le_gt_dec e1 e) as [Hle | Hgt].
    - exists (fst (shl_align p e e1)), e1. split.
      + unfold shl_align. destruct (e1 - e) as [ | d | d] eqn:E; cbn [fst]; try lia.
        * f_equal. lia.
        * reflexivity.
      + rewrite shl_align_fst, Zdigits2_shift by lia. unfold e1. lia.
    - exists p, e. split.
      + unfold shl_align. destruct (e1 - e) as [ | d | d] eqn:E; try lia; reflexivity.
      + unfold e1 in Hgt. lia. }
  destruct Hsh as (mz & ez & -> & Hd & Hg).
  pose proof (round_aux_normal false (Zpos mz) 1 ez ltac:(lia) ltac:(lia)) as Hr.
  rewrite Z.div_1_r in Hr. specialize (Hr ltac:(lia)). cbv zeta in Hr.
  destruct Hr as (m1 & _ & _ & Hr); try lia.
  replace (loc_of (Zpos mz) 1) with loc_Exact in Hr
    by (unfold loc_of; rewrite Z.mod_1_r; reflexivity).
  rewrite Hr. destruct (m1 <? 2 ^ 53); eexists; eexists; reflexivity.
Qed.

(** The difference of two positive doubles, the larger first, is not
    negative. *)
Lemma sub_nonneg (x y : float) (vx vy : R) :
  normal x vx -> normal y vy ->
  (bpow (- 100) <= vx <= bpow 100)%R -> (bpow (- 100) <= vy <= bpow 100)%R ->
  (vy <= vx)%R ->
  (0 <=? x - y)%float = true.
Proof.
  intros (mx & ex & HPx & Hmx & _ & ->) (my & ey & HPy & Hmy & _ & ->) Hbx Hby Hle.
  pose proof (normal_exponent mx ex Hmx Hbx) as Hex.
  pose proof (normal_exponent my ey Hmy Hby) as Hey.
  rewrite FloatAxioms.leb_spec, FloatAxioms.sub_spec, HPx, HPy.
  unfold SF64sub, SFsub. cbv zeta.
  change (IntDef.Z.min ex ey) with (Z.min ex ey).
  set (ez := Z.min ex ey).
  assert (Hzx : ez <= ex) by (unfold ez; lia).
  assert (Hzy : ez <= ey) by (unfold ez; lia).
  cbn [cond_Zopp].
  rewrite (shl_align_fst mx ex ez Hzx), (shl_align_fst my ey ez Hzy).
  assert (Hd : Zpos my * 2 ^ (ey - ez) <= Zpos mx * 2 ^ (ex - ez)).
  { apply le_IZR. rewrite !mult_IZR, <- !bpow_IZR by lia.
    pose proof (bpow_pos ez) as Hz.
    apply Rmult_le_reg_r with (r := bpow ez); [exact Hz | ].
    rewrite !Rmult_assoc, <- !bpow_add.
    replace (ey - ez + ez) with ey by lia. replace (ex - ez + ez) with ex by lia.
    exact Hle. }
  assert (Hux : Zpos mx * 2 ^ (ex - ez) < 2 ^ (53 + (ex - ez))).
  { rewrite Z.pow_add_r by lia.
    assert (0 < 2 ^ (ex - ez)) by (apply Z.pow_pos_nonneg; lia). nia. }
  set (MX := Zpos mx * 2 ^ (ex - ez)) in *. set (MY := Zpos my * 2 ^ (ey - ez)) in *.
  destruct (MX - MY) as [ | p | p] eqn:E; try lia.
  - reflexivity.
  - cbn [binary_normalize].
    assert (Hp : 1 <= Zdigits2 (Zpos p) <= 53 + (ex - ez)).
    { assert (Hpos : 0 < MY) by (unfold MY; apply Z.mul_pos_pos;
        [lia | apply Z.pow_pos_nonneg; lia]).
      pose proof (Zdigits2_range (Zpos p) 0 (53 + (ex - ez)) ltac:(lia)) as Hr.
      apply Hr. change (2 ^ 0) with 1. lia. }
    destruct (binary_round_pos p ez) as (m' & e' & ->); try lia.
    reflexivity.
Qed.

(** X20: the remaining time of a repaint, [t / progress - t], is never
    negative and never a NaN once a step has been made: on a bar that can be
    drawn with [current_step_ > 0], for an elapsed time [t] read less than
    [2^53] ticks after the start, the double is at least zero. *)
Theorem remaining_time_not_negative (pb : ProgressBar) (from to : time_point_t) :
  drawable pb -> 0 < current_step_ pb ->
  0 <= to - from < 2 ^ 53 ->
  (0 <=? elapsed_seconds from to / progress_of pb - elapsed_seconds from to)%float = true.
Proof.
  intros Hd Hc0 Hb. destruct (drawable_progress pb Hd) as [Hc Ht]. unfold progress_of.
  set (c := current_step_ pb) in *. set (t := total_steps_ pb) in *. clearbody c t.
  pose proof (progress_rounded c t ltac:(lia) Ht) as Hrp.
  destruct (rounded_normal _ _ Hrp) as (P & HP & Hq & HerrP).
  assert (HT : (0 < IZR t)%R) by (apply IZR_lt; lia).
  assert (Hq1 : (IZR c / IZR t <= 1)%R).
  { apply Rmult_le_reg_r with (r := IZR t); [exact HT | ].
    unfold Rdiv. rewrite Rmult_assoc, Rinv_l by lra.
    rewrite Rmult_1_r, Rmult_1_l. apply IZR_le. lia. }
  assert (Hq2 : (/ 4294967296 <= IZR c / IZR t)%R).
  { assert (HT2 : (IZR t <= 4294967296)%R)
      by (change 4294967296%R with (IZR (2 ^ 32)); apply IZR_le; lia).
    assert (HC : (1 <= IZR c)%R) by (apply IZR_le; lia).
    apply Rmult_le_reg_r with (r := IZR t); [exact HT | ].
    unfold Rdiv. rewrite Rmult_assoc, Rinv_l by lra.
    assert (/ 4294967296 * IZR t <= 1)%R by lra. lra. }
  destruct (rounded_le _ _ _ _ Hrp normal_1 Hq1) as (P' & HP' & HP1).
  rewrite (normal_unique _ _ _ HP' HP) in HP1. clear P' HP'.
  rewrite bpow_m53 in HerrP. apply Rabs_le_both in HerrP.
  set (Q := (IZR c / IZR t)%R) in *. clearbody Q.
  destruct (Z.eq_dec (to - from) 0) as [Hz | Hz].
  { unfold elapsed_seconds. rewrite Hz.
    change (double_of_ticks 0 / TICKS_PER_SECOND)%float with 0%float.
    rewrite (div_zero_l _ _ HP). reflexivity. }
  destruct (elapsed_seconds_normal from to ltac:(lia)) as (T & HTn & HeT).
  apply Rabs_le_both in HeT.
  assert (H1 : 1 <= to - from) by lia. apply IZR_le in H1.
  assert (H2 : to - from <= 9007199254740992) by lia. apply IZR_le in H2.
  set (D := IZR (to - from)) in *. clearbody D.
  assert (HTpos : (0 < T)%R) by (apply (normal_pos _ _ HTn)).
  assert (HTb : (bpow (- 100) <= T <= bpow 100)%R) by (norm_bpow; lra).
  assert (HPb : (bpow (- 100) <= P <= bpow 100)%R) by (norm_bpow; lra).
  pose proof (div_rounded _ _ _ _ HTn HP HTb HPb) as Hrd.
  assert (Hge : (T <= T / P)%R).
  { apply Rmult_le_reg_r with (r := P); [lra | ].
    unfold Rdiv. rewrite Rmult_assoc, Rinv_l by lra. nra. }
  destruct (rounded_ge _ _ _ _ Hrd HTn Hge) as (W & HW & HWT).
  destruct (rounded_normal _ _ Hrd) as (W' & HW' & _ & HerrW).
  rewrite (normal_unique _ _ _ HW' HW) in HerrW. clear W' HW'.
  rewrite bpow_m53 in HerrW. apply Rabs_le_both in HerrW.
  assert (Hup : (T / P <= T * 8589934592)%R).
  { apply Rmult_le_reg_r with (r := P); [lra | ].
    unfold Rdiv. rewrite Rmult_assoc, Rinv_l by lra.
    assert (/ 8589934592 <= P)%R by lra. nra. }
  apply (sub_nonneg _ _ W T HW HTn); [ | exact HTb | exact HWT].
  norm_bpow. split; [lra | ].
  assert (T <= 9007199254740993 / 1000000000)%R by lra.
  lra.
Qed.

Lemma remaining_time_not_negative_witness :
  (0 <=? elapsed_seconds 0%Z 250000000%Z / progress_of pb29
         - elapsed_seconds 0%Z 250000000%Z)%float = true.
Proof.
  apply (remaining_time_not_negative pb29 0 250000000).
  - vm_compute. repeat split; discriminate.
  - vm_compute. reflexivity.
  - vm_compute. split; [discriminate | reflexivity].
Defined.

End Remaining.
